(** * Aadhaar lifecycle dashboard: loader, aggregation views, converter

    A shallow embedding of [app.py] (the Streamlit dashboard) and of
    [converter.py] (the offline spreadsheet converter), and the properties
    of their data loading and aggregation layer.

    Conventions of the embedding.
    - A pandas [DataFrame] is a record of its column index and its rows; a
      row maps a column name to the value it holds, and a name without a
      binding is a missing value (NaN).
    - The numbers of the tables are integers ([Z]).  pandas keeps a column
      of numbers as 64-bit integers when no cell of it is missing, and as
      64-bit floating-point numbers when one is; sums wrap around in the
      first case and round in the second, and so do the sums below.
      Numbers with a fractional part are left out.  Text cells are strings.
    - The file system, the warning channel of Streamlit and its cache are
      explicit: functions take the file system as an argument and return
      the events they emit.
    - What the operating system refuses for reasons the file system does
      not show (permissions, a full disk, a console that cannot show a
      character) is a parameter of the converter. *)

From Stdlib Require Import ZArith Ascii String List.
From Stdlib Require Import DecimalString DecimalZ.
From stdpp Require Import base option list sorting gmap strings.

Local Open Scope Z_scope.

(** ** Tables *)

(** A cell that is present holds a number or a text. *)
Inductive value : Type :=
  | VNum (z : Z)
  | VStr (s : string).

#[global] Instance value_eq_dec : EqDecision value.
Proof. solve_decision. Defined.

(** [pd.DataFrame]: the column index, in order, and the rows, in order. *)
Record DataFrame : Type := mkFrame {
  columns : list string;
  rows : list (gmap string value)
}.

(** [pd.DataFrame()] *)
Definition empty_frame : DataFrame := mkFrame [] [].

(** [len(df)] *)
Definition len (df : DataFrame) : nat := length (rows df).

(** [df.empty]: pandas answers [True] as soon as one of the two axes has
    length zero. *)
Definition empty (df : DataFrame) : bool :=
  match columns df, rows df with
  | [], _ => true
  | _, [] => true
  | _ :: _, _ :: _ => false
  end.

(** [df[c]]: the cells of one column, top to bottom; [None] is NaN. *)
Definition series (df : DataFrame) (c : string) : list (option value) :=
  map (λ r : gmap string value, r !! c) (rows df).

(** ** Column sums: [df[cols].sum().reset_index()] *)

(** Python's [+] on two cells: numbers add, texts concatenate, and a number
    and a text do not add ([TypeError]). *)
Definition py_add (a b : value) : option value :=
  match a, b with
  | VNum x, VNum y => Some (VNum (x + y))
  | VStr s, VStr u => Some (VStr (s +:+ u))
  | _, _ => None
  end.

(** *** Sums of numbers, as numpy computes them *)

(** The sum of some integers, and the sum of their absolute values. *)
Definition zsum (l : list Z) : Z := foldr Z.add 0 l.
Definition zmass (l : list Z) : Z := foldr (λ x acc, Z.abs x + acc) 0 l.

(** A sum of 64-bit integers wraps around. *)
Definition wrap64 (z : Z) : Z := (z + 2 ^ 63) `mod` 2 ^ 64 - 2 ^ 63.

(** The 64-bit floating-point number nearest to an integer (below the
    overflow threshold): 53 significant bits, a tie going to the even
    one. *)
Definition round53 (z : Z) : Z :=
  let e := Z.log2 (Z.abs z) - 52 in
  if e <=? 0 then z
  else
    let q := z `div` 2 ^ e in
    let r := z `mod` 2 ^ e in
    let half := 2 ^ (e - 1) in
    (if (r <? half) || ((r =? half) && Z.even q) then q else q + 1) * 2 ^ e.

(** The sum of two floating-point numbers that hold integers. *)
Definition fadd (x y : Z) : Z := round53 (x + y).

(** [res += a[i]] over the cells, one after the other. *)
Definition fsum_seq (start : Z) (l : list Z) : Z := foldl fadd start l.

(** The unrolled loop of numpy's pairwise summation: eight running sums,
    each taking every eighth cell. *)
Fixpoint lanes (groups : nat) (r l : list Z) : list Z * list Z :=
  match groups with
  | O => (r, l)
  | S n => lanes n (zip_with fadd r (take 8 l)) (drop 8 l)
  end.

(** A block of 8 to 128 cells: the eight running sums are added up in
    pairs, then the cells left over are added one by one. *)
Definition fsum_block (l : list Z) : Z :=
  let '(r, rest) := lanes (length l / 8 - 1) (take 8 l) (drop 8 l) in
  match r with
  | [r0; r1; r2; r3; r4; r5; r6; r7] =>
      fsum_seq (fadd (fadd (fadd r0 r1) (fadd r2 r3))
                     (fadd (fadd r4 r5) (fadd r6 r7))) rest
  | _ => fsum_seq 0 l
  end.

(** numpy's pairwise summation: fewer than 8 cells are added one by one,
    up to 128 as a block, more than that by halves. *)
Fixpoint fsum_pairwise (fuel : nat) (l : list Z) : Z :=
  let n := length l in
  if (n <? 8)%nat then fsum_seq 0 l
  else if (n <=? 128)%nat then fsum_block l
  else match fuel with
       | O => fsum_block l
       | S fuel' =>
           let n2 := (n / 2 - (n / 2) mod 8)%nat in
           fadd (fsum_pairwise fuel' (take n2 l)) (fsum_pairwise fuel' (drop n2 l))
       end.

(** [values.sum()] on a floating-point column. *)
Definition np_sum (l : list Z) : Z := fadd 0 (fsum_pairwise (length l) l).

Definition holds_text (cell : option value) : bool :=
  match cell with
  | Some (VStr _) => true
  | _ => false
  end.

(** The number a cell counts for; a missing cell is filled with [0]. *)
Definition number_in (cell : option value) : Z :=
  match cell with
  | Some (VNum z) => z
  | _ => 0
  end.

(** [Series.sum()] with its defaults ([skipna=True], [min_count=0]): every
    missing cell is first replaced by [0].  A column that holds a text is a
    column of Python objects, added up with [+] from the first cell on.  A
    column of numbers is added up as pandas keeps it: as 64-bit integers
    when no cell is missing, as floating-point numbers otherwise.  The sum
    of no cell at all is [0]. *)
Definition nansum (cells : list (option value)) : option value :=
  if existsb holds_text cells then
    match map (default (VNum 0)) cells with
    | [] => Some (VNum 0)
    | v :: vs => foldl (λ acc x, acc ≫= λ a, py_add a x) (Some v) vs
    end
  else if forallb (λ cell, bool_decide (is_Some cell)) cells then
    Some (VNum (wrap64 (zsum (number_in <$> cells))))
  else
    Some (VNum (np_sum ((λ cell, round53 (number_in cell)) <$> cells))).

(** [df[cols].sum().reset_index()]: one (label, total) pair per requested
    label, in the order of the request; [None] when some column does not
    add up. *)
Definition sum_frame (df : DataFrame) (cols : list string)
  : option (list (string * value)) :=
  mapM (λ c, (λ total, (c, total)) <$> nansum (series df c)) cols.

(** What a view ends up doing: it draws the summary, or it tells the user
    that the view is unavailable ([st.error]), or the script stops on an
    exception of the summation. *)
Inductive condition : Type :=
  | MissingRequiredColumns
  | NoMatchingColumns.

Inductive outcome (A : Type) : Type :=
  | Summary (r : A)
  | Signal (c : condition)
  | Raised.
Arguments Summary {A} r.
Arguments Signal {A} c.
Arguments Raised {A}.

(** The guard and the summation shared by the "Age-wise Enrolment" and the
    "Demographic Updates" views (app.py, lines 108-111 and 136-139):
[[
    if df.empty or not all(c in df.columns for c in cols):
        st.error(...)
    else:
        summary = df[cols].sum().reset_index()
]] *)
Definition sumColumns (df : DataFrame) (cols : list string)
  : outcome (list (string * value)) :=
  if empty df || negb (forallb (λ c, bool_decide (c ∈ columns df)) cols)
  then Signal MissingRequiredColumns
  else match sum_frame df cols with
       | Some r => Summary r
       | None => Raised
       end.

Definition age_cols : list string := ["age_0_5"; "age_5_17"; "age_18_greater"].
Definition demo_cols : list string := ["demo_age_5_17"; "demo_age_17_"].

(** The two views, on the frames loaded at start-up. *)
Definition age_summary (enrol_df : DataFrame) := sumColumns enrol_df age_cols.
Definition demo_summary (demo_df : DataFrame) := sumColumns demo_df demo_cols.

(** The total the specification describes: the numbers of the column added
    up, every other cell (text or missing) counting for nothing. *)
Definition numeric_total (cells : list (option value)) : Z :=
  foldr (λ cell acc, match cell with Some (VNum z) => z + acc | _ => acc end)
        0 cells.

(** A column is numeric when none of its cells holds a text. *)
Definition numeric_column (df : DataFrame) (c : string) : Prop :=
  ∀ r s, r ∈ rows df → r !! c ≠ Some (VStr s).

(** The absolute values of the numbers of a column, added up.  While they
    stay within 2^53, no sum of cells of the column, taken in any order,
    leaves the range in which 64-bit integers do not wrap around and
    floating-point numbers hold every integer. *)
Definition magnitude (cells : list (option value)) : Z :=
  foldr (λ cell acc, match cell with Some (VNum z) => Z.abs z + acc | _ => acc end)
        0 cells.

Definition exact_column (df : DataFrame) (c : string) : Prop :=
  magnitude (series df c) ≤ 2 ^ 53.

(** Building rows for examples. *)
Definition mkrow (cells : list (string * value)) : gmap string value :=
  list_to_map cells.

(** ** Column selection by name: ["age" in c.lower()] *)

(** [str.lower()] on the ASCII letters.  Strings are byte strings (UTF-8);
    Python also lowers letters outside ASCII, none of which becomes one of
    the letters looked for below, so the test is the same. *)
Definition lower_ascii (a : ascii) : ascii :=
  let n := nat_of_ascii a in
  if ((65 <=? n) && (n <=? 90))%nat then ascii_of_nat (n + 32) else a.

Fixpoint lower (s : string) : string :=
  match s with
  | EmptyString => EmptyString
  | String a s' => String (lower_ascii a) (lower s')
  end.

(** [needle in hay] on Python strings: [needle] occurs somewhere in [hay]. *)
Fixpoint contains (needle hay : string) : bool :=
  String.prefix needle hay ||
  match hay with
  | EmptyString => false
  | String _ hay' => contains needle hay'
  end.

(** The "Biometric Lifecycle" view (app.py, lines 162-167), with the text
    looked for in the lowered column names as a parameter:
[[
    bio_age_cols = [c for c in bio_df.columns if "age" in c.lower()]
    if bio_df.empty or not bio_age_cols:
        st.error("No biometric age columns found.")
    else:
        bio_summary = bio_df[bio_age_cols].sum().reset_index()
]] *)
Definition matching_cols (df : DataFrame) (needle : string) : list string :=
  filter (λ c, Is_true (contains needle (lower c))) (columns df).

Definition sumMatchingColumns (df : DataFrame) (needle : string)
  : outcome (list (string * value)) :=
  let cols := matching_cols df needle in
  if empty df || bool_decide (cols = [])
  then Signal NoMatchingColumns
  else match sum_frame df cols with
       | Some r => Summary r
       | None => Raised
       end.

Definition bio_age_cols (bio_df : DataFrame) : list string :=
  matching_cols bio_df "age".
Definition bio_summary (bio_df : DataFrame) := sumMatchingColumns bio_df "age".

(** The reading of "case-insensitive substring match" the specification
    gives, stated without the lowering of the program: some stretch of the
    name is the text looked for, letter by letter, where a capital letter
    and its small form count as the same letter. *)
Definition letter_cases : list (ascii * ascii) :=
  zip (list_ascii_of_string "ABCDEFGHIJKLMNOPQRSTUVWXYZ")
      (list_ascii_of_string "abcdefghijklmnopqrstuvwxyz").

Definition same_letter (a b : ascii) : bool :=
  bool_decide (a = b) || bool_decide ((a, b) ∈ letter_cases)
                      || bool_decide ((b, a) ∈ letter_cases).

Fixpoint same_text (s u : string) : bool :=
  match s, u with
  | EmptyString, EmptyString => true
  | String a s', String b u' => same_letter a b && same_text s' u'
  | _, _ => false
  end.

Definition occurs_ignoring_case (needle name : string) : Prop :=
  ∃ before hit after,
    name = before +:+ hit +:+ after ∧ same_text hit needle = true.

(** Every character there is. *)
Definition all_ascii : list ascii := ascii_of_nat <$> seq 0 256.

(** Columns in capitals, in mixed case, without a match, and with "age"
    inside another word. *)
Definition table_cases : DataFrame :=
  mkFrame ["AGE_x"; "name"; "bio_Age_17"; "Stage"; "AG_E"]
    [ mkrow [("AGE_x", VNum 1); ("name", VStr "p"); ("bio_Age_17", VNum 2);
             ("Stage", VNum 3); ("AG_E", VNum 4)] ].

(** ** Grouped counts: [df[df[f] == v].groupby(g).size().reset_index()] *)

(** [df[df[f] == v]]: the rows whose cell in column [f] is present and
    equal to the chosen value.  A missing cell compares unequal to
    everything, and the choice [None] (what [st.selectbox] returns when it
    has no option to offer) equals no cell. *)
Definition matches (f : string) (selected : option value)
    (r : gmap string value) : bool :=
  match r !! f, selected with
  | Some x, Some v => bool_decide (x = v)
  | _, _ => false
  end.

Definition select_rows (f : string) (selected : option value)
    (rs : list (gmap string value)) : list (gmap string value) :=
  filter (λ r, Is_true (matches f selected r)) rs.

(** One more row for key [k] in the running tally of group sizes. *)
Fixpoint tally (k : value) (acc : list (value * nat)) : list (value * nat) :=
  match acc with
  | [] => [(k, 1%nat)]
  | (k', n) :: rest =>
      if decide (k = k') then (k', S n) :: rest else (k', n) :: tally k rest
  end.

(** The order in which pandas lists group keys: numbers first, ascending,
    then texts, ascending. *)
Definition value_leb (a b : value) : bool :=
  match a, b with
  | VNum x, VNum y => (x <=? y)%Z
  | VNum _, VStr _ => true
  | VStr _, VNum _ => false
  | VStr s, VStr u => String.leb s u
  end.

Definition key_le (x y : value * nat) : Prop := Is_true (value_leb x.1 y.1).

#[global] Instance key_le_dec : RelDecision key_le.
Proof. intros x y. unfold key_le. apply _. Defined.

(** One row goes into the tally: under its key, or nowhere if it has none. *)
Definition tally_row (g : string) (acc : list (value * nat))
    (r : gmap string value) : list (value * nat) :=
  match r !! g with
  | Some k => tally k acc
  | None => acc
  end.

(** [groupby(g).size()] with its defaults ([sort=True], [dropna=True]): the
    rows with a missing key are left out, the others are counted per key,
    and the keys are listed in order. *)
Definition groupby_size (g : string) (rs : list (gmap string value))
  : list (value * nat) :=
  merge_sort key_le (foldl (tally_row g) [] rs).

(** The "Regional Insights" view (app.py, lines 190-201), with the two
    column names as parameters ([f] is ["state"], [g] is ["district"]):
[[
    if bio_df.empty or f not in bio_df.columns or g not in bio_df.columns:
        st.error("State or district columns missing in biometric data.")
    else:
        state_df = bio_df[bio_df[f] == selected_state]
        district_summary = state_df.groupby(g).size().reset_index(...)
]] *)
Definition countByGroup (df : DataFrame) (g f : string)
    (selected : option value) : outcome (list (value * nat)) :=
  if empty df || negb (bool_decide (f ∈ columns df))
              || negb (bool_decide (g ∈ columns df))
  then Signal MissingRequiredColumns
  else Summary (groupby_size g (select_rows f selected (rows df))).

Definition district_summary (bio_df : DataFrame) (selected_state : option value) :=
  countByGroup bio_df "district" "state" selected_state.

(** ** Delimited text: what [to_csv] writes and [read_csv] reads

    A delimited file is taken after the splitting into records and fields,
    which the CSV writer and reader of pandas undo for each other (quoting
    included): a header record and the data records. *)
Record csv_text : Type := mkCsv {
  header : list string;
  body : list (list string)
}.

(** [str(z)] for an integer: decimal digits, with a minus sign if negative. *)
Definition py_str (z : Z) : string := NilZero.string_of_int (Z.to_int z).

Definition is_missing (cell : option value) : bool :=
  match cell with
  | None => true
  | Some _ => false
  end.

(** A column that pandas keeps as floating-point numbers: none of its cells
    holds a text and one of them is missing. *)
Definition float_column (df : DataFrame) (c : string) : bool :=
  negb (existsb holds_text (series df c)) && existsb is_missing (series df c).

(** The text of one cell in the file: a missing cell is written as nothing
    at all ([na_rep=""]), a text as it is, a number by its digits, followed
    by [.0] in a floating-point column.  (From 1e16 on Python writes a
    floating-point number with an exponent; the numbers converted in this
    development have at most fifteen digits.) *)
Definition to_field (float : bool) (cell : option value) : string :=
  match cell with
  | None => ""
  | Some (VStr s) => s
  | Some (VNum z) => if float then py_str z +:+ ".0" else py_str z
  end.

(** The record written for a row: one field per label of the frame. *)
Definition record_of (df : DataFrame) (r : gmap string value) : list string :=
  map (λ c, to_field (float_column df c) (r !! c)) (columns df).

(** [df.to_csv(csv_file, index=False)]: the labels, then one record per
    row. *)
Definition to_csv_text (df : DataFrame) : csv_text :=
  mkCsv (columns df) (map (record_of df) (rows df)).

(** The fields [read_csv] takes for missing values by default. *)
Definition na_values : list string :=
  [ ""; "#N/A"; "#N/A N/A"; "#NA"; "-1.#IND"; "-1.#QNAN"; "-NaN"; "-nan";
    "1.#IND"; "1.#QNAN"; "<NA>"; "N/A"; "NA"; "NULL"; "NaN"; "None"; "n/a";
    "nan"; "null" ].

(** White space around a number is skipped. *)
Definition is_space (a : ascii) : bool :=
  let n := nat_of_ascii a in
  ((n =? 32) || ((9 <=? n) && (n <=? 13)))%nat.

Fixpoint lstrip (s : string) : string :=
  match s with
  | EmptyString => EmptyString
  | String a s' => if is_space a then lstrip s' else s
  end.

Fixpoint rstrip (s : string) : string :=
  match s with
  | EmptyString => EmptyString
  | String a s' =>
      match rstrip s' with
      | EmptyString => if is_space a then EmptyString else String a EmptyString
      | t => String a t
      end
  end.

(** A text cut at its first dot. *)
Fixpoint split_dot (s : string) : string * option string :=
  match s with
  | EmptyString => (EmptyString, None)
  | String a s' =>
      if Ascii.eqb a "." then (EmptyString, Some s')
      else let '(w, f) := split_dot s' in (String a w, f)
  end.

Fixpoint only_zeros (s : string) : bool :=
  match s with
  | EmptyString => true
  | String a s' => Ascii.eqb a "0" && only_zeros s'
  end.

(** Decimal digits, at least one. *)
Definition digits (w : string) : option Z :=
  Z.of_uint <$> NilZero.uint_of_string w.

(** Digits, possibly followed by a dot and zeros ([12], [12.], [12.0],
    [.0]). *)
Definition unsigned_literal (u : string) : option Z :=
  match split_dot u with
  | (w, None) => digits w
  | (w, Some f) =>
      if only_zeros f then
        if bool_decide (w = "") then
          if bool_decide (f = "") then None else Some 0
        else digits w
      else None
  end.

(** A field that reads as an integer: an unsigned literal, possibly after a
    sign, possibly with white space around.  ([read_csv] reads further
    spellings as numbers: fractions, exponents, infinities; none of them is
    an integer that [to_csv] writes.) *)
Definition number_literal (s : string) : option Z :=
  match rstrip (lstrip s) with
  | EmptyString => None
  | String a u =>
      if Ascii.eqb a "-" then Z.opp <$> unsigned_literal u
      else if Ascii.eqb a "+" then unsigned_literal u
      else unsigned_literal (String a u)
  end.

(** The field of record [rec] under the [j]-th label; a record that stops
    short is filled up with missing values. *)
Definition field (j : nat) (rec : list string) : string := default "" (rec !! j).

(** Type inference per column: a column all of whose present fields read as
    numbers is a column of numbers, and it is one of floating-point numbers
    when a field is missing or written with a dot. *)
Definition reads_as_number (s : string) : bool :=
  bool_decide (s ∈ na_values) || bool_decide (is_Some (number_literal s)).

Definition numeric_fields (doc : csv_text) (j : nat) : bool :=
  forallb (λ rec, reads_as_number (field j rec)) (body doc).

Definition float_fields (doc : csv_text) (j : nat) : bool :=
  existsb (λ rec, bool_decide (field j rec ∈ na_values) || contains "." (field j rec))
          (body doc).

(** The cell read from a field, knowing the kind of its column.  (A
    floating-point field of up to fifteen digits before the dot is read
    exactly; on longer ones the parser of pandas, which multiplies by ten
    digit by digit and divides at the end, can be off in the last place,
    which is not modelled.) *)
Definition of_field (numeric float : bool) (s : string) : option value :=
  if bool_decide (s ∈ na_values) then None
  else if numeric
       then (λ z, VNum (if float then round53 z else z)) <$> number_literal s
       else Some (VStr s).

Definition read_record (doc : csv_text) (rec : list string) : gmap string value :=
  list_to_map
    (omap (λ '(j, c), (λ v, (c, v)) <$>
                      of_field (numeric_fields doc j) (float_fields doc j) (field j rec))
          (imap (λ j c, (j, c)) (header doc))).

(** [pd.read_csv(f, low_memory=False)] on delimited text whose fields are
    integers, texts and missing-value markers, under distinct non-empty
    labels (pandas renames repeated and empty labels, and it also knows
    columns of fractions, of truth values and of dates; none of them occurs
    in what [to_csv] writes for the frames of this development).  A file
    without a header has no column to parse. *)
Definition read_csv_text (doc : csv_text) : string + DataFrame :=
  match header doc with
  | [] => inl "No columns to parse from file"
  | _ :: _ => inr (mkFrame (header doc) (map (read_record doc) (body doc)))
  end.

(** ** The file system and the scripts that run on it *)

(** A file is described by what each of the two readers gets from it: the
    exception text, or the content. *)
Record stored : Type := mkFile {
  as_csv : string + csv_text;
  as_excel : string + DataFrame
}.

(** Directories by name, each with the files it lists by name. *)
Definition FS : Type := gmap string (gmap string stored).

(** A file, by the directory it is in and its name there. *)
Definition path : Type := string * string.

(** [os.path.join(a, b)] *)
Definition join (a b : string) : string :=
  if String.prefix "/" b then b
  else if bool_decide (a = "") then b
  else if String.prefix "/" (String.rev a) then a +:+ b
  else a +:+ "/" +:+ b.

Definition path_str (p : path) : string := join p.1 p.2.

(** What a script does to the outside. *)
Inductive event : Type :=
  | Glob (pattern : string)
  | Read (name : string)
  | MakeDirs (dir : string)
  | Write (name : string)
  | Print (line : string)
  | Warning (msg : string).

#[global] Instance event_eq_dec : EqDecision event.
Proof. solve_decision. Defined.

(** A script runs on a state, ends with an exception text or a value, and
    leaves a state and the events it emitted, oldest first. *)
Definition script (S A : Type) : Type := S → (string + A) * S * list event.

#[global] Instance script_ret {S} : MRet (script S) :=
  λ A a s, (inr a, s, []).

#[global] Instance script_bind {S} : MBind (script S) :=
  λ A B k m s,
    match m s with
    | (inl e, s1, t1) => (inl e, s1, t1)
    | (inr a, s1, t1) => let '(r, s2, t2) := k a s1 in (r, s2, t1 ++ t2)
    end.

Definition raise {S A} (e : string) : script S A := λ s, (inl e, s, []).

(** [try: m  except Exception as e: h e] *)
Definition try_except {S A} (m : script S A) (h : string → script S A)
  : script S A :=
  λ s, match m s with
       | (inl e, s1, t1) => let '(r, s2, t2) := h e s1 in (r, s2, t1 ++ t2)
       | (inr a, s1, t1) => (inr a, s1, t1)
       end.

Definition emit {S} (e : event) : script S unit := λ s, (inr tt, s, [e]).

(** [for x in l: body x] *)
Fixpoint for_each {S A} (l : list A) (body : A → script S unit) : script S unit :=
  match l with
  | [] => mret tt
  | x :: l' => body x ;; for_each l' body
  end.

(** The three components of a finished run. *)
Definition result {S A} (r : (string + A) * S * list event) : string + A := r.1.1.
Definition final {S A} (r : (string + A) * S * list event) : S := r.1.2.
Definition trace {S A} (r : (string + A) * S * list event) : list event := r.2.

(** [s.endswith(suffix)] *)
Fixpoint ends_with (suffix s : string) : bool :=
  String.eqb suffix s ||
  match s with
  | EmptyString => false
  | String _ s' => ends_with suffix s'
  end.

(** The names a directory lists; none when there is no such directory. *)
Definition listdir (fs : FS) (dir : string) : list string :=
  match fs !! dir with
  | Some entries => (map_to_list entries).*1
  | None => []
  end.

(** [glob.glob(os.path.join(dir, "*" + ext))], for a directory named
    without wildcards: the names of the directory that end in [ext] and do
    not start with a dot (which [*] does not match), not looking into
    subdirectories; a directory that does not exist yields no file. *)
Definition glob_match (fs : FS) (dir ext : string) : list path :=
  (λ name, (dir, name)) <$>
  filter (λ name, Is_true (ends_with ext name && negb (String.prefix "." name)))
         (listdir fs dir).

Definition glob (dir ext : string) : script FS (list path) :=
  λ fs, (inr (glob_match fs dir ext), fs, [Glob (join dir ("*" +:+ ext))]).

Definition lookup_file (fs : FS) (p : path) : option stored :=
  fs !! p.1 ≫= λ entries, entries !! p.2.

Definition no_such_file (p : path) : string :=
  "[Errno 2] No such file or directory: '" +:+ path_str p +:+ "'".

(** [pd.read_csv(f, low_memory=False)] *)
Definition read_csv_at (fs : FS) (p : path) : string + DataFrame :=
  match lookup_file fs p with
  | None => inl (no_such_file p)
  | Some f => match as_csv f with
              | inl e => inl e
              | inr doc => read_csv_text doc
              end
  end.

Definition read_csv (p : path) : script FS DataFrame :=
  λ fs, (read_csv_at fs p, fs, [Read (path_str p)]).

(** [pd.read_excel(file)] *)
Definition read_excel_at (fs : FS) (p : path) : string + DataFrame :=
  match lookup_file fs p with
  | None => inl (no_such_file p)
  | Some f => as_excel f
  end.

Definition read_excel (p : path) : script FS DataFrame :=
  λ fs, (read_excel_at fs p, fs, [Read (path_str p)]).

Definition warning {S} (msg : string) : script S unit := emit (Warning msg).

(** ** The loader (app.py, lines 42-55) *)

(** The labels of [pd.concat(dfs)]: those of all the frames, each at the
    place of its first appearance. *)
Definition union_columns (dfs : list DataFrame) : list string :=
  foldl (λ acc df, acc ++ list_difference (columns df) acc) [] dfs.

(** [pd.concat(dfs, ignore_index=True)]: the rows of the frames one after
    the other; a row has no value under the labels its frame did not have. *)
Definition pd_concat (dfs : list DataFrame) : DataFrame :=
  mkFrame (union_columns dfs) (mjoin (rows <$> dfs)).

(** The loop of the loader: [files] are still to be read, [dfs] are the
    frames appended so far.
[[
    for f in files:
        try:
            dfs.append(pd.read_csv(f, low_memory=False))
        except Exception as e:
            st.warning(f"Failed to load {f}: {e}")
]] *)
Fixpoint read_all (files : list path) (dfs : list DataFrame)
  : script FS (list DataFrame) :=
  match files with
  | [] => mret dfs
  | f :: rest =>
      dfs' ← try_except
                (df ← read_csv f; mret (dfs ++ [df]))
                (λ e, warning ("Failed to load " +:+ path_str f +:+ ": " +:+ e);;
                      mret dfs);
      read_all rest dfs'
  end.

(** The body of [load_folder_csvs]. *)
Definition load_folder_csvs (folder_path : string) : script FS DataFrame :=
  files ← glob folder_path ".csv";
  match files with
  | [] => mret empty_frame
  | _ :: _ =>
      dfs ← read_all files [];
      mret (match dfs with
            | [] => empty_frame
            | _ :: _ => pd_concat dfs
            end)
  end.

(** The texts of the warnings among some events, and the events that touch
    the disk. *)
Definition warnings_of (t : list event) : list string :=
  omap (λ e, match e with Warning msg => Some msg | _ => None end) t.

Definition is_disk_io (e : event) : bool :=
  match e with
  | Glob _ | Read _ | MakeDirs _ | Write _ => true
  | Print _ | Warning _ => false
  end.

Definition disk_io (t : list event) : list event :=
  filter (λ e, Is_true (is_disk_io e)) t.

(** The process of the dashboard: the disk it reads and the store of
    [@st.cache_data], which keeps, per argument, the frame the body returned
    and the warnings it showed. *)
Record session : Type := mkSession {
  disk : FS;
  memo : gmap string (DataFrame * list string)
}.

(** [@st.cache_data]: a call with an argument already in the store returns
    the stored frame and shows the stored warnings again, without running
    the body; any other call runs the body and stores what it returned.  A
    call that ends with an exception stores nothing. *)
Definition cache_data (f : string → script FS DataFrame) (arg : string)
  : script session DataFrame :=
  λ s, match memo s !! arg with
       | Some (df, msgs) => (inr df, s, Warning <$> msgs)
       | None =>
           match f arg (disk s) with
           | (inr df, d, t) =>
               (inr df, mkSession d (<[arg := (df, warnings_of t)]> (memo s)), t)
           | (inl e, d, t) => (inl e, mkSession d (memo s), t)
           end
       end.

(** [load_folder_csvs] as the rest of the program calls it. *)
Definition load : string → script session DataFrame :=
  cache_data load_folder_csvs.

(** The three loads at start-up (app.py, lines 60-62). *)
Definition load_data : script session (DataFrame * DataFrame * DataFrame) :=
  enrol_df ← load "data/api_data_aadhar_enrolment";
  demo_df ← load "data/api_data_aadhar_demographic";
  bio_df ← load "data/api_data_aadhar_biometric";
  mret (enrol_df, demo_df, bio_df).

(** Something else changes the disk while the process lives on. *)
Definition with_disk (d : FS) (s : session) : session := mkSession d (memo s).

(** A later part of the life of the process: calls of [load], each on the
    disk as it is by then. *)
Fixpoint later_calls (calls : list (FS * string)) (s : session) : session :=
  match calls with
  | [] => s
  | (d, arg) :: rest => later_calls rest (final (load arg (with_disk d s)))
  end.

(** ** The converter (converter.py) *)

Definition INPUT_ROOT : string := "".
Definition OUTPUT_ROOT : string := "data_csv_converted".

Definition folders : list string :=
  [ "api_data_aadhar_enrolment";
    "api_data_aadhar_demographic";
    "api_data_aadhar_biometric" ].

(** *** The operating system *)

(** What the operating system makes of a call that is to change
    something: it carries the call out ([None]), or it refuses it with an
    error, for a reason that the tables and the directory tree do not show
    (a tree that is read-only, a full disk, a console that cannot show a
    character). *)
Definition system : Type := event → option string.

(** A system that refuses nothing. *)
Definition willing : system := λ _, None.

(** [print(line)] *)
Definition print {S} (os : system) (line : string) : script S unit :=
  match os (Print line) with
  | Some e => raise e
  | None => emit (Print line)
  end.

(** [os.path.split(p)]: the path up to its last slash, without that slash
    (unless only slashes are left), and what follows the slash. *)
Fixpoint cut_at_slash (s : string) : string * option string :=
  match s with
  | EmptyString => (EmptyString, None)
  | String a s' =>
      if Ascii.eqb a "/" then (EmptyString, Some s')
      else let '(w, f) := cut_at_slash s' in (String a w, f)
  end.

Fixpoint drop_slashes (s : string) : string :=
  match s with
  | EmptyString => EmptyString
  | String a s' => if Ascii.eqb a "/" then drop_slashes s' else s
  end.

Definition split_path (p : string) : string * string :=
  match cut_at_slash (String.rev p) with
  | (_, None) => ("", p)
  | (tail, Some head) =>
      (match drop_slashes head with
       | EmptyString => String.rev (String "/" head)
       | h => String.rev h
       end,
       String.rev tail)
  end.

(** A regular file stands at a path. *)
Definition is_file (fs : FS) (p : string) : bool :=
  bool_decide (is_Some (lookup_file fs (split_path p))).

(** The directories above a path, the outermost first:
[[
    head, tail = path.split(name)
    if not tail:
        head, tail = path.split(head)
    if head and tail and not path.exists(head):
        makedirs(head, exist_ok=exist_ok)
]] *)
Fixpoint ancestors (fuel : nat) (name : string) : list string :=
  match fuel with
  | O => []
  | S n =>
      let '(head, tail) := split_path name in
      let '(head, tail) :=
        if bool_decide (tail = "") then split_path head else (head, tail) in
      if bool_decide (head = "") || bool_decide (tail = "") then []
      else ancestors n head ++ [head]
  end.

Definition parents (name : string) : list string :=
  ancestors (String.length name) name.

(** The error of [mkdir] along a path: a regular file that stands where the
    directory is to be ([FileExistsError]), or above it
    ([NotADirectoryError]). *)
Fixpoint mkdir_error (fs : FS) (l : list string) : option string :=
  match l with
  | [] => None
  | p :: rest =>
      if is_file fs p then
        Some (match rest with
              | [] => "[Errno 17] File exists: '" +:+ p +:+ "'"
              | q :: _ => "[Errno 20] Not a directory: '" +:+ q +:+ "'"
              end)
      else mkdir_error fs rest
  end.

Definition mkdir_missing (fs : FS) (dir : string) : FS :=
  match fs !! dir with
  | Some _ => fs
  | None => <[dir := ∅]> fs
  end.

(** [os.makedirs(dir, exist_ok=True)]: nothing to do for a directory that
    exists; otherwise the directory is made, with the directories above it
    that are missing, unless a regular file stands in the way or the
    system refuses. *)
Definition makedirs (os : system) (dir : string) : script FS unit :=
  λ fs, if bool_decide (is_Some (fs !! dir)) then (inr tt, fs, [MakeDirs dir])
        else match mkdir_error fs (parents dir ++ [dir]) with
             | Some e => raise e fs
             | None =>
                 match os (MakeDirs dir) with
                 | Some e => raise e fs
                 | None =>
                     (inr tt, foldl mkdir_missing fs (parents dir ++ [dir]),
                      [MakeDirs dir])
                 end
             end.

(** What [read_excel] says of a file that holds delimited text. *)
Definition not_excel : string :=
  "Excel file format cannot be determined, you must specify an engine manually.".

(** [df.to_csv(csv_file, index=False)]: the file is created, or replaced,
    in a directory that has to exist, unless a directory stands where the
    file is to go ([IsADirectoryError]) or the system refuses. *)
Definition to_csv (os : system) (df : DataFrame) (csv_file : path) : script FS unit :=
  λ fs, match fs !! csv_file.1 with
        | None =>
            raise ("Cannot save file into a non-existent directory: '"
                   +:+ csv_file.1 +:+ "'") fs
        | Some entries =>
            if bool_decide (is_Some (fs !! path_str csv_file)) then
              raise ("[Errno 21] Is a directory: '" +:+ path_str csv_file +:+ "'") fs
            else
              match os (Write (path_str csv_file)) with
              | Some e => raise e fs
              | None =>
                  (inr tt,
                   <[csv_file.1 :=
                       <[csv_file.2 := mkFile (inr (to_csv_text df)) (inl not_excel)]>
                         entries]> fs,
                   [Write (path_str csv_file)])
              end
        end.

(** [os.path.splitext(name)[0]] for the name of a directory entry: the name
    up to its last dot, unless only dots come before that dot. *)
Fixpoint after_first_dot (s : string) : option string :=
  match s with
  | EmptyString => None
  | String a s' => if Ascii.eqb a "." then Some s' else after_first_dot s'
  end.

Fixpoint only_dots (s : string) : bool :=
  match s with
  | EmptyString => true
  | String a s' => Ascii.eqb a "." && only_dots s'
  end.

Definition splitext_root (name : string) : string :=
  match after_first_dot (String.rev name) with
  | Some r => if only_dots r then name else String.rev r
  | None => name
  end.

(** Where the converted file goes:
[[
    name = os.path.splitext(os.path.basename(file))[0]
    csv_file = os.path.join(output_path, f"{name}.csv")
]] *)
Definition csv_file_of (output_path : string) (file : path) : path :=
  (output_path, splitext_root file.2 +:+ ".csv").

(** The body of the inner loop (converter.py, lines 24-28). *)
Definition convert_file (os : system) (output_path : string) (file : path)
  : script FS unit :=
  df ← read_excel file;
  to_csv os df (csv_file_of output_path file);;
  print os ("Converted: " +:+ path_str file).

(** The body of the outer loop (converter.py, lines 17-28). *)
Definition convert_folder (os : system) (folder : string) : script FS unit :=
  let input_path := join INPUT_ROOT folder in
  let output_path := join OUTPUT_ROOT folder in
  makedirs os output_path;;
  excel_files ← glob input_path ".xlsx";
  for_each excel_files (convert_file os output_path).

(** The whole script. *)
Definition converter (os : system) : script FS unit :=
  makedirs os OUTPUT_ROOT;;
  for_each folders (convert_folder os);;
  print os "✅ All Excel files converted to CSV".

(** The files written, among some events. *)
Definition writes_of (t : list event) : list string :=
  omap (λ e, match e with Write f => Some f | _ => None end) t.

(** A frame as pandas builds it: distinct, non-empty labels, and no value
    outside them. *)
Definition well_formed (df : DataFrame) : Prop :=
  NoDup (columns df) ∧ ("" ∉ columns df) ∧
  ∀ r c, r ∈ rows df → is_Some (r !! c) → c ∈ columns df.

(** ** Tables for the examples *)

(** The table of the specification's example: a = 1, 2, 3 and b = 4, 5, 6. *)
Definition table_ab : DataFrame :=
  mkFrame ["a"; "b"]
    [ mkrow [("a", VNum 1); ("b", VNum 4)];
      mkrow [("a", VNum 2); ("b", VNum 5)];
      mkrow [("a", VNum 3); ("b", VNum 6)] ].

(** The table of the specification's example for the name-matched sum. *)
Definition table_age : DataFrame :=
  mkFrame ["age_x"; "age_y"; "name"]
    [ mkrow [("age_x", VNum 1); ("age_y", VNum 2); ("name", VStr "p")];
      mkrow [("age_x", VNum 1); ("age_y", VNum 2); ("name", VStr "q")] ].

(** ** What the grouped count is to return *)

(** A row is chosen by the filter when a value was selected and the row
    holds that very value in the filter column; a row whose cell is missing
    there is never chosen. *)
Definition chosen (f : string) (selected : option value)
    (r : gmap string value) : Prop :=
  is_Some selected ∧ r !! f = selected.

#[global] Instance chosen_dec f selected r : Decision (chosen f selected r).
Proof. unfold chosen. apply _. Defined.

(** How many chosen rows of the table belong to the group of [key]. *)
Definition group_size (df : DataFrame) (g f : string)
    (selected : option value) (key : value) : nat :=
  length (filter (λ r, chosen f selected r ∧ r !! g = Some key) (rows df)).

(** The size recorded for a key in a tally; [0] if the key is not there. *)
Fixpoint size_of (key : value) (acc : list (value * nat)) : nat :=
  match acc with
  | [] => 0%nat
  | (k, n) :: rest => if decide (key = k) then n else size_of key rest
  end.

(** What the tally holds once the rows [seen] have gone through it:
    distinct keys, each with the positive number of rows seen for it. *)
Definition tallied (g : string) (seen : list (gmap string value))
    (acc : list (value * nat)) : Prop :=
  NoDup acc.*1 ∧
  Forall (λ e : value * nat, (0 < e.2)%nat) acc ∧
  ∀ key, size_of key acc
         = length (filter (λ r : gmap string value, r !! g = Some key) seen).

(** Biometric records of two states, one of them without a state. *)
Definition table_regions : DataFrame :=
  mkFrame ["state"; "district"]
    [ mkrow [("state", VStr "X"); ("district", VStr "B")];
      mkrow [("state", VStr "X"); ("district", VStr "A")];
      mkrow [("state", VStr "Y"); ("district", VStr "A")];
      mkrow [("district", VStr "A")];
      mkrow [("state", VStr "X"); ("district", VStr "B")] ].

(** ** What the loader is to return *)

(** The text of the warning for a file that did not parse. *)
Definition failed_to_load (f : path) (e : string) : string :=
  "Failed to load " +:+ path_str f +:+ ": " +:+ e.

(** Among the files found, the frames of those that parse, and the
    warnings for those that do not, both in the order of discovery. *)
Definition parsed (fs : FS) (files : list path) : list DataFrame :=
  omap (λ f, match read_csv_at fs f with
             | inr df => Some df
             | inl _ => None
             end) files.

Definition failures (fs : FS) (files : list path) : list string :=
  omap (λ f, match read_csv_at fs f with
             | inr _ => None
             | inl e => Some (failed_to_load f e)
             end) files.

(** The delimited file of a frame, and a file the reader gives up on. *)
Definition csv_of (df : DataFrame) : stored :=
  mkFile (inr (to_csv_text df)) (inl not_excel).

Definition broken_csv : stored :=
  mkFile (inl "Error tokenizing data. C error: EOF inside string starting at row 1")
         (inl not_excel).

(** A folder with two files that parse and one that does not. *)
Definition disk_enrolment : FS :=
  {[ "data/api_data_aadhar_enrolment" :=
       {[ "part1.csv" := csv_of table_ab;
          "part2.csv" := csv_of table_age;
          "part3.csv" := broken_csv ]} ]}.

(** What the loop does for one file: it reads it, and warns if that fails. *)
Definition events_of_read (fs : FS) (f : path) : list event :=
  Read (path_str f) ::
  match read_csv_at fs f with
  | inr _ => []
  | inl e => [Warning (failed_to_load f e)]
  end.

(** The frame the loader is to return: nothing, or the frames that parse,
    one after the other. *)
Definition loaded (fs : FS) (folder_path : string) : DataFrame :=
  match parsed fs (glob_match fs folder_path ".csv") with
  | [] => empty_frame
  | df :: dfs => pd_concat (df :: dfs)
  end.

(** A spreadsheet file, by the frame [read_excel] makes of its first sheet;
    [read_csv] cannot decode it. *)
Definition workbook (sheet : DataFrame) : stored :=
  mkFile (inl "'utf-8' codec can't decode byte 0x9d in position 15: invalid start byte")
         (inr sheet).

(** A spreadsheet whose first column holds a number in one row and a text
    in another: [read_excel] keeps both as they are. *)
Definition table_codes : DataFrame :=
  mkFrame ["code"; "age_0_5"]
    [ mkrow [("code", VNum 1); ("age_0_5", VNum 3)];
      mkrow [("code", VStr "x"); ("age_0_5", VNum 4)] ].

Definition disk_codes : FS :=
  {[ "api_data_aadhar_enrolment" := {[ "codes.xlsx" := workbook table_codes ]} ]}.

(** What comes back for it: the number has become a text. *)
Definition table_codes_read : DataFrame :=
  mkFrame ["code"; "age_0_5"]
    [ mkrow [("code", VStr "1"); ("age_0_5", VNum 3)];
      mkrow [("code", VStr "x"); ("age_0_5", VNum 4)] ].

(** A spreadsheet with a column of names and two of counts. *)
Definition table_districts : DataFrame :=
  mkFrame ["district"; "age_0_5"; "age_5_17"]
    [ mkrow [("district", VStr "Pune"); ("age_0_5", VNum 12); ("age_5_17", VNum (-3))];
      mkrow [("district", VStr "1"); ("age_0_5", VNum 0)];
      mkrow [("age_0_5", VNum 7); ("age_5_17", VNum 5)] ].

Definition disk_districts : FS :=
  {[ "api_data_aadhar_enrolment" := {[ "districts.xlsx" := workbook table_districts ]};
     "data_csv_converted/api_data_aadhar_enrolment" := ∅ ]}.

(** A spreadsheet of counts, one of them left blank. *)
Definition table_counts : DataFrame :=
  mkFrame ["age_0_5"; "age_5_17"]
    [ mkrow [("age_0_5", VNum 12); ("age_5_17", VNum (-3))];
      mkrow [("age_0_5", VNum 0)] ].

(** ** What the round trip keeps *)

(** A column of numbers: no text, and numbers of at most fifteen digits. *)
Definition numbers_column (df : DataFrame) (c : string) : Prop :=
  ∀ r, r ∈ rows df →
       match r !! c with
       | Some (VNum z) => Z.abs z < 10 ^ 15
       | Some (VStr _) => False
       | None => True
       end.

(** The words [read_csv] reads as truth values. *)
Definition bool_words : list string :=
  [ "True"; "TRUE"; "true"; "False"; "FALSE"; "false" ].

(** The characters of which the spellings of numbers are made: white
    space, signs, the dot, digits, the exponent mark, and the letters of
    "infinity" and "nan". *)
Definition numeric_char (a : ascii) : bool :=
  is_space a ||
  bool_decide (a ∈ list_ascii_of_string "+-.0123456789eEinftyaINFTYA").

(** A text that stays a text: it is no missing-value marker and no truth
    value, and one of its characters occurs in no spelling of a number. *)
Definition plain_text (s : string) : Prop :=
  (s ∉ na_values) ∧ (s ∉ bool_words) ∧
  existsb (λ a, negb (numeric_char a)) (list_ascii_of_string s) = true.

(** A text without control characters. *)
Definition no_control (s : string) : bool :=
  forallb (λ a, (32 <=? nat_of_ascii a)%nat && negb (nat_of_ascii a =? 127)%nat)
          (list_ascii_of_string s).

(** A column of texts: no number, no text that is a missing-value marker or
    holds a control character, and some text that stays a text, so that the
    reader does not take the column for numbers or truth values. *)
Definition text_column (df : DataFrame) (c : string) : Prop :=
  (∀ r, r ∈ rows df →
        match r !! c with
        | Some (VNum _) => False
        | Some (VStr s) => (s ∉ na_values) ∧ no_control s = true
        | None => True
        end) ∧
  ∃ r s, r ∈ rows df ∧ r !! c = Some (VStr s) ∧ plain_text s.

Definition preserved_column (df : DataFrame) (c : string) : Prop :=
  numbers_column df c ∨ text_column df c.

(** ** What the converter is to do *)

Definition input_path (folder : string) : string := join INPUT_ROOT folder.
Definition output_path (folder : string) : string := join OUTPUT_ROOT folder.

(** The spreadsheets found for a folder, and the files written for it: one
    per spreadsheet found. *)
Definition excel_files (fs : FS) (folder : string) : list path :=
  glob_match fs (input_path folder) ".xlsx".

Definition written_for (fs : FS) (folder : string) : list string :=
  (λ f, path_str (csv_file_of (output_path folder) f)) <$> excel_files fs folder.

(** The events of converting one spreadsheet, and of going through one
    folder. *)
Definition events_of_file (out : string) (f : path) : list event :=
  [ Read (path_str f);
    Write (path_str (csv_file_of out f));
    Print ("Converted: " +:+ path_str f) ].

Definition events_of_folder (fs : FS) (folder : string) : list event :=
  MakeDirs (output_path folder)
  :: Glob (join (input_path folder) "*.xlsx")
  :: (excel_files fs folder ≫= events_of_file (output_path folder)).

(** The directories the converter reads from. *)
Definition input_dirs : list string := input_path <$> folders.

(** Two states of the disk that hold the same in the input directories. *)
Definition same_inputs (fs fs' : FS) : Prop :=
  ∀ dir, dir ∈ input_dirs → fs' !! dir = fs !! dir.

(** Every spreadsheet found in the listed folders can be read. *)
Definition all_readable (fs : FS) : Prop :=
  ∀ folder f, folder ∈ folders → f ∈ excel_files fs folder →
              ∃ df, read_excel_at fs f = inr df.

(** The directories the converter makes and writes into (converter.py,
    lines 8 and 18-19). *)
Definition output_dirs : list string := OUTPUT_ROOT :: (output_path <$> folders).

Definition all_converted : string := "✅ All Excel files converted to CSV".

(** The calls of a run that comes to its end, in order. *)
Definition calls (fs : FS) : list event :=
  MakeDirs OUTPUT_ROOT :: (folders ≫= events_of_folder fs) ++ [Print all_converted].

(** A directory can be made: it exists, or no regular file stands in the
    way and the system does not refuse. *)
Definition makeable (os : system) (fs : FS) (dir : string) : Prop :=
  is_Some (fs !! dir) ∨
  (mkdir_error fs (parents dir ++ [dir]) = None ∧ os (MakeDirs dir) = None).

(** A file can be written: no directory stands where it goes and the
    system does not refuse. *)
Definition writable (os : system) (fs : FS) (csv_file : path) : Prop :=
  fs !! path_str csv_file = None ∧ os (Write (path_str csv_file)) = None.

(** A spreadsheet found can be written and reported. *)
Definition served (os : system) (fs : FS) : Prop :=
  ∀ folder f, folder ∈ folders → f ∈ excel_files fs folder →
              writable os fs (csv_file_of (output_path folder) f) ∧
              os (Print ("Converted: " +:+ path_str f)) = None.

(** Nothing but an unreadable spreadsheet can stop the run: the output
    directories can be made, every converted file can be written, and every
    line can be printed. *)
Definition unhindered (os : system) (fs : FS) : Prop :=
  (∀ dir, dir ∈ output_dirs → makeable os fs dir) ∧
  served os fs ∧
  os (Print all_converted) = None.

(** A state of the disk during a run that started on [fs], with the
    folders [pending] still to go through: nothing has changed outside the
    output directories, nor in those of the pending folders; the output
    root is as it was, or it has been made; and no directory has gone. *)
Definition grown (pending : list string) (fs s : FS) : Prop :=
  (∀ k, k ∉ output_dirs ∨ k ∈ output_path <$> pending → s !! k = fs !! k) ∧
  (s !! OUTPUT_ROOT = fs !! OUTPUT_ROOT ∨
   (fs !! OUTPUT_ROOT = None ∧ s !! OUTPUT_ROOT = Some ∅)) ∧
  (∀ k, is_Some (fs !! k) → is_Some (s !! k)).

(** A workbook that [read_excel] rejects. *)
Definition damaged : stored :=
  mkFile (inl "'utf-8' codec can't decode byte 0x9d in position 15: invalid start byte")
         (inl "File is not a zip file").

Definition disk_damaged : FS :=
  {[ "api_data_aadhar_enrolment" := {[ "bad.xlsx" := damaged ]} ]}.

(** A regular file named like the output root, in the directory the script
    runs in. *)
Definition disk_blocked_root : FS :=
  {[ "" := {[ "data_csv_converted" := damaged ]};
     "api_data_aadhar_enrolment" := {[ "counts.xlsx" := workbook table_counts ]} ]}.

(** A directory named like the file a spreadsheet is to be converted to. *)
Definition disk_blocked_file : FS :=
  {[ "api_data_aadhar_enrolment" := {[ "counts.xlsx" := workbook table_counts ]};
     "data_csv_converted/api_data_aadhar_enrolment/counts.csv" := ∅ ]}.

(** A system on which no directory can be made, and one whose console
    cannot show the last line. *)
Definition read_only : system :=
  λ e, match e with
       | MakeDirs dir => Some ("[Errno 13] Permission denied: '" +:+ dir +:+ "'")
       | _ => None
       end.

Definition narrow_console : system :=
  λ e, if bool_decide (e = Print all_converted)
       then Some "'charmap' codec can't encode character '\u2705' in position 0: character maps to <undefined>"
       else None.

(** One folder with a spreadsheet, one with a file whose extension is in
    capitals, one that does not exist. *)
Definition disk_mixed : FS :=
  {[ "api_data_aadhar_enrolment" := {[ "counts.xlsx" := workbook table_counts ]};
     "api_data_aadhar_demographic" := {[ "notes.XLSX" := workbook table_ab ]} ]}.

(** ** The select box of the regional view (app.py, lines 193-194) *)

(** [Series.dropna()]: the cells that are present. *)
Definition dropna (cells : list (option value)) : list value := omap id cells.

(** [Series.unique()]: the values, each at the place of its first
    appearance. *)
Definition unique (l : list value) : list value :=
  foldl (λ acc v, if decide (v ∈ acc) then acc else acc ++ [v]) [] l.

Definition value_le (a b : value) : Prop := Is_true (value_leb a b).

#[global] Instance value_le_dec : RelDecision value_le.
Proof. intros a b. unfold value_le. apply _. Defined.

Definition is_num (v : value) : bool :=
  match v with
  | VNum _ => true
  | VStr _ => false
  end.

(** [sorted(l)]: numbers are ordered among themselves and texts among
    themselves; Python does not compare a number with a text, so a list
    that holds both does not sort ([TypeError]). *)
Definition py_sorted (l : list value) : option (list value) :=
  if forallb is_num l || forallb (λ v, negb (is_num v)) l
  then Some (merge_sort value_le l)
  else None.

(** [states = sorted(bio_df["state"].dropna().unique())] *)
Definition states (bio_df : DataFrame) : option (list value) :=
  py_sorted (unique (dropna (series bio_df "state"))).

(** The whole "Regional Insights" view (app.py, lines 190-201): the guard,
    the states offered, the one the user picks in the select box (the
    [pick]-th of the list; [st.selectbox] returns [None] when the list is
    empty), and the district counts of that state. *)
Definition regional_insights (bio_df : DataFrame) (pick : nat)
  : outcome (list (value * nat)) :=
  if empty bio_df || negb (bool_decide ("state" ∈ columns bio_df))
                  || negb (bool_decide ("district" ∈ columns bio_df))
  then Signal MissingRequiredColumns
  else match states bio_df with
       | None => Raised
       | Some sts => district_summary bio_df (sts !! pick)
       end.

(** The rows of a table that hold some value in a column. *)
Definition with_value (c : string) (rs : list (gmap string value))
  : list (gmap string value) :=
  filter (λ r, is_Some (r !! c)) rs.

(** Two listings of the same table: the same labels, and the same rows in
    a possibly different order. *)
Definition same_rows (df df' : DataFrame) : Prop :=
  columns df = columns df' ∧ rows df ≡ₚ rows df'.

(** ** The folders of the two programs *)

(** The folders the dashboard loads at start-up (app.py, lines 60-62). *)
Definition dashboard_folders : list string :=
  [ "data/api_data_aadhar_enrolment";
    "data/api_data_aadhar_demographic";
    "data/api_data_aadhar_biometric" ].

(** A script that maintains a property of the disk, however it ends. *)
Definition maintains {A} (P : FS → Prop) (m : script FS A) : Prop :=
  ∀ fs, P fs → P (final (m fs)).

(** A script all of whose events have some property, however it ends. *)
Definition emits {S A} (Q : event → Prop) (m : script S A) : Prop :=
  ∀ s, Forall Q (trace (m s)).

(** ** The views on what the loader returns *)

(** The numbers of one column added up over the frames of several files. *)
Definition total_over (dfs : list DataFrame) (c : string) : Z :=
  foldr (λ df acc, numeric_total (series df c) + acc) 0 dfs.

Definition magnitude_over (dfs : list DataFrame) (c : string) : Z :=
  foldr (λ df acc, magnitude (series df c) + acc) 0 dfs.

(** * Properties *)

(** ** Sums that are exact *)

(** The powers of two of this development, written out for [lia]. *)
Ltac powers :=
  change (2 ^ 53) with 9007199254740992 in *;
  change (2 ^ 63) with 9223372036854775808 in *;
  change (2 ^ 64) with 18446744073709551616 in *.

Lemma round53_exact (z : Z) : Z.abs z ≤ 2 ^ 53 → round53 z = z.
Proof.
  intros Hz. destruct (decide (Z.abs z = 2 ^ 53)) as [Heq|Hne].
  - assert (z = 2 ^ 53 ∨ z = - 2 ^ 53) as [->| ->] by (powers; lia); reflexivity.
  - unfold round53.
    assert (Z.log2 (Z.abs z) - 52 ≤ 0) as He.
    { destruct (decide (Z.abs z = 0)) as [->|Hpos]; [done|].
      assert (Z.log2 (Z.abs z) < 53); [|lia].
      apply Z.log2_lt_pow2; powers; lia. }
    by rewrite (proj2 (Z.leb_le _ _) He).
Qed.

Lemma fadd_exact (x y : Z) : Z.abs (x + y) ≤ 2 ^ 53 → fadd x y = x + y.
Proof. apply round53_exact. Qed.

Lemma wrap64_exact (z : Z) : Z.abs z ≤ 2 ^ 53 → wrap64 z = z.
Proof. intros Hz. unfold wrap64. powers. rewrite Z.mod_small; lia. Qed.

Lemma zsum_cons (x : Z) (l : list Z) : zsum (x :: l) = x + zsum l.
Proof. reflexivity. Qed.

Lemma zmass_cons (x : Z) (l : list Z) : zmass (x :: l) = Z.abs x + zmass l.
Proof. reflexivity. Qed.

Lemma zsum_app (l l' : list Z) : zsum (l ++ l') = zsum l + zsum l'.
Proof. induction l as [|x l IH]; [done|]. rewrite <- app_comm_cons, !zsum_cons, IH. lia. Qed.

Lemma zmass_app (l l' : list Z) : zmass (l ++ l') = zmass l + zmass l'.
Proof. induction l as [|x l IH]; [done|]. rewrite <- app_comm_cons, !zmass_cons, IH. lia. Qed.

Lemma zmass_nonneg (l : list Z) : 0 ≤ zmass l.
Proof. induction l as [|x l IH]; [done|]. rewrite zmass_cons. lia. Qed.

Lemma zsum_le_zmass (l : list Z) : Z.abs (zsum l) ≤ zmass l.
Proof. induction l as [|x l IH]; [done|]. rewrite zsum_cons, zmass_cons. lia. Qed.

(** Adding cells one by one. *)
Lemma fsum_seq_exact (l : list Z) (start : Z) :
  Z.abs start + zmass l ≤ 2 ^ 53 → fsum_seq start l = start + zsum l.
Proof.
  revert start. induction l as [|x l IH]; intros start Hb.
  - unfold fsum_seq, zsum. simpl. lia.
  - rewrite zmass_cons in Hb. rewrite zsum_cons.
    pose proof (zmass_nonneg l).
    change (fsum_seq start (x :: l)) with (fsum_seq (fadd start x) l).
    rewrite fadd_exact by lia. rewrite IH by lia. lia.
Qed.

(** The eight running sums. *)
Lemma zip_with_fadd_exact (r x : list Z) :
  length r = length x → zmass r + zmass x ≤ 2 ^ 53 →
  zip_with fadd r x = zip_with Z.add r x.
Proof.
  revert x. induction r as [|a r IH]; intros [|b x] Hlen Hb; try done.
  rewrite !zmass_cons in Hb. pose proof (zmass_nonneg r). pose proof (zmass_nonneg x).
  simpl. rewrite fadd_exact by lia. f_equal. apply IH; [by injection Hlen|lia].
Qed.

Lemma zip_with_add_sum (r x : list Z) :
  length r = length x →
  zsum (zip_with Z.add r x) = zsum r + zsum x ∧
  zmass (zip_with Z.add r x) ≤ zmass r + zmass x.
Proof.
  revert x. induction r as [|a r IH]; intros [|b x] Hlen; try done.
  destruct (IH x) as [Hs Hm]; [by injection Hlen|].
  simpl zip_with. rewrite !zsum_cons, !zmass_cons, Hs. lia.
Qed.

Lemma lanes_exact (groups : nat) (r l : list Z) :
  length r = 8%nat → (8 * groups ≤ length l)%nat →
  zmass r + zmass l ≤ 2 ^ 53 →
  ∃ r' rest, lanes groups r l = (r', rest) ∧ length r' = 8%nat ∧
             zsum r' + zsum rest = zsum r + zsum l ∧
             zmass r' + zmass rest ≤ zmass r + zmass l.
Proof.
  revert r l. induction groups as [|n IH]; intros r l Hr Hl Hb.
  - exists r, l. by repeat split.
  - simpl lanes.
    assert (length (take 8 l) = 8%nat) as Htake by (rewrite length_take; lia).
    pose proof (take_drop 8 l) as Hsplit.
    assert (zsum l = zsum (take 8 l) + zsum (drop 8 l)) as Hs
      by (by rewrite <- zsum_app, Hsplit).
    assert (zmass l = zmass (take 8 l) + zmass (drop 8 l)) as Hm
      by (by rewrite <- zmass_app, Hsplit).
    pose proof (zmass_nonneg (drop 8 l)).
    rewrite zip_with_fadd_exact by (rewrite ?Htake; lia).
    destruct (zip_with_add_sum r (take 8 l)) as [Hzs Hzm]; [by rewrite Htake|].
    destruct (IH (zip_with Z.add r (take 8 l)) (drop 8 l))
      as (r' & rest & Hlanes & Hlen & Hsum & Hmass).
    + rewrite length_zip_with. rewrite Htake. lia.
    + rewrite length_drop. lia.
    + lia.
    + exists r', rest. repeat split; [done|done|lia|lia].
Qed.

Lemma fsum_block_exact (l : list Z) :
  (8 ≤ length l)%nat → zmass l ≤ 2 ^ 53 → fsum_block l = zsum l.
Proof.
  intros Hlen Hb. unfold fsum_block.
  assert (length (take 8 l) = 8%nat) as Htake by (rewrite length_take; lia).
  pose proof (take_drop 8 l) as Hsplit.
  assert (zsum l = zsum (take 8 l) + zsum (drop 8 l)) as Hs
    by (by rewrite <- zsum_app, Hsplit).
  assert (zmass l = zmass (take 8 l) + zmass (drop 8 l)) as Hm
    by (by rewrite <- zmass_app, Hsplit).
  destruct (lanes_exact (length l / 8 - 1) (take 8 l) (drop 8 l))
    as (r & rest & -> & Hr & Hsum & Hmass); [done| |lia|].
  { rewrite length_drop.
    pose proof (Nat.Div0.mul_div_le (length l) 8). lia. }
  destruct r as [|r0 [|r1 [|r2 [|r3 [|r4 [|r5 [|r6 [|r7 [|]]]]]]]]]; try done.
  rewrite !zsum_cons, !zmass_cons in *. change (zsum []) with 0 in *.
  change (zmass []) with 0 in *. pose proof (zmass_nonneg rest).
  rewrite (fadd_exact r0 r1), (fadd_exact r2 r3), (fadd_exact r4 r5),
    (fadd_exact r6 r7) by lia.
  rewrite (fadd_exact (r0 + r1)), (fadd_exact (r4 + r5)) by lia.
  rewrite fadd_exact by lia. rewrite fsum_seq_exact by lia. lia.
Qed.

Lemma fsum_pairwise_O (l : list Z) :
  fsum_pairwise 0 l
  = if (length l <? 8)%nat then fsum_seq 0 l else fsum_block l.
Proof. simpl. by destruct (length l <? 8)%nat, (length l <=? 128)%nat. Qed.

Lemma fsum_pairwise_S (fuel : nat) (l : list Z) :
  fsum_pairwise (S fuel) l
  = if (length l <? 8)%nat then fsum_seq 0 l
    else if (length l <=? 128)%nat then fsum_block l
    else let n2 := (length l / 2 - (length l / 2) mod 8)%nat in
         fadd (fsum_pairwise fuel (take n2 l)) (fsum_pairwise fuel (drop n2 l)).
Proof. reflexivity. Qed.

Lemma fsum_pairwise_exact (fuel : nat) (l : list Z) :
  zmass l ≤ 2 ^ 53 → fsum_pairwise fuel l = zsum l.
Proof.
  revert l. induction fuel as [|fuel IH]; intros l Hb.
  - rewrite fsum_pairwise_O. destruct (Nat.ltb_spec (length l) 8).
    + rewrite fsum_seq_exact; simpl; lia.
    + by apply fsum_block_exact.
  - rewrite fsum_pairwise_S. destruct (Nat.ltb_spec (length l) 8).
    + rewrite fsum_seq_exact; simpl; lia.
    + destruct (length l <=? 128)%nat; [by apply fsum_block_exact|].
      cbv zeta. set (n2 := (length l / 2 - (length l / 2) mod 8)%nat).
      pose proof (take_drop n2 l) as Hsplit.
      assert (zsum l = zsum (take n2 l) + zsum (drop n2 l)) as Hs
        by (by rewrite <- zsum_app, Hsplit).
      assert (zmass l = zmass (take n2 l) + zmass (drop n2 l)) as Hm
        by (by rewrite <- zmass_app, Hsplit).
      pose proof (zmass_nonneg (take n2 l)). pose proof (zmass_nonneg (drop n2 l)).
      pose proof (zsum_le_zmass (take n2 l)). pose proof (zsum_le_zmass (drop n2 l)).
      rewrite (IH (take n2 l)), (IH (drop n2 l)) by lia.
      rewrite fadd_exact by lia. lia.
Qed.

Lemma np_sum_exact (l : list Z) : zmass l ≤ 2 ^ 53 → np_sum l = zsum l.
Proof.
  intros Hb. unfold np_sum. rewrite fsum_pairwise_exact by done.
  pose proof (zsum_le_zmass l). rewrite fadd_exact; lia.
Qed.

(** ** Fixed-column sums *)

Lemma empty_no_rows df : rows df = [] → empty df = true.
Proof. unfold empty. intros ->. by destruct (columns df). Qed.

Lemma empty_false df : columns df ≠ [] → rows df ≠ [] → empty df = false.
Proof. unfold empty. by destruct (columns df), (rows df). Qed.

Lemma all_columns_present df cols :
  forallb (λ c, bool_decide (c ∈ columns df)) cols = true ↔
  ∀ c, c ∈ cols → c ∈ columns df.
Proof.
  rewrite forallb_forall. split; intros H c Hc.
  - apply list_elem_of_In in Hc. specialize (H c Hc).
    by apply bool_decide_eq_true in H.
  - apply bool_decide_eq_true, H. by apply list_elem_of_In.
Qed.

Lemma no_text_cells (cells : list (option value)) :
  (∀ s, Some (VStr s) ∉ cells) → existsb holds_text cells = false.
Proof.
  intros Hnum. apply not_true_is_false. intros H.
  apply existsb_exists in H as ([[z|s]|] & Hin & Hcell); try done.
  apply (Hnum s). by apply list_elem_of_In.
Qed.

Lemma zsum_number_in (cells : list (option value)) :
  (∀ s, Some (VStr s) ∉ cells) →
  zsum (number_in <$> cells) = numeric_total cells.
Proof.
  induction cells as [|cell cells IH]; intros Hnum; [done|].
  rewrite fmap_cons, zsum_cons, IH.
  - by destruct cell as [[z|s]|].
  - intros s Hs. apply (Hnum s). by right.
Qed.

Lemma zmass_number_in (cells : list (option value)) :
  zmass (number_in <$> cells) = magnitude cells.
Proof.
  induction cells as [|cell cells IH]; [done|].
  rewrite fmap_cons, zmass_cons, IH. by destruct cell as [[z|s]|].
Qed.

Lemma magnitude_nonneg (cells : list (option value)) : 0 ≤ magnitude cells.
Proof. rewrite <- zmass_number_in. apply zmass_nonneg. Qed.

Lemma round53_number_in (cells : list (option value)) :
  magnitude cells ≤ 2 ^ 53 →
  (λ cell, round53 (number_in cell)) <$> cells = number_in <$> cells.
Proof.
  induction cells as [|cell cells IH]; intros Hb; [done|].
  pose proof (magnitude_nonneg cells).
  assert (magnitude (cell :: cells)
          = Z.abs (number_in cell) + magnitude cells) as Hm
    by (by destruct cell as [[z|s]|]).
  rewrite !fmap_cons, round53_exact, IH by lia. done.
Qed.

(** A column of numbers whose absolute values stay within 2^53 adds up to
    the sum of its numbers, whether pandas keeps it as integers or as
    floating-point numbers. *)
Lemma nansum_numeric (cells : list (option value)) :
  (∀ s, Some (VStr s) ∉ cells) → magnitude cells ≤ 2 ^ 53 →
  nansum cells = Some (VNum (numeric_total cells)).
Proof.
  intros Hnum Hb. unfold nansum. rewrite no_text_cells by done.
  pose proof (zsum_le_zmass (number_in <$> cells)) as Hle.
  rewrite zmass_number_in in Hle.
  destruct (forallb _ cells).
  - rewrite wrap64_exact by lia. by rewrite zsum_number_in.
  - rewrite round53_number_in by done.
    rewrite np_sum_exact by (by rewrite zmass_number_in).
    by rewrite zsum_number_in.
Qed.

Lemma series_numeric df c :
  numeric_column df c → ∀ s, Some (VStr s) ∉ series df c.
Proof.
  intros Hnum s Hin. unfold series in Hin.
  apply list_elem_of_fmap in Hin as (r & Hr & Hin).
  by apply (Hnum r s).
Qed.

Lemma sum_frame_numeric df cols :
  (∀ c, c ∈ cols → numeric_column df c) →
  (∀ c, c ∈ cols → exact_column df c) →
  sum_frame df cols
  = Some (map (λ c, (c, VNum (numeric_total (series df c)))) cols).
Proof.
  intros Hnum Hfit. unfold sum_frame. apply mapM_Some.
  induction cols as [|c cols IH]; simpl; constructor.
  - rewrite nansum_numeric; [done| |].
    + apply series_numeric, Hnum. by left.
    + apply Hfit. by left.
  - apply IH; intros c' Hc'; [apply Hnum|apply Hfit]; by right.
Qed.

Lemma exact_column_check (df : DataFrame) (c : string) :
  (magnitude (series df c) <=? 2 ^ 53) = true → exact_column df c.
Proof. apply Z.leb_le. Qed.

Lemma numeric_column_check (df : DataFrame) (c : string) :
  forallb (λ r, match r !! c with Some (VStr _) => false | _ => true end) (rows df)
  = true →
  numeric_column df c.
Proof.
  intros H r s Hr Hc. rewrite forallb_forall in H.
  apply list_elem_of_In, H in Hr. by rewrite Hc in Hr.
Qed.

(** The summary, when there is one, has one entry per requested label, in
    the order of the request. *)
Lemma sum_frame_labels df cols r : sum_frame df cols = Some r → r.*1 = cols.
Proof.
  unfold sum_frame. intros H. apply mapM_Some in H.
  induction H as [|c [c' v] cols r Hc HF IH]; [done|]. simpl.
  destruct (nansum (series df c)); simplify_eq/=. done.
Qed.

(** C1, as the specification has it, fails on the enrolment view: with the
    three age columns present and no row, the view reports the columns as
    missing instead of showing three zero totals. *)
Lemma sumColumns_zero_rows_not_zero_totals :
  let df := mkFrame age_cols [] in
  rows df = [] ∧ (∀ c, c ∈ age_cols → c ∈ columns df) ∧
  age_summary df = Signal MissingRequiredColumns ∧
  age_summary df ≠ Summary (map (λ c, (c, VNum 0)) age_cols).
Proof. by repeat split. Qed.

(** C1 (amended): a table without rows makes [sumColumns] signal the
    missing-required-columns condition, whatever columns are requested and
    whether or not the table has them; no total is returned. *)
Theorem sumColumns_zero_rows df cols :
  rows df = [] →
  sumColumns df cols = Signal MissingRequiredColumns.
Proof. intros Hrows. unfold sumColumns. by rewrite empty_no_rows. Qed.

Lemma sumColumns_zero_rows_witness :
  rows (mkFrame demo_cols []) = [] ∧
  demo_summary (mkFrame demo_cols []) = Signal MissingRequiredColumns.
Proof.
  split; [reflexivity|].
  apply (sumColumns_zero_rows (mkFrame demo_cols []) demo_cols). reflexivity.
Defined.

(** C2: when a requested column is not a column of the table, [sumColumns]
    signals the missing-required-columns condition, and so returns no
    summary at all, not even for the requested columns that are there. *)
Theorem sumColumns_missing_column df cols c :
  c ∈ cols → c ∉ columns df →
  sumColumns df cols = Signal MissingRequiredColumns ∧
  ∀ r, sumColumns df cols ≠ Summary r.
Proof.
  intros Hc Hmissing.
  assert (sumColumns df cols = Signal MissingRequiredColumns) as ->; [|done].
  unfold sumColumns.
  destruct (forallb _ cols) eqn:Hall.
  - exfalso. apply Hmissing. by eapply all_columns_present.
  - by rewrite orb_true_r.
Qed.

Lemma sumColumns_missing_column_witness :
  let df := mkFrame ["a"] [mkrow [("a", VNum 1)]; mkrow [("a", VNum 2)]] in
  "b" ∈ ["a"; "b"] ∧ ("b" ∉ columns df) ∧
  sumColumns df ["a"; "b"] = Signal MissingRequiredColumns ∧
  ∀ r, sumColumns df ["a"; "b"] ≠ Summary r.
Proof.
  intros df.
  assert ("b" ∈ ["a"; "b"]) as Hin by (right; left).
  assert ("b" ∉ columns df) as Hout.
  { intros H. apply list_elem_of_In in H. simpl in H.
    destruct H as [H|[]]. discriminate H. }
  split; [exact Hin|]. split; [exact Hout|].
  exact (sumColumns_missing_column df ["a"; "b"] "b" Hin Hout).
Defined.

(** C3, as the specification has it, fails on a table that has the
    requested columns and no row: no entry is returned at all. *)
Lemma sumColumns_present_columns_no_summary :
  let df := mkFrame ["a"; "b"] [] in
  (∀ c, c ∈ ["a"; "b"] → c ∈ columns df) ∧
  sumColumns df ["a"; "b"] = Signal MissingRequiredColumns ∧
  sumColumns df ["a"; "b"]
  ≠ Summary (map (λ c, (c, VNum (numeric_total (series df c)))) ["a"; "b"]).
Proof. by repeat split. Qed.

(** Text is not skipped by the sum either: a column of texts adds up to
    their concatenation, and a text next to a number or to a missing cell
    stops the summation. *)
Example sumColumns_text_column :
  sumColumns (mkFrame ["a"] [mkrow [("a", VStr "x")]; mkrow [("a", VStr "y")]]) ["a"]
  = Summary [("a", VStr "xy")].
Proof. reflexivity. Qed.

Example sumColumns_mixed_column :
  sumColumns (mkFrame ["a"] [mkrow [("a", VNum 1)]; mkrow [("a", VStr "y")]]) ["a"]
  = Raised.
Proof. reflexivity. Qed.

(** Nor is the total the sum of the numbers when these are large: a column
    of 64-bit integers wraps around, and a column with a missing cell, which
    pandas keeps as floating-point numbers, rounds. *)
Example sumColumns_wraps :
  sumColumns (mkFrame ["a"] [mkrow [("a", VNum (2 ^ 63 - 1))]; mkrow [("a", VNum 1)]])
             ["a"]
  = Summary [("a", VNum (- 2 ^ 63))].
Proof. vm_compute. reflexivity. Qed.

Example sumColumns_rounds :
  sumColumns (mkFrame ["a"] [mkrow [("a", VNum (2 ^ 53))]; mkrow [("a", VNum 1)]; mkrow []])
             ["a"]
  = Summary [("a", VNum (2 ^ 53))].
Proof. vm_compute. reflexivity. Qed.

(** C3 (amended): on a table that is not empty (it has a row and a column)
    and has all the requested columns, none of them holding a text, and the
    absolute values of the numbers of each of them adding up to 2^53 at
    most, [sumColumns] returns exactly one entry per requested name, in the
    order of the request, and each total is the sum of the numbers of the
    column, a missing value counting for nothing. *)
Theorem sumColumns_totals df cols :
  empty df = false →
  (∀ c, c ∈ cols → c ∈ columns df) →
  (∀ c, c ∈ cols → numeric_column df c) →
  (∀ c, c ∈ cols → exact_column df c) →
  sumColumns df cols
  = Summary (map (λ c, (c, VNum (numeric_total (series df c)))) cols).
Proof.
  intros Hne Hcols Hnum Hfit. unfold sumColumns. rewrite Hne.
  apply all_columns_present in Hcols. rewrite Hcols. simpl.
  by rewrite sum_frame_numeric.
Qed.

(** The example of the specification: a = 1, 2, 3 and b = 4, 5, 6 give the
    totals 6 and 15. *)
Lemma sumColumns_totals_witness :
  empty table_ab = false ∧
  (∀ c, c ∈ ["a"; "b"] → c ∈ columns table_ab) ∧
  (∀ c, c ∈ ["a"; "b"] → numeric_column table_ab c) ∧
  (∀ c, c ∈ ["a"; "b"] → exact_column table_ab c) ∧
  sumColumns table_ab ["a"; "b"] = Summary [("a", VNum 6); ("b", VNum 15)].
Proof.
  assert (∀ c, c ∈ ["a"; "b"] → c ∈ columns table_ab) as Hcols by done.
  assert (∀ c, c ∈ ["a"; "b"] → numeric_column table_ab c) as Hnum.
  { intros c Hc. apply numeric_column_check.
    apply list_elem_of_In in Hc. simpl in Hc.
    destruct Hc as [<-|[<-|[]]]; vm_compute; reflexivity. }
  assert (∀ c, c ∈ ["a"; "b"] → exact_column table_ab c) as Hfit.
  { intros c Hc. apply exact_column_check.
    apply list_elem_of_In in Hc. simpl in Hc.
    destruct Hc as [<-|[<-|[]]]; vm_compute; reflexivity. }
  split; [reflexivity|]. split; [exact Hcols|]. split; [exact Hnum|].
  split; [exact Hfit|].
  exact (sumColumns_totals table_ab ["a"; "b"] eq_refl Hcols Hnum Hfit).
Defined.

(** ** Sums over the columns matched by name *)

Lemma append_cons (a : ascii) (s t : string) :
  String a s +:+ t = String a (s +:+ t).
Proof. reflexivity. Qed.

Lemma append_nil (t : string) : "" +:+ t = t.
Proof. reflexivity. Qed.

Lemma prefix_app (p s : string) :
  String.prefix p s = true ↔ ∃ t, s = p +:+ t.
Proof.
  revert s. induction p as [|a p IH]; intros s.
  - split; [intros _; by exists s|intros _; by destruct s].
  - destruct s as [|b s]; simpl.
    + split; [done|]. intros [t Ht]. by rewrite append_cons in Ht.
    + destruct (Ascii.ascii_dec a b) as [->|Hne].
      * rewrite IH. split; intros [t Ht]; exists t;
          rewrite append_cons in *; congruence.
      * split; [done|]. intros [t Ht]. rewrite append_cons in Ht. congruence.
Qed.

Lemma contains_nil (p : string) : contains p "" = String.prefix p "".
Proof. unfold contains. apply orb_false_r. Qed.

Lemma contains_cons (p : string) (a : ascii) (s : string) :
  contains p (String a s) = String.prefix p (String a s) || contains p s.
Proof. reflexivity. Qed.

Lemma contains_app (p s : string) :
  contains p s = true ↔ ∃ before after, s = before +:+ p +:+ after.
Proof.
  induction s as [|a s IH].
  - rewrite contains_nil, prefix_app. split.
    + intros [t Ht]. by exists "", t.
    + intros (before & after & H). destruct before; [by exists after|].
      by rewrite append_cons in H.
  - rewrite contains_cons, orb_true_iff, prefix_app, IH. split.
    + intros [[t Ht]|(before & after & Ht)].
      * by exists "", t.
      * exists (String a before), after. by rewrite append_cons, Ht.
    + intros (before & after & Ht). destruct before as [|b before].
      * left. by exists after.
      * right. exists before, after. rewrite append_cons in Ht. congruence.
Qed.

Lemma lower_app (s u : string) : lower (s +:+ u) = lower s +:+ lower u.
Proof.
  induction s as [|a s IH]; [done|].
  rewrite append_cons. simpl. by rewrite IH, append_cons.
Qed.

Lemma lower_app_inv (s x y : string) :
  lower s = x +:+ y → ∃ a b, s = a +:+ b ∧ lower a = x ∧ lower b = y.
Proof.
  revert s. induction x as [|c x IH]; intros s H.
  - by exists "", s.
  - rewrite append_cons in H.
    destruct s as [|d s]; [done|]. simpl in H. injection H as Hc Hs.
    destruct (IH s Hs) as (a & b & -> & Ha & Hb).
    exists (String d a), b. rewrite append_cons. simpl. by rewrite Hc, Ha.
Qed.

Lemma all_ascii_spec (a : ascii) : a ∈ all_ascii.
Proof.
  unfold all_ascii. apply list_elem_of_fmap. exists (nat_of_ascii a). split.
  - by rewrite ascii_nat_embedding.
  - apply elem_of_seq. pose proof (nat_ascii_bounded a). lia.
Qed.

(** Two characters become the same when lowered exactly when they are the
    same letter but for the case: checked on every pair of characters. *)
Lemma lower_ascii_same_letter (a b : ascii) :
  lower_ascii a = lower_ascii b ↔ same_letter a b = true.
Proof.
  assert (forallb (λ x, forallb (λ y,
            Bool.eqb (bool_decide (lower_ascii x = lower_ascii y)) (same_letter x y))
            all_ascii) all_ascii = true) as Hall by (vm_compute; reflexivity).
  rewrite forallb_forall in Hall.
  specialize (Hall a (proj1 (list_elem_of_In _ _) (all_ascii_spec a))).
  rewrite forallb_forall in Hall.
  specialize (Hall b (proj1 (list_elem_of_In _ _) (all_ascii_spec b))).
  apply Bool.eqb_prop in Hall. rewrite <- Hall. apply symmetry, bool_decide_eq_true.
Qed.

Lemma lower_same_text (s u : string) :
  lower s = lower u ↔ same_text s u = true.
Proof.
  revert u. induction s as [|a s IH]; intros [|b u]; simpl; try done.
  rewrite andb_true_iff, <- lower_ascii_same_letter, <- IH. split.
  - by intros [= -> ->].
  - by intros [-> ->].
Qed.

(** The test of the program, [needle in c.lower()], is the case-insensitive
    match of the specification whenever the text looked for is itself in
    lower case, as ["age"] is. *)
Lemma contains_lower_ignoring_case (needle c : string) :
  lower needle = needle →
  contains needle (lower c) = true ↔ occurs_ignoring_case needle c.
Proof.
  intros Hlow. rewrite contains_app. unfold occurs_ignoring_case. split.
  - intros (x & y & H).
    apply lower_app_inv in H as (before & rest & -> & _ & H).
    apply lower_app_inv in H as (hit & after & -> & Hhit & _).
    exists before, hit, after. split; [done|].
    apply lower_same_text. by rewrite Hlow.
  - intros (before & hit & after & -> & Hhit%lower_same_text).
    exists (lower before), (lower after).
    by rewrite !lower_app, Hhit, Hlow.
Qed.

Lemma sumMatchingColumns_none df needle :
  matching_cols df needle = [] →
  sumMatchingColumns df needle = Signal NoMatchingColumns.
Proof.
  intros H. unfold sumMatchingColumns. rewrite H.
  by rewrite orb_true_r.
Qed.

Lemma sumMatchingColumns_labels df needle r :
  sumMatchingColumns df needle = Summary r → r.*1 = matching_cols df needle.
Proof.
  unfold sumMatchingColumns.
  destruct (empty df || _); [done|].
  destruct (sum_frame _ _) eqn:Hsum; [|done].
  intros [= <-]. by eapply sum_frame_labels.
Qed.

(** A match in capitals or in mixed case is a match; "age" inside another
    word is one too; letters apart are none. *)
Example bio_age_cols_cases :
  bio_age_cols table_cases = ["AGE_x"; "bio_Age_17"; "Stage"].
Proof. reflexivity. Qed.

(** C7: the biometric view selects exactly the columns of the table whose
    name contains "age" in any letter case, in the order the table has
    them; it signals the no-matching-columns condition when there is none;
    a summary it returns has one entry per selected column; and on the
    columns age_x = 1, 1, age_y = 2, 2 and name it returns the totals 2 and
    4 of the two age columns, without "name". *)
Theorem sumMatchingColumns_selection df :
  (∀ c, c ∈ bio_age_cols df ↔ c ∈ columns df ∧ occurs_ignoring_case "age" c) ∧
  sublist (bio_age_cols df) (columns df) ∧
  (bio_age_cols df = [] → bio_summary df = Signal NoMatchingColumns) ∧
  (∀ r, bio_summary df = Summary r → r.*1 = bio_age_cols df) ∧
  bio_summary table_age = Summary [("age_x", VNum 2); ("age_y", VNum 4)].
Proof.
  split; [|split; [|split; [|split]]].
  - intros c. unfold bio_age_cols, matching_cols.
    rewrite list_elem_of_filter, Is_true_true.
    rewrite contains_lower_ignoring_case by reflexivity. tauto.
  - apply sublist_filter.
  - apply sumMatchingColumns_none.
  - apply sumMatchingColumns_labels.
  - reflexivity.
Qed.

(** A column named in mixed case is selected, one named in capitals as
    well, and a table without any "age" makes the view signal. *)
Lemma sumMatchingColumns_selection_witness :
  let none := mkFrame ["name"; "state"] [mkrow [("name", VStr "p")]] in
  ("bio_Age_17" ∈ columns table_cases ∧ occurs_ignoring_case "age" "bio_Age_17") ∧
  "bio_Age_17" ∈ bio_age_cols table_cases ∧
  ("AGE_x" ∈ columns table_cases ∧ occurs_ignoring_case "age" "AGE_x") ∧
  "AGE_x" ∈ bio_age_cols table_cases ∧
  bio_age_cols none = [] ∧
  bio_summary none = Signal NoMatchingColumns.
Proof.
  intros none.
  assert ("bio_Age_17" ∈ columns table_cases ∧ occurs_ignoring_case "age" "bio_Age_17")
    as H1.
  { split; [right; right; left|]. by exists "bio_", "Age", "_17". }
  assert ("AGE_x" ∈ columns table_cases ∧ occurs_ignoring_case "age" "AGE_x") as H2.
  { split; [left|]. by exists "", "AGE", "_x". }
  split; [exact H1|]. split.
  { exact (proj2 (proj1 (sumMatchingColumns_selection table_cases) "bio_Age_17") H1). }
  split; [exact H2|]. split.
  { exact (proj2 (proj1 (sumMatchingColumns_selection table_cases) "AGE_x") H2). }
  split; [reflexivity|].
  exact (proj1 (proj2 (proj2 (sumMatchingColumns_selection none))) eq_refl).
Defined.

(** ** Grouped counts *)

Lemma matches_chosen f selected r :
  Is_true (matches f selected r) ↔ chosen f selected r.
Proof.
  unfold matches, chosen.
  destruct (r !! f) as [x|], selected as [v|]; simpl.
  - rewrite bool_decide_spec. split.
    + intros ->. split; [by eexists|done].
    + by intros [_ [= ->]].
  - split; [done|]. by intros [[? [=]] _].
  - split; [done|]. by intros [_ [=]].
  - split; [done|]. by intros [[? [=]] _].
Qed.

Lemma select_rows_chosen f selected rs r :
  r ∈ select_rows f selected rs ↔ r ∈ rs ∧ chosen f selected r.
Proof.
  unfold select_rows. rewrite list_elem_of_filter, matches_chosen. tauto.
Qed.

(** *** The tally *)

Lemma size_of_tally key k acc :
  size_of key (tally k acc)
  = if decide (key = k) then S (size_of key acc) else size_of key acc.
Proof.
  induction acc as [|[k' n] acc IH]; simpl.
  - by destruct (decide (key = k)).
  - destruct (decide (k = k')) as [->|Hk]; simpl.
    + by destruct (decide (key = k')).
    + destruct (decide (key = k')) as [->|Hkey].
      * by rewrite decide_False by done.
      * apply IH.
Qed.

Lemma tally_keys_in k acc : k ∈ acc.*1 → (tally k acc).*1 = acc.*1.
Proof.
  induction acc as [|[k' n] acc IH]; simpl; intros Hin.
  - by apply elem_of_nil in Hin.
  - destruct (decide (k = k')) as [->|Hk]; simpl; [done|].
    apply elem_of_cons in Hin as [?|Hin]; [done|]. f_equal. by apply IH.
Qed.

Lemma tally_keys_out k acc : k ∉ acc.*1 → (tally k acc).*1 = acc.*1 ++ [k].
Proof.
  induction acc as [|[k' n] acc IH]; simpl; intros Hout; [done|].
  destruct (decide (k = k')) as [->|Hk]; simpl.
  - exfalso. apply Hout. by left.
  - f_equal. apply IH. intros Hin. apply Hout. by right.
Qed.

Lemma tally_NoDup k acc : NoDup acc.*1 → NoDup (tally k acc).*1.
Proof.
  intros Hnd. destruct (decide (k ∈ acc.*1)) as [Hin|Hout].
  - by rewrite tally_keys_in.
  - rewrite tally_keys_out by done.
    apply NoDup_app. split; [done|]. split.
    + intros x Hx ->%list_elem_of_singleton. done.
    + apply NoDup_singleton.
Qed.

Lemma tally_positive k acc :
  Forall (λ e : value * nat, (0 < e.2)%nat) acc →
  Forall (λ e : value * nat, (0 < e.2)%nat) (tally k acc).
Proof.
  induction 1 as [|[k' n] acc Hn Hacc IH]; simpl.
  - constructor; [simpl; lia|constructor].
  - destruct (decide (k = k')); constructor; simpl in *; try done. lia.
Qed.

(** In a tally with distinct keys and positive sizes, the entries are the
    keys of positive size, each with its size. *)
Lemma elem_of_tally_list key n (acc : list (value * nat)) :
  NoDup acc.*1 →
  Forall (λ e : value * nat, (0 < e.2)%nat) acc →
  (key, n) ∈ acc ↔ (0 < n)%nat ∧ n = size_of key acc.
Proof.
  induction acc as [|[k m] acc IH]; simpl; intros Hnd Hpos.
  - split; [by intros ?%elem_of_nil|]. intros [? ->]. lia.
  - apply NoDup_cons in Hnd as [Hk Hnd].
    apply Forall_cons in Hpos as [Hm Hpos]. simpl in Hm.
    rewrite elem_of_cons. destruct (decide (key = k)) as [->|Hne]; split.
    + intros [[= ->]|Hin]; [done|].
      exfalso. apply Hk. apply list_elem_of_fmap. by exists (k, n).
    + intros [_ ->]. by left.
    + intros [[= -> ->]|Hin]; [done|]. by apply IH.
    + intros H. right. by apply IH.
Qed.

Lemma tallied_step g seen acc r :
  tallied g seen acc → tallied g (seen ++ [r]) (tally_row g acc r).
Proof.
  intros (Hnd & Hpos & Hsize). unfold tally_row, tallied.
  destruct (r !! g) as [k|] eqn:Hr.
  - split; [by apply tally_NoDup|]. split; [by apply tally_positive|].
    intros key. rewrite size_of_tally, filter_app, length_app, Hsize.
    rewrite filter_cons, filter_nil.
    destruct (decide (key = k)) as [->|Hne].
    + rewrite decide_True by done. simpl. lia.
    + rewrite decide_False by congruence. simpl. lia.
  - split; [done|]. split; [done|].
    intros key. rewrite filter_app, length_app, Hsize.
    rewrite filter_cons, filter_nil.
    rewrite decide_False by congruence. simpl. lia.
Qed.

Lemma tallied_foldl g rs seen acc :
  tallied g seen acc → tallied g (seen ++ rs) (foldl (tally_row g) acc rs).
Proof.
  revert seen acc. induction rs as [|r rs IH]; intros seen acc H; simpl.
  - by rewrite app_nil_r.
  - rewrite (cons_middle r seen rs), app_assoc.
    apply IH. by apply tallied_step.
Qed.

(** The grouped count lists every key that occurs, once, with the number
    of rows that hold it. *)
Lemma groupby_size_spec (g : string) (rs : list (gmap string value)) :
  NoDup (groupby_size g rs).*1 ∧
  ∀ key n, (key, n) ∈ groupby_size g rs ↔
           (0 < n)%nat ∧
           n = length (filter (λ r : gmap string value, r !! g = Some key) rs).
Proof.
  unfold groupby_size.
  destruct (tallied_foldl g rs [] []) as (Hnd & Hpos & Hsize).
  { split; [constructor|]. split; [constructor|]. done. }
  simpl in Hsize. split.
  - by rewrite merge_sort_Permutation.
  - intros key n. rewrite merge_sort_Permutation.
    by rewrite elem_of_tally_list, Hsize.
Qed.

(** C6, as the specification has it, fails on a table that has both
    columns and no row: the selected value matches no row, and the view
    reports the columns as missing instead of returning an empty list. *)
Lemma countByGroup_no_rows_not_empty_list :
  let df := mkFrame ["state"; "district"] [] in
  "district" ∈ columns df ∧ "state" ∈ columns df ∧
  (∀ r, r ∈ rows df → ¬ chosen "state" (Some (VStr "X")) r) ∧
  district_summary df (Some (VStr "X")) = Signal MissingRequiredColumns ∧
  district_summary df (Some (VStr "X")) ≠ Summary [].
Proof.
  intros df.
  split; [right; left|]. split; [left|].
  split; [by intros r ?%elem_of_nil|]. by split.
Qed.

(** C6 (amended): on a table with at least one row that has the group
    column and the filter column, [countByGroup] keeps exactly the rows
    whose filter cell is present and equal to the selected value, and
    returns, once for every group value found among them, the number of
    kept rows of that group; when the selected value matches no row the
    result is the empty list, not a signalled condition. *)
Theorem countByGroup_filtered df g f selected :
  rows df ≠ [] → g ∈ columns df → f ∈ columns df →
  ∃ r, countByGroup df g f selected = Summary r ∧
       (∀ row, row ∈ select_rows f selected (rows df) ↔
               row ∈ rows df ∧ row !! f = selected ∧ is_Some (row !! f)) ∧
       NoDup r.*1 ∧
       (∀ key n, (key, n) ∈ r ↔
                 (0 < n)%nat ∧ n = group_size df g f selected key) ∧
       ((∀ row, row ∈ rows df → ¬ chosen f selected row) → r = []).
Proof.
  intros Hrows Hg Hf.
  exists (groupby_size g (select_rows f selected (rows df))).
  split; [|split; [|split; [|split]]].
  - unfold countByGroup. rewrite empty_false; [|..|done].
    + by rewrite !bool_decide_eq_true_2.
    + intros Hc. rewrite Hc in Hg. by apply elem_of_nil in Hg.
  - intros row. rewrite select_rows_chosen. unfold chosen.
    split; intros (? & H1 & H2); repeat split; try done; congruence.
  - apply groupby_size_spec.
  - intros key n. destruct (groupby_size_spec g (select_rows f selected (rows df))) as [_ ->].
    unfold group_size, select_rows. rewrite list_filter_filter.
    assert (∀ l : list (gmap string value),
      filter (λ x, x !! g = Some key ∧ Is_true (matches f selected x)) l
      = filter (λ r, chosen f selected r ∧ r !! g = Some key) l) as ->; [|done].
    intros l. apply list_filter_iff. intros x. rewrite matches_chosen. tauto.
  - intros Hnone.
    assert (select_rows f selected (rows df) = []) as ->; [|done].
    apply elem_of_nil_inv. intros row Hrow%select_rows_chosen.
    destruct Hrow as [Hin Hch]. by apply (Hnone row).
Qed.

Lemma countByGroup_filtered_witness :
  rows table_regions ≠ [] ∧
  "district" ∈ columns table_regions ∧ "state" ∈ columns table_regions ∧
  ∃ r, district_summary table_regions (Some (VStr "X")) = Summary r ∧
       (∀ row, row ∈ select_rows "state" (Some (VStr "X")) (rows table_regions) ↔
               row ∈ rows table_regions ∧ row !! "state" = Some (VStr "X") ∧
               is_Some (row !! "state")) ∧
       NoDup r.*1 ∧
       (∀ key n, (key, n) ∈ r ↔
                 (0 < n)%nat ∧
                 n = group_size table_regions "district" "state" (Some (VStr "X")) key) ∧
       ((∀ row, row ∈ rows table_regions → ¬ chosen "state" (Some (VStr "X")) row) →
        r = []).
Proof.
  assert (rows table_regions ≠ []) as H1 by discriminate.
  assert ("district" ∈ columns table_regions) as H2 by (right; left).
  assert ("state" ∈ columns table_regions) as H3 by left.
  split; [exact H1|]. split; [exact H2|]. split; [exact H3|].
  exact (countByGroup_filtered table_regions "district" "state"
           (Some (VStr "X")) H1 H2 H3).
Defined.

(** On the records of the example, state X has one record in district A
    and two in district B. *)
Example district_summary_X :
  district_summary table_regions (Some (VStr "X"))
  = Summary [(VStr "A", 1%nat); (VStr "B", 2%nat)].
Proof. reflexivity. Qed.

(** ** The loader *)

(** The loop ends normally, leaves the disk as it is, and has appended the
    frames of the files that parse. *)
Lemma read_all_run (fs : FS) (files : list path) (dfs : list DataFrame) :
  read_all files dfs fs
  = (inr (dfs ++ parsed fs files), fs, files ≫= events_of_read fs).
Proof.
  revert dfs. induction files as [|f files IH]; intros dfs.
  - simpl. by rewrite app_nil_r.
  - simpl. unfold mbind at 1, script_bind, try_except.
    unfold mbind at 1, script_bind, read_csv, events_of_read, parsed.
    simpl. fold (parsed fs files).
    destruct (read_csv_at fs f) as [e|df]; simpl; rewrite IH; simpl.
    + done.
    + by rewrite <- app_assoc.
Qed.

Lemma warnings_of_app (t u : list event) :
  warnings_of (t ++ u) = warnings_of t ++ warnings_of u.
Proof. apply omap_app. Qed.

Lemma warnings_of_reads (fs : FS) (files : list path) :
  warnings_of (files ≫= events_of_read fs) = failures fs files.
Proof.
  induction files as [|f files IH]; [done|].
  rewrite bind_cons, warnings_of_app, IH.
  unfold failures, events_of_read. simpl.
  by destruct (read_csv_at fs f).
Qed.

Lemma parsed_cons (fs : FS) (f : path) (files : list path) :
  parsed fs (f :: files)
  = match read_csv_at fs f with
    | inr df => df :: parsed fs files
    | inl _ => parsed fs files
    end.
Proof. unfold parsed. simpl. by destruct (read_csv_at fs f). Qed.

Lemma failures_cons (fs : FS) (f : path) (files : list path) :
  failures fs (f :: files)
  = match read_csv_at fs f with
    | inr _ => failures fs files
    | inl e => failed_to_load f e :: failures fs files
    end.
Proof. unfold failures. simpl. by destruct (read_csv_at fs f). Qed.

Lemma parsed_failures_length (fs : FS) (files : list path) :
  (length (parsed fs files) + length (failures fs files))%nat = length files.
Proof.
  induction files as [|f files IH]; [done|].
  rewrite parsed_cons, failures_cons.
  destruct (read_csv_at fs f); simpl; lia.
Qed.

Lemma load_folder_csvs_run (fs : FS) (folder_path : string) :
  load_folder_csvs folder_path fs
  = (inr (loaded fs folder_path), fs,
     Glob (join folder_path "*.csv")
     :: (glob_match fs folder_path ".csv" ≫= events_of_read fs)).
Proof.
  unfold load_folder_csvs, loaded, mbind at 1, script_bind, glob. simpl.
  destruct (glob_match fs folder_path ".csv") as [|f files] eqn:Hfiles; [done|].
  unfold mbind at 1, script_bind. rewrite read_all_run. simpl.
  rewrite app_nil_r.
  destruct (read_csv_at fs f); simpl; by destruct (parsed fs files).
Qed.

Lemma len_pd_concat (dfs : list DataFrame) :
  len (pd_concat dfs) = sum_list (len <$> dfs).
Proof.
  unfold len, pd_concat. simpl. rewrite length_join.
  by rewrite <- list_fmap_compose.
Qed.

Lemma len_loaded (fs : FS) (folder_path : string) :
  len (loaded fs folder_path)
  = sum_list (len <$> parsed fs (glob_match fs folder_path ".csv")).
Proof.
  unfold loaded. destruct (parsed fs _) as [|df dfs]; [done|].
  apply len_pd_concat.
Qed.

(** C4: whatever the folder holds, the loader ends normally; the frame it
    returns has as many rows as the files that parse have together; and it
    shows exactly one warning per file that does not parse, naming the file
    and the reason, in the order of discovery.  The files that parse and
    the warnings together account for every file found. *)
Theorem load_folder_csvs_rows_and_warnings (fs : FS) (folder_path : string) :
  let files := glob_match fs folder_path ".csv" in
  let run := load_folder_csvs folder_path fs in
  ∃ df, result run = inr df ∧
        len df = sum_list (len <$> parsed fs files) ∧
        warnings_of (trace run) = failures fs files ∧
        (length (parsed fs files) + length (warnings_of (trace run)))%nat
        = length files.
Proof.
  intros files run. subst files run. rewrite load_folder_csvs_run.
  exists (loaded fs folder_path). unfold result, trace. simpl.
  split; [done|]. split; [apply len_loaded|].
  change (warnings_of (Glob (join folder_path "*.csv")
                        :: (glob_match fs folder_path ".csv" ≫= events_of_read fs)))
    with (warnings_of (glob_match fs folder_path ".csv" ≫= events_of_read fs)).
  rewrite warnings_of_reads. split; [done|]. apply parsed_failures_length.
Qed.

(** Two files that parse, of three and two rows, and one that does not:
    five rows and one warning. *)
Example load_folder_csvs_enrolment :
  let run := load_folder_csvs "data/api_data_aadhar_enrolment" disk_enrolment in
  sum_map id len (result run) = inr 5%nat ∧
  warnings_of (trace run)
  = ["Failed to load data/api_data_aadhar_enrolment/part3.csv: Error tokenizing data. C error: EOF inside string starting at row 1"].
Proof. split; vm_compute; reflexivity. Qed.

Lemma loaded_nothing_parsed (fs : FS) (folder_path : string) :
  (∀ f, f ∈ glob_match fs folder_path ".csv" → ∃ e, read_csv_at fs f = inl e) →
  loaded fs folder_path = empty_frame.
Proof.
  intros Hfail. unfold loaded.
  assert (parsed fs (glob_match fs folder_path ".csv") = []) as ->; [|done].
  apply elem_of_nil_inv. intros df Hdf. unfold parsed in Hdf.
  apply list_elem_of_omap in Hdf as (f & Hf & Hread).
  destruct (Hfail f Hf) as [e He]. by rewrite He in Hread.
Qed.

Lemma glob_match_missing (fs : FS) (dir ext : string) :
  fs !! dir = None → glob_match fs dir ext = [].
Proof. intros H. unfold glob_match, listdir. by rewrite H. Qed.

(** C5: for every path the loader ends normally; for a path that does not
    exist, for a folder without matching files and for a folder none of
    whose files parses, the frame it returns is the empty one, with no row
    and no column. *)
Theorem load_folder_csvs_never_raises (fs : FS) (folder_path : string) :
  (∃ df, result (load_folder_csvs folder_path fs) = inr df) ∧
  (fs !! folder_path = None →
   result (load_folder_csvs folder_path fs) = inr empty_frame) ∧
  ((∀ f, f ∈ glob_match fs folder_path ".csv" → ∃ e, read_csv_at fs f = inl e) →
   result (load_folder_csvs folder_path fs) = inr empty_frame) ∧
  columns empty_frame = [] ∧ rows empty_frame = [].
Proof.
  rewrite load_folder_csvs_run. unfold result. simpl.
  split; [by eexists|]. split; [|split; [|done]].
  - intros Hmissing. f_equal. apply loaded_nothing_parsed.
    rewrite glob_match_missing by done. by intros f ?%elem_of_nil.
  - intros Hfail. f_equal. by apply loaded_nothing_parsed.
Qed.

Lemma load_folder_csvs_never_raises_witness :
  (∅ : FS) !! "data/api_data_aadhar_biometric" = None ∧
  result (load_folder_csvs "data/api_data_aadhar_biometric" ∅) = inr empty_frame.
Proof.
  split; [reflexivity|].
  exact (proj1 (proj2 (load_folder_csvs_never_raises
                         ∅ "data/api_data_aadhar_biometric")) eq_refl).
Defined.

(** ** The cache of the loader *)

Lemma load_hit (s : session) (arg : string) df msgs :
  memo s !! arg = Some (df, msgs) →
  load arg s = (inr df, s, Warning <$> msgs).
Proof. intros H. unfold load, cache_data. by rewrite H. Qed.

Lemma load_miss (s : session) (arg : string) :
  memo s !! arg = None →
  load arg s
  = (inr (loaded (disk s) arg),
     mkSession (disk s)
       (<[arg := (loaded (disk s) arg,
                  failures (disk s) (glob_match (disk s) arg ".csv"))]> (memo s)),
     Glob (join arg "*.csv")
     :: (glob_match (disk s) arg ".csv" ≫= events_of_read (disk s))).
Proof.
  intros H. unfold load, cache_data. rewrite H, load_folder_csvs_run.
  do 3 f_equal.
  change (warnings_of (Glob (join arg "*.csv")
                        :: (glob_match (disk s) arg ".csv" ≫= events_of_read (disk s))))
    with (warnings_of (glob_match (disk s) arg ".csv" ≫= events_of_read (disk s))).
  by rewrite warnings_of_reads.
Qed.

(** A call stores its result under its argument. *)
Lemma load_stores (s : session) (arg : string) :
  ∃ df msgs, result (load arg s) = inr df ∧
             memo (final (load arg s)) !! arg = Some (df, msgs).
Proof.
  destruct (memo s !! arg) as [[df msgs]|] eqn:Hmemo.
  - exists df, msgs. by rewrite (load_hit _ _ _ _ Hmemo).
  - eexists _, _. rewrite (load_miss _ _ Hmemo). unfold result, final. simpl.
    split; [done|]. apply lookup_insert_eq.
Qed.

(** So the cached loader ends normally too, for every path and whatever the
    store holds. *)
Lemma load_never_raises (s : session) (folder_path : string) :
  ∃ df, result (load folder_path s) = inr df.
Proof. destruct (load_stores s folder_path) as (df & _ & H & _). by exists df. Qed.

(** A call never replaces what the store already holds. *)
Lemma load_keeps (s : session) (arg key : string) entry :
  memo s !! key = Some entry →
  memo (final (load arg s)) !! key = Some entry.
Proof.
  intros Hkey. destruct (memo s !! arg) as [[df msgs]|] eqn:Hmemo.
  - by rewrite (load_hit _ _ _ _ Hmemo).
  - rewrite (load_miss _ _ Hmemo). unfold final. simpl.
    rewrite lookup_insert_ne; [done|]. congruence.
Qed.

Lemma later_calls_keep (calls : list (FS * string)) (s : session) key entry :
  memo s !! key = Some entry →
  memo (later_calls calls s) !! key = Some entry.
Proof.
  revert s. induction calls as [|[d arg] calls IH]; intros s Hkey; [done|].
  simpl. apply IH. by apply load_keeps.
Qed.

Lemma disk_io_warnings (msgs : list string) : disk_io (Warning <$> msgs) = [].
Proof. induction msgs as [|m msgs IH]; [done|]. exact IH. Qed.

(** C8: once [load] has been called with a folder path, every later call
    with that path in the same process returns the same frame as the first
    one and does not touch the disk, whatever calls were made in between
    and whatever happened to the files by then. *)
Theorem load_memoized (s : session) (folder_path : string)
    (calls : list (FS * string)) (d : FS) :
  let first := load folder_path s in
  let again := load folder_path (with_disk d (later_calls calls (final first))) in
  (∃ df, result first = inr df) ∧
  result again = result first ∧
  disk_io (trace again) = [].
Proof.
  intros first again. subst first again.
  destruct (load_stores s folder_path) as (df & msgs & Hres & Hmemo).
  apply (later_calls_keep calls) in Hmemo.
  rewrite (load_hit (with_disk d _) folder_path df msgs Hmemo).
  rewrite Hres. unfold result, trace. simpl.
  split; [by eexists|]. split; [done|]. apply disk_io_warnings.
Qed.

(** The first call on the example folder reads the disk, the second one,
    made after the folder has vanished, does not and returns the same. *)
Example load_twice :
  let s := mkSession disk_enrolment ∅ in
  let first := load "data/api_data_aadhar_enrolment" s in
  let again := load "data/api_data_aadhar_enrolment" (with_disk ∅ (final first)) in
  length (disk_io (trace first)) = 4%nat ∧
  disk_io (trace again) = [] ∧
  warnings_of (trace again) = warnings_of (trace first).
Proof. repeat split; vm_compute; reflexivity. Qed.

(** ** Converting a spreadsheet and reading the result *)

(** *** The digits of a number read back as the number *)

Lemma rstrip_cons (a : ascii) (t : string) :
  is_space a = false → rstrip t = t → rstrip (String a t) = String a t.
Proof. intros Ha Ht. simpl. rewrite Ht, Ha. by destruct t. Qed.

Lemma rstrip_digits (d : Decimal.uint) (rest : string) :
  rstrip rest = rest →
  rstrip (NilEmpty.string_of_uint d +:+ rest) = NilEmpty.string_of_uint d +:+ rest.
Proof.
  intros Hrest. induction d; [done|..];
    (change (NilEmpty.string_of_uint ?x +:+ rest) with
       (NilEmpty.string_of_uint x +:+ rest);
     cbn [NilEmpty.string_of_uint]; rewrite append_cons;
     by apply rstrip_cons).
Qed.

Lemma split_dot_digits (d : Decimal.uint) (rest : string) :
  split_dot (NilEmpty.string_of_uint d +:+ rest)
  = (NilEmpty.string_of_uint d +:+ (split_dot rest).1, (split_dot rest).2).
Proof.
  induction d; [rewrite !append_nil; by destruct (split_dot rest)|..];
    (cbn [NilEmpty.string_of_uint]; rewrite append_cons;
     cbn [split_dot]; rewrite IHd; reflexivity).
Qed.

Lemma first_digit (d : Decimal.uint) :
  d ≠ Decimal.Nil →
  ∃ a s, NilEmpty.string_of_uint d = String a s ∧ is_space a = false ∧
         Ascii.eqb a "-" = false ∧ Ascii.eqb a "+" = false.
Proof. destruct d; [done|..]; intros _; by eexists _, _. Qed.

Lemma append_nil_r (s : string) : s +:+ "" = s.
Proof. induction s as [|a s IH]; [done|]. by rewrite append_cons, IH. Qed.

Lemma digits_string_of_uint (d : Decimal.uint) :
  d ≠ Decimal.Nil → digits (NilEmpty.string_of_uint d) = Some (Z.of_uint d).
Proof.
  intros Hd. unfold digits.
  replace (NilEmpty.string_of_uint d) with (NilZero.string_of_uint d)
    by (by destruct d).
  by rewrite NilZero.usu.
Qed.

Lemma unsigned_literal_digits (d : Decimal.uint) :
  d ≠ Decimal.Nil →
  unsigned_literal (NilEmpty.string_of_uint d) = Some (Z.of_uint d) ∧
  unsigned_literal (NilEmpty.string_of_uint d +:+ ".0") = Some (Z.of_uint d).
Proof.
  intros Hd. unfold unsigned_literal. split.
  - rewrite <- (append_nil_r (NilEmpty.string_of_uint d)) at 1.
    rewrite split_dot_digits. cbn [split_dot fst snd]. rewrite append_nil_r.
    by apply digits_string_of_uint.
  - rewrite split_dot_digits.
    change (split_dot ".0") with ("", Some "0"). cbn [fst snd only_zeros].
    rewrite append_nil_r. change (Ascii.eqb "0" "0" && true) with true. cbv iota.
    rewrite bool_decide_eq_false_2; [by apply digits_string_of_uint|].
    by destruct d.
Qed.

Lemma number_literal_digits (d : Decimal.uint) :
  d ≠ Decimal.Nil →
  number_literal (NilEmpty.string_of_uint d) = Some (Z.of_uint d) ∧
  number_literal (NilEmpty.string_of_uint d +:+ ".0") = Some (Z.of_uint d) ∧
  number_literal (String "-" (NilEmpty.string_of_uint d)) = Some (- Z.of_uint d) ∧
  number_literal (String "-" (NilEmpty.string_of_uint d +:+ ".0"))
  = Some (- Z.of_uint d).
Proof.
  intros Hd. destruct (unsigned_literal_digits d Hd) as [Hplain Hdot].
  destruct (first_digit d Hd) as (a & s & Hs & Hspace & Hminus & Hplus).
  assert (rstrip (NilEmpty.string_of_uint d) = NilEmpty.string_of_uint d) as Hr1.
  { rewrite <- (append_nil_r (NilEmpty.string_of_uint d)). by apply rstrip_digits. }
  assert (rstrip (NilEmpty.string_of_uint d +:+ ".0")
          = NilEmpty.string_of_uint d +:+ ".0") as Hr2 by (by apply rstrip_digits).
  unfold number_literal. repeat split.
  - rewrite Hs in *. cbn [lstrip]. rewrite Hspace, Hr1, Hminus, Hplus. exact Hplain.
  - rewrite Hs in *. rewrite append_cons in *. cbn [lstrip].
    rewrite Hspace, Hr2, Hminus, Hplus. exact Hdot.
  - cbn [lstrip]. change (is_space "-") with false. cbv iota.
    rewrite rstrip_cons by done. change (Ascii.eqb "-" "-") with true. cbv iota.
    by rewrite Hplain.
  - cbn [lstrip]. change (is_space "-") with false. cbv iota.
    rewrite rstrip_cons by done. change (Ascii.eqb "-" "-") with true. cbv iota.
    by rewrite Hdot.
Qed.

Lemma number_literal_py_str (z : Z) :
  number_literal (py_str z) = Some z ∧
  number_literal (py_str z +:+ ".0") = Some z.
Proof.
  unfold py_str. destruct z as [|p|p]; [done|..].
  - pose proof (DecimalZ.of_to (Z.pos p)) as Hof. simpl in Hof.
    assert (Pos.to_uint p ≠ Decimal.Nil) as Hd
      by apply DecimalPos.Unsigned.to_uint_nonnil.
    destruct (number_literal_digits _ Hd) as (H1 & H2 & _).
    simpl Z.to_int. unfold NilZero.string_of_int.
    replace (NilZero.string_of_uint (Pos.to_uint p))
      with (NilEmpty.string_of_uint (Pos.to_uint p)) by (by destruct (Pos.to_uint p)).
    by rewrite H1, H2, Hof.
  - pose proof (DecimalZ.of_to (Z.neg p)) as Hof. simpl in Hof.
    assert (Pos.to_uint p ≠ Decimal.Nil) as Hd
      by apply DecimalPos.Unsigned.to_uint_nonnil.
    destruct (number_literal_digits _ Hd) as (_ & _ & H3 & H4).
    simpl Z.to_int. unfold NilZero.string_of_int.
    replace (NilZero.string_of_uint (Pos.to_uint p))
      with (NilEmpty.string_of_uint (Pos.to_uint p)) by (by destruct (Pos.to_uint p)).
    rewrite append_cons. by rewrite H3, H4, Hof.
Qed.

(** No missing-value marker reads as a number. *)
Lemma na_values_not_literals (s : string) :
  s ∈ na_values → number_literal s = None.
Proof.
  intros H. apply list_elem_of_In in H. unfold na_values in H. simpl in H.
  repeat (destruct H as [<-|H]; [reflexivity|]). destruct H.
Qed.

Lemma literal_not_na (s : string) (z : Z) :
  number_literal s = Some z → s ∉ na_values.
Proof. intros H Hna. apply na_values_not_literals in Hna. congruence. Qed.

(** *** The characters of a number *)

Lemma lstrip_chars (s : string) (a : ascii) :
  In a (list_ascii_of_string s) →
  is_space a = true ∨ In a (list_ascii_of_string (lstrip s)).
Proof.
  induction s as [|b s IH]; [done|]. simpl.
  destruct (is_space b) eqn:Hb.
  - intros [<-|Hin]; [by left|by apply IH].
  - intros Hin. by right.
Qed.

Lemma rstrip_chars (s : string) (a : ascii) :
  In a (list_ascii_of_string s) →
  is_space a = true ∨ In a (list_ascii_of_string (rstrip s)).
Proof.
  induction s as [|b s IH]; [done|]. simpl.
  intros [->|Hin].
  - destruct (rstrip s); [|by right; left].
    destruct (is_space a) eqn:Ha; [by left|by right; left].
  - destruct (IH Hin) as [Hspace|Hrest]; [by left|].
    destruct (rstrip s); [done|]. right. by right.
Qed.

Lemma split_dot_chars (u : string) (a : ascii) :
  In a (list_ascii_of_string u) →
  In a (list_ascii_of_string (split_dot u).1) ∨ a = "."%char ∨
  ∃ f, (split_dot u).2 = Some f ∧ In a (list_ascii_of_string f).
Proof.
  induction u as [|b u IH]; [done|]. simpl.
  destruct (Ascii.eqb_spec b ".") as [->|Hb].
  - intros [<-|Hin]; [by right; left|]. right; right. by exists u.
  - destruct (split_dot u) as [w f]. simpl in *.
    intros [<-|Hin]; [by left; left|].
    destruct (IH Hin) as [Hw|[Hdot|Hf]]; [left; by right|by right; left|].
    by right; right.
Qed.

Lemma only_zeros_chars (f : string) (a : ascii) :
  only_zeros f = true → In a (list_ascii_of_string f) → a = "0"%char.
Proof.
  induction f as [|b f IH]; [done|]. simpl.
  intros [Hb Hf]%andb_true_iff [<-|Hin]; [|by apply IH].
  by apply Ascii.eqb_eq in Hb.
Qed.

Lemma uint_of_string_chars (w : string) (d : Decimal.uint) (a : ascii) :
  NilEmpty.uint_of_string w = Some d →
  In a (list_ascii_of_string w) → numeric_char a = true.
Proof.
  revert d. induction w as [|b w IH]; [done|]. simpl. intros d Hd.
  destruct (NilEmpty.uint_of_string w) as [d'|] eqn:Hw; [|done].
  intros [<-|Hin]; [|by apply (IH d')].
  apply uint_of_char_spec in Hd.
  repeat (destruct Hd as [[-> _]|Hd]; [reflexivity|]).
  by destruct Hd as [-> _].
Qed.

Lemma unsigned_literal_chars (u : string) (z : Z) (a : ascii) :
  unsigned_literal u = Some z →
  In a (list_ascii_of_string u) → numeric_char a = true.
Proof.
  unfold unsigned_literal, digits. intros Hu Hin.
  apply split_dot_chars in Hin. destruct (split_dot u) as [w [f|]]; simpl in *.
  - destruct (only_zeros f) eqn:Hzeros; [|done].
    destruct Hin as [Hw|[->|(f' & [= <-] & Hf)]]; [|done|].
    + destruct (bool_decide (w = "")) eqn:Hempty.
      * apply bool_decide_eq_true in Hempty. by subst.
      * destruct w as [|b w]; [done|]. simpl in Hu.
        destruct (uint_of_char b (NilEmpty.uint_of_string w)) as [d|] eqn:Hd; [|done].
        by apply (uint_of_string_chars (String b w) d).
    + by rewrite (only_zeros_chars f a Hzeros Hf).
  - destruct Hin as [Hw|[->|(f' & [=] & _)]]; [|done].
    destruct w as [|b w]; [done|]. simpl in Hu.
    destruct (uint_of_char b (NilEmpty.uint_of_string w)) as [d|] eqn:Hd; [|done].
    by apply (uint_of_string_chars (String b w) d).
Qed.

(** What reads as a number is made of the characters of numbers. *)
Lemma number_literal_chars (s : string) (z : Z) (a : ascii) :
  number_literal s = Some z →
  In a (list_ascii_of_string s) → numeric_char a = true.
Proof.
  unfold number_literal. intros Hs Hin.
  apply lstrip_chars in Hin as [Hspace|Hin].
  { unfold numeric_char. by rewrite Hspace. }
  apply rstrip_chars in Hin as [Hspace|Hin].
  { unfold numeric_char. by rewrite Hspace. }
  destruct (rstrip (lstrip s)) as [|b u]; [done|].
  destruct (Ascii.eqb_spec b "-") as [->|Hminus].
  { destruct (unsigned_literal u) as [z'|] eqn:Hu; [|done].
    destruct Hin as [<-|Hin]; [done|]. by apply (unsigned_literal_chars u z'). }
  destruct (Ascii.eqb_spec b "+") as [->|Hplus].
  { destruct Hin as [<-|Hin]; [done|]. by apply (unsigned_literal_chars u z). }
  by apply (unsigned_literal_chars (String b u) z).
Qed.

Lemma plain_text_not_number (s : string) :
  plain_text s → reads_as_number s = false.
Proof.
  intros (Hna & _ & Hchar). unfold reads_as_number.
  rewrite bool_decide_eq_false_2 by done. simpl.
  apply bool_decide_eq_false_2. intros [z Hz].
  apply existsb_exists in Hchar as (a & Hin & Ha).
  by rewrite (number_literal_chars s z a Hz Hin) in Ha.
Qed.

(** *** What is written for a frame reads back as the frame *)

Lemma frame_eta (df : DataFrame) : df = mkFrame (columns df) (rows df).
Proof. by destruct df. Qed.

Lemma omap_imap_ext {A B C} (f : nat → A → B) (h : B → option C)
    (h' : A → option C) (l : list A) :
  (∀ j x, l !! j = Some x → h (f j x) = h' x) →
  omap h (imap f l) = omap h' l.
Proof.
  revert f. induction l as [|x l IH]; intros f Hf; [done|].
  rewrite imap_cons.
  assert (omap h (imap (f ∘ S) l) = omap h' l) as IH'.
  { apply IH. intros j y Hj. by apply (Hf (S j)). }
  simpl. rewrite (Hf 0%nat x) by done.
  destruct (h' x); [f_equal|]; exact IH'.
Qed.

Lemma lookup_cells (r : gmap string value) (cs : list string) (k : string) :
  (list_to_map (omap (λ c, (λ v, (c, v)) <$> r !! c) cs) : gmap string value) !! k
  = if decide (k ∈ cs) then r !! k else None.
Proof.
  induction cs as [|c cs IH].
  - destruct (decide (k ∈ [])) as [H|_]; [by apply elem_of_nil in H|].
    apply lookup_empty.
  - assert (omap (λ c, (λ v, (c, v)) <$> r !! c) (c :: cs)
            = match r !! c with
              | Some v => (c, v) :: omap (λ c, (λ v, (c, v)) <$> r !! c) cs
              | None => omap (λ c, (λ v, (c, v)) <$> r !! c) cs
              end) as -> by (simpl; by destruct (r !! c)).
    destruct (r !! c) as [v|] eqn:Hc.
    + rewrite list_to_map_cons.
      destruct (decide (k = c)) as [->|Hne].
      * rewrite lookup_insert_eq.
        destruct (decide (c ∈ c :: cs)) as [_|Hout]; [done|].
        exfalso. apply Hout. left.
      * rewrite lookup_insert_ne by done. rewrite IH.
        destruct (decide (k ∈ cs)) as [H1|H1],
                 (decide (k ∈ c :: cs)) as [H2|H2]; try done.
        -- exfalso. apply H2. by right.
        -- apply elem_of_cons in H2 as [?|?]; done.
    + rewrite IH.
      destruct (decide (k ∈ cs)) as [H1|H1],
               (decide (k ∈ c :: cs)) as [H2|H2]; try done.
      * exfalso. apply H2. by right.
      * apply elem_of_cons in H2 as [->|?]; done.
Qed.

(** A number within 2^53 or a missing cell is written as a field that reads
    as a number, and reads back as the same cell, whether the writer and
    the reader take the column for integers or for floating-point
    numbers. *)
Lemma number_field (written read : bool) (cell : option value) :
  match cell with
  | Some (VNum z) => Z.abs z ≤ 2 ^ 53
  | Some (VStr _) => False
  | None => True
  end →
  reads_as_number (to_field written cell) = true ∧
  of_field true read (to_field written cell) = cell.
Proof.
  destruct cell as [[z|s]|]; [|done|done]. intros Hz.
  destruct (number_literal_py_str z) as [Hplain Hdot].
  assert (number_literal (to_field written (Some (VNum z))) = Some z) as Hlit
    by (by destruct written).
  unfold reads_as_number, of_field.
  rewrite (bool_decide_eq_false_2 _ (literal_not_na _ _ Hlit)), Hlit. split.
  - apply bool_decide_eq_true_2. by eexists.
  - simpl. destruct read; [|done]. by rewrite round53_exact.
Qed.

(** A text that is no missing-value marker, in a column that the reader
    takes for texts, reads back as it is. *)
Lemma text_field (written read : bool) (cell : option value) :
  match cell with
  | Some (VNum _) => False
  | Some (VStr s) => s ∉ na_values
  | None => True
  end →
  of_field false read (to_field written cell) = cell.
Proof.
  destruct cell as [[z|s]|]; [done| |done]. intros Hs.
  unfold of_field. simpl. by rewrite bool_decide_eq_false_2.
Qed.

Lemma numbers_column_cell (df : DataFrame) (c : string) (r : gmap string value) :
  numbers_column df c → r ∈ rows df →
  match r !! c with
  | Some (VNum z) => Z.abs z ≤ 2 ^ 53
  | Some (VStr _) => False
  | None => True
  end.
Proof.
  intros Hnum Hr. specialize (Hnum r Hr).
  destruct (r !! c) as [[z|s]|]; [|done..].
  change (10 ^ 15) with 1000000000000000 in Hnum. powers. lia.
Qed.

Lemma text_column_cell (df : DataFrame) (c : string) (r : gmap string value) :
  text_column df c → r ∈ rows df →
  match r !! c with
  | Some (VNum _) => False
  | Some (VStr s) => s ∉ na_values
  | None => True
  end.
Proof.
  intros [Htext _] Hr. specialize (Htext r Hr).
  destruct (r !! c) as [[z|s]|]; [done| |done]. by destruct Htext.
Qed.

Section roundtrip.
Context (df : DataFrame).
Hypothesis Hkeep : ∀ c, c ∈ columns df → preserved_column df c.

Lemma field_record_of (r : gmap string value) (j : nat) :
  field j (record_of df r)
  = match columns df !! j with
    | Some c => to_field (float_column df c) (r !! c)
    | None => ""
    end.
Proof.
  unfold field, record_of. rewrite list_lookup_fmap.
  by destruct (columns df !! j).
Qed.

Lemma numeric_fields_numbers (j : nat) (c : string) :
  columns df !! j = Some c → numbers_column df c →
  numeric_fields (to_csv_text df) j = true.
Proof.
  intros Hj Hnum. unfold numeric_fields. apply forallb_forall. intros rec Hrec.
  apply list_elem_of_In in Hrec. simpl in Hrec.
  apply list_elem_of_fmap in Hrec as (r & -> & Hr).
  rewrite field_record_of, Hj.
  exact (proj1 (number_field _ false _ (numbers_column_cell df c r Hnum Hr))).
Qed.

Lemma numeric_fields_texts (j : nat) (c : string) :
  columns df !! j = Some c → text_column df c →
  numeric_fields (to_csv_text df) j = false.
Proof.
  intros Hj (_ & r & s & Hr & Hc & Hplain). unfold numeric_fields.
  apply not_true_is_false. intros Hall. rewrite forallb_forall in Hall.
  specialize (Hall (record_of df r)).
  rewrite field_record_of, Hj, Hc in Hall. simpl in Hall.
  rewrite plain_text_not_number in Hall by done.
  assert (false = true) as Habs; [|done].
  apply Hall. apply list_elem_of_In. simpl.
  apply list_elem_of_fmap. by exists r.
Qed.

Lemma of_field_record_of (r : gmap string value) (j : nat) (c : string) :
  r ∈ rows df → columns df !! j = Some c →
  of_field (numeric_fields (to_csv_text df) j) (float_fields (to_csv_text df) j)
           (field j (record_of df r))
  = r !! c.
Proof.
  intros Hr Hj. rewrite field_record_of, Hj.
  destruct (Hkeep c) as [Hnum|Htext]; [by eapply list_elem_of_lookup_2|..].
  - rewrite (numeric_fields_numbers j c Hj Hnum).
    exact (proj2 (number_field _ _ _ (numbers_column_cell df c r Hnum Hr))).
  - rewrite (numeric_fields_texts j c Hj Htext).
    exact (text_field _ _ _ (text_column_cell df c r Htext Hr)).
Qed.

Lemma read_record_of (r : gmap string value) :
  r ∈ rows df →
  (∀ c, is_Some (r !! c) → c ∈ columns df) →
  read_record (to_csv_text df) (record_of df r) = r.
Proof.
  intros Hr Hdom. unfold read_record.
  change (header (to_csv_text df)) with (columns df).
  rewrite (omap_imap_ext _ _ (λ c, (λ v, (c, v)) <$> r !! c)).
  - apply map_eq. intros k. rewrite lookup_cells.
    destruct (decide (k ∈ columns df)) as [Hin|Hout]; [done|].
    destruct (r !! k) eqn:Hk; [|done].
    exfalso. apply Hout, Hdom. by eexists.
  - intros j c Hj. cbn beta iota. by rewrite (of_field_record_of r j c Hr Hj).
Qed.

(** Reading what [to_csv] wrote gives the frame back. *)
Lemma read_csv_text_to_csv_text :
  well_formed df → columns df ≠ [] →
  read_csv_text (to_csv_text df) = inr df.
Proof.
  intros (_ & _ & Hdom) Hcols.
  assert (read_csv_text (to_csv_text df)
          = inr (mkFrame (columns df)
                   (map (read_record (to_csv_text df)) (body (to_csv_text df)))))
    as ->.
  { unfold read_csv_text. change (header (to_csv_text df)) with (columns df).
    by destruct (columns df). }
  f_equal. transitivity (mkFrame (columns df) (rows df));
    [|symmetry; apply frame_eta].
  f_equal. change (body (to_csv_text df)) with (map (record_of df) (rows df)).
  rewrite map_map. rewrite <- (map_id (rows df)) at 2.
  apply map_ext_in. intros r Hr%list_elem_of_In.
  apply read_record_of; [done|]. intros k. by apply Hdom.
Qed.
End roundtrip.

(** The file written for a table of counts with a blank: the column with
    the blank is written as floating-point numbers; and some spellings that
    read as numbers. *)
Example to_csv_text_counts :
  to_csv_text table_counts
  = mkCsv ["age_0_5"; "age_5_17"] [["12"; "-3.0"]; ["0"; ""]].
Proof. vm_compute. reflexivity. Qed.

Example number_literal_spellings :
  number_literal "-3.0" = Some (-3) ∧ number_literal "+5" = Some 5 ∧
  number_literal " 7" = Some 7 ∧ number_literal "007" = Some 7 ∧
  number_literal "12." = Some 12 ∧ number_literal "1.5" = None ∧
  number_literal "x" = None.
Proof. vm_compute. repeat split. Qed.

(** *** One spreadsheet through the converter *)

Lemma convert_file_run (os : system) (fs : FS) (output_path : string) (file : path)
    (df : DataFrame) (entries : gmap string stored) :
  read_excel_at fs file = inr df →
  fs !! output_path = Some entries →
  writable os fs (csv_file_of output_path file) →
  os (Print ("Converted: " +:+ path_str file)) = None →
  convert_file os output_path file fs
  = (inr tt,
     <[output_path := <[(csv_file_of output_path file).2 := csv_of df]> entries]> fs,
     events_of_file output_path file).
Proof.
  intros Hread Hdir [Hfree Hwrite] Hprint.
  unfold convert_file, mbind, script_bind, read_excel, to_csv, print, emit.
  rewrite Hread. cbn [fst snd csv_file_of]. rewrite Hdir.
  change (join output_path (splitext_root file.2 +:+ ".csv"))
    with (path_str (csv_file_of output_path file)).
  rewrite bool_decide_eq_false_2 by (rewrite Hfree; by intros [? ?]).
  rewrite Hwrite, Hprint. done.
Qed.

Lemma read_csv_at_written (fs : FS) (dir name : string) (doc : csv_text)
    (entries : gmap string stored) :
  read_csv_at (<[dir := <[name := mkFile (inr doc) (inl not_excel)]> entries]> fs)
              (dir, name)
  = read_csv_text doc.
Proof.
  unfold read_csv_at, lookup_file, FS in *. cbn [fst snd].
  rewrite lookup_insert_eq. cbn [mbind option_bind].
  by rewrite lookup_insert_eq.
Qed.


Lemma mkrow_dom (cells : list (string * value)) (c : string) :
  is_Some (mkrow cells !! c) → c ∈ cells.*1.
Proof.
  intros [v Hv]. destruct (decide (c ∈ cells.*1)) as [Hin|Hout]; [done|].
  unfold mkrow in Hv. by rewrite not_elem_of_list_to_map_1 in Hv.
Qed.

(** ** The converter *)

Lemma append_assoc (s t u : string) : (s +:+ t) +:+ u = s +:+ t +:+ u.
Proof. induction s as [|a s IH]; [done|]. by rewrite !append_cons, IH. Qed.

Lemma ends_with_app (suffix s : string) :
  ends_with suffix s = true ↔ ∃ before, s = before +:+ suffix.
Proof.
  induction s as [|a s IH]; simpl.
  - rewrite orb_false_r, String.eqb_eq. split.
    + intros ->. by exists "".
    + intros [before H]. destruct before; [done|].
      by rewrite append_cons in H.
  - rewrite orb_true_iff, String.eqb_eq, IH. split.
    + intros [->|[before ->]]; [by exists ""|by exists (String a before)].
    + intros [before H]. destruct before as [|b before].
      * by left.
      * right. exists before. rewrite append_cons in H. congruence.
Qed.

(** *** Running scripts *)

Lemma bind_run {S A B} (m : script S A) (k : A → script S B) s a s1 t1 :
  m s = (inr a, s1, t1) →
  (m ≫= k) s = let '(r, s2, t2) := k a s1 in (r, s2, t1 ++ t2).
Proof. intros H. unfold mbind, script_bind. by rewrite H. Qed.

Lemma result_bind_inr {S A B} (m : script S A) (k : A → script S B) s b :
  result ((m ≫= k) s) = inr b →
  ∃ a, result (m s) = inr a ∧ result (k a (final (m s))) = inr b.
Proof.
  unfold mbind, script_bind, result, final.
  destruct (m s) as [[[e|a] s1] t1]; simpl; [done|].
  destruct (k a s1) as [[r s2] t2] eqn:Hk; simpl. intros ->.
  exists a. by rewrite Hk.
Qed.

Lemma result_bind_inl {S A B} (m : script S A) (k : A → script S B) s e :
  result ((m ≫= k) s) = inl e →
  result (m s) = inl e ∨
  ∃ a, result (m s) = inr a ∧ result (k a (final (m s))) = inl e.
Proof.
  unfold mbind, script_bind, result, final.
  destruct (m s) as [[[e'|a] s1] t1]; simpl; [intros [= ->]; by left|].
  destruct (k a s1) as [[r s2] t2] eqn:Hk; simpl. intros ->.
  right. exists a. by rewrite Hk.
Qed.

Lemma result_final_bind {S A B} (m : script S A) (k : A → script S B) s a :
  result (m s) = inr a → final ((m ≫= k) s) = final (k a (final (m s))).
Proof.
  unfold mbind, script_bind, result, final.
  destruct (m s) as [[[e|a'] s1] t1]; simpl; [done|]. intros [= ->].
  by destruct (k a s1) as [[r s2] t2].
Qed.

(** *** What a step reads depends on the directory only *)

Lemma read_excel_at_agree (fs fs' : FS) (f : path) :
  fs' !! f.1 = fs !! f.1 → read_excel_at fs' f = read_excel_at fs f.
Proof. intros H. unfold read_excel_at, lookup_file. by rewrite H. Qed.

Lemma glob_match_agree (fs fs' : FS) (dir ext : string) :
  fs' !! dir = fs !! dir → glob_match fs' dir ext = glob_match fs dir ext.
Proof. intros H. unfold glob_match, listdir. by rewrite H. Qed.

Lemma glob_match_dir (fs : FS) (dir ext : string) (f : path) :
  f ∈ glob_match fs dir ext → f.1 = dir.
Proof.
  unfold glob_match. intros H.
  by apply list_elem_of_fmap in H as (name & -> & _).
Qed.

Lemma glob_match_none (fs : FS) (dir ext : string) :
  (∀ name, name ∈ listdir fs dir → ends_with ext name = false) →
  glob_match fs dir ext = [].
Proof.
  intros Hnone. unfold glob_match.
  assert (filter (λ name, Is_true (ends_with ext name && negb (String.prefix "." name)))
                 (listdir fs dir) = []) as ->; [|done].
  apply elem_of_nil_inv. intros name [Hmatch Hin]%list_elem_of_filter.
  rewrite (Hnone name Hin) in Hmatch. done.
Qed.

(** *** The directories of the converter *)

Lemma input_path_is_input (folder : string) :
  folder ∈ folders → input_path folder ∈ input_dirs.
Proof. intros H. unfold input_dirs. apply list_elem_of_fmap. by exists folder. Qed.

Lemma input_dirs_not_outputs (dir : string) : dir ∈ input_dirs → dir ∉ output_dirs.
Proof.
  revert dir. apply Forall_forall.
  apply (bool_decide_unpack _). vm_compute. exact I.
Qed.

Lemma input_path_not_output (folder : string) :
  folder ∈ folders → input_path folder ∉ output_dirs.
Proof. intros H. by apply input_dirs_not_outputs, input_path_is_input. Qed.

Lemma output_path_is_output (folder : string) :
  folder ∈ folders → output_path folder ∈ output_dirs.
Proof. intros H. right. apply list_elem_of_fmap. by exists folder. Qed.

Lemma output_path_not_root (folder : string) :
  folder ∈ folders → output_path folder ≠ OUTPUT_ROOT.
Proof.
  revert folder. apply Forall_forall.
  apply (bool_decide_unpack _). vm_compute. exact I.
Qed.

Lemma output_path_inj (folder folder' : string) :
  folder ∈ folders → folder' ∈ folders →
  output_path folder = output_path folder' → folder = folder'.
Proof.
  intros H H'. apply list_elem_of_In in H, H'. simpl in H, H'.
  destruct H as [<-|[<-|[<-|[]]]]; destruct H' as [<-|[<-|[<-|[]]]];
    vm_compute; congruence.
Qed.

Lemma folders_NoDup : NoDup folders.
Proof. apply (bool_decide_unpack _). vm_compute. exact I. Qed.

(** The directory above the output root is the one the script runs in;
    the one above the output directory of a folder is the output root. *)
Lemma parents_output_root : parents OUTPUT_ROOT = [].
Proof. vm_compute. reflexivity. Qed.

Lemma parents_output_path (folder : string) :
  folder ∈ folders → parents (output_path folder) = [OUTPUT_ROOT].
Proof.
  revert folder. apply Forall_forall. repeat constructor.
Qed.

Lemma split_output_path (folder : string) :
  folder ∈ folders → split_path (output_path folder) = (OUTPUT_ROOT, folder).
Proof.
  revert folder. apply Forall_forall. repeat constructor.
Qed.

Lemma split_output_root : split_path OUTPUT_ROOT = ("", OUTPUT_ROOT).
Proof. vm_compute. reflexivity. Qed.

Lemma working_directory_not_output : "" ∉ output_dirs.
Proof. apply (bool_decide_unpack _). vm_compute. exact I. Qed.

(** A converted file is named with the extension of delimited text, which
    no output directory has. *)
Lemma ends_with_append (suffix a b : string) :
  ends_with suffix b = true → ends_with suffix (a +:+ b) = true.
Proof.
  rewrite !ends_with_app. intros [before ->]. exists (a +:+ before).
  by rewrite append_assoc.
Qed.

Lemma ends_with_join (suffix a b : string) :
  ends_with suffix b = true → ends_with suffix (join a b) = true.
Proof.
  intros H. unfold join.
  destruct (String.prefix "/" b); [done|].
  destruct (bool_decide (a = "")); [done|].
  destruct (String.prefix "/" (String.rev a)).
  - by apply ends_with_append.
  - apply ends_with_append. by apply (ends_with_append suffix "/").
Qed.

Lemma csv_file_ends_with (out : string) (f : path) :
  ends_with ".csv" (path_str (csv_file_of out f)) = true.
Proof.
  unfold path_str, csv_file_of. cbn [fst snd]. apply ends_with_join.
  apply ends_with_app. by eexists.
Qed.

Lemma csv_file_not_output (out : string) (f : path) :
  path_str (csv_file_of out f) ∉ output_dirs.
Proof.
  intros Hin. pose proof (csv_file_ends_with out f) as Hext.
  revert Hin Hext. generalize (path_str (csv_file_of out f)). intros k Hin.
  assert (Forall (λ d, ends_with ".csv" d = false) output_dirs) as Hall
    by (repeat constructor).
  rewrite Forall_forall in Hall. by rewrite (Hall k Hin).
Qed.
(** *** What the steps maintain *)

Lemma maintains_bind {A B} (P : FS → Prop) (m : script FS A) (k : A → script FS B) :
  maintains P m → (∀ a, maintains P (k a)) → maintains P (m ≫= k).
Proof.
  intros Hm Hk fs HP. specialize (Hm fs HP).
  unfold mbind, script_bind, final in *.
  destruct (m fs) as [[[e|a] s1] t1]; simpl in *; [done|].
  specialize (Hk a s1 Hm). unfold final in Hk.
  by destruct (k a s1) as [[r s2] t2].
Qed.

Lemma maintains_still {A} (P : FS → Prop) (m : script FS A) :
  (∀ fs, final (m fs) = fs) → maintains P m.
Proof. intros H fs HP. by rewrite H. Qed.

Lemma maintains_for_each {A} (P : FS → Prop) (l : list A) (body : A → script FS unit) :
  (∀ x, x ∈ l → maintains P (body x)) → maintains P (for_each l body).
Proof.
  induction l as [|x l IH]; intros Hbody; [by apply maintains_still|].
  apply maintains_bind; [apply Hbody; left|]. intros _. apply IH.
  intros y Hy. apply Hbody. by right.
Qed.

Lemma final_print (os : system) (line : string) (fs : FS) :
  final (print os line fs) = fs.
Proof. unfold print. by destruct (os (Print line)). Qed.

Lemma maintains_makedirs (P : FS → Prop) (os : system) (dir : string) :
  (∀ fs d, d ∈ parents dir ++ [dir] → P fs → P (mkdir_missing fs d)) →
  maintains P (makedirs os dir).
Proof.
  intros Hstep fs HP. unfold makedirs, raise, final.
  destruct (bool_decide (is_Some (fs !! dir))); [done|].
  destruct (mkdir_error fs (parents dir ++ [dir])); [done|].
  destruct (os (MakeDirs dir)); [done|]. cbn [fst snd].
  revert fs HP. induction (parents dir ++ [dir]) as [|d l IH]; intros fs HP; [done|].
  simpl. apply IH.
  - intros fs' d' Hd'. apply Hstep. by right.
  - apply Hstep; [left|done].
Qed.

Lemma maintains_to_csv (P : FS → Prop) (os : system) (df : DataFrame) (p : path) :
  (∀ fs e, is_Some (fs !! p.1) → P fs → P (<[p.1 := e]> fs)) →
  maintains P (to_csv os df p).
Proof.
  intros Hstep fs HP. unfold to_csv, raise, final.
  destruct (fs !! p.1) as [entries|] eqn:Hdir; [|done].
  destruct (bool_decide (is_Some (fs !! path_str p))); [done|].
  destruct (os (Write (path_str p))); [done|]. cbn [fst snd].
  apply Hstep; [|done]. rewrite Hdir. by eexists.
Qed.

Lemma maintains_convert_file (P : FS → Prop) (os : system) (out : string) (f : path) :
  (∀ fs e, is_Some (fs !! out) → P fs → P (<[out := e]> fs)) →
  maintains P (convert_file os out f).
Proof.
  intros Hstep. unfold convert_file.
  apply maintains_bind; [by apply maintains_still|]. intros df.
  apply maintains_bind; [by apply maintains_to_csv|]. intros _.
  apply maintains_still, final_print.
Qed.

Lemma maintains_convert_folder (P : FS → Prop) (os : system) (folder : string) :
  folder ∈ folders →
  (∀ fs d, d ∈ [OUTPUT_ROOT; output_path folder] → P fs → P (mkdir_missing fs d)) →
  (∀ fs e, is_Some (fs !! output_path folder) → P fs →
           P (<[output_path folder := e]> fs)) →
  maintains P (convert_folder os folder).
Proof.
  intros Hfolder Hmk Hwrite. unfold convert_folder. fold (output_path folder).
  apply maintains_bind.
  { apply maintains_makedirs. by rewrite (parents_output_path folder Hfolder). }
  intros _. apply maintains_bind; [by apply maintains_still|]. intros files.
  apply maintains_for_each. intros f _. by apply maintains_convert_file.
Qed.

Lemma maintains_converter (P : FS → Prop) (os : system) :
  (∀ fs d, d ∈ output_dirs → P fs → P (mkdir_missing fs d)) →
  (∀ fs folder e, folder ∈ folders → is_Some (fs !! output_path folder) → P fs →
                  P (<[output_path folder := e]> fs)) →
  maintains P (converter os).
Proof.
  intros Hmk Hwrite. unfold converter. apply maintains_bind.
  { apply maintains_makedirs. rewrite parents_output_root.
    intros fs d Hd%list_elem_of_singleton. subst d. apply Hmk. left. }
  intros _. apply maintains_bind; [|intros _; apply maintains_still, final_print].
  apply maintains_for_each. intros folder Hfolder.
  apply maintains_convert_folder; [done|..].
  - intros fs d Hd. apply Hmk.
    apply elem_of_cons in Hd as [->|Hd%list_elem_of_singleton]; [left|].
    subst d. by apply output_path_is_output.
  - intros fs e. by apply Hwrite.
Qed.

(** Nothing changes outside the output directories. *)
Lemma mkdir_missing_other (fs : FS) (d k : string) :
  k ≠ d → mkdir_missing fs d !! k = fs !! k.
Proof.
  intros Hne. unfold mkdir_missing, FS in *.
  destruct (fs !! d); [done|]. by rewrite lookup_insert_ne.
Qed.

Lemma converter_outside (os : system) (fs : FS) (dir : string) :
  dir ∉ output_dirs → final (converter os fs) !! dir = fs !! dir.
Proof.
  intros Hout.
  apply (maintains_converter (λ s, s !! dir = fs !! dir) os); [..|done].
  - intros s d Hd Hs. rewrite mkdir_missing_other; [done|]. by intros ->.
  - intros s folder e Hfolder _ Hs. unfold FS in *.
    rewrite lookup_insert_ne; [done|]. intros <-.
    by apply Hout, output_path_is_output.
Qed.

(** *** The disk during a run *)

Lemma grown_refl (pending : list string) (fs : FS) : grown pending fs fs.
Proof. split; [done|]. split; [by left|done]. Qed.

Lemma grown_weaken (pending pending' : list string) (fs s : FS) :
  (∀ x, x ∈ pending' → x ∈ pending) → grown pending fs s → grown pending' fs s.
Proof.
  intros Hsub (Hsame & Hroot & Hmono). split; [|done].
  intros k [Hk|Hk]; apply Hsame; [by left|right].
  apply list_elem_of_fmap in Hk as (x & -> & Hx).
  apply list_elem_of_fmap. exists x. split; [done|by apply Hsub].
Qed.

Lemma grown_outside (pending : list string) (fs s : FS) (k : string) :
  grown pending fs s → k ∉ output_dirs → s !! k = fs !! k.
Proof. intros (Hsame & _) Hk. apply Hsame. by left. Qed.

Lemma grown_pending (pending : list string) (fs s : FS) (folder : string) :
  grown pending fs s → folder ∈ pending →
  s !! output_path folder = fs !! output_path folder.
Proof.
  intros (Hsame & _) Hin. apply Hsame. right.
  apply list_elem_of_fmap. by exists folder.
Qed.

Lemma grown_insert (pending : list string) (fs s : FS) (d : string)
    (e : gmap string stored) :
  d ∈ output_dirs → d ∉ output_path <$> pending →
  (d = OUTPUT_ROOT → s !! d = None ∧ e = ∅) →
  grown pending fs s → grown pending fs (<[d := e]> s).
Proof.
  intros Hd Hfree Hroot (Hsame & Hmade & Hmono).
  split; [|split]; unfold FS in *.
  - intros k Hk. rewrite lookup_insert_ne; [by apply Hsame|].
    intros <-. by destruct Hk.
  - destruct (decide (d = OUTPUT_ROOT)) as [->|Hne].
    + destruct (Hroot eq_refl) as [Hnone ->]. right.
      rewrite lookup_insert_eq. split; [|done].
      destruct Hmade as [<-|[_ Hsome]]; [done|]. by rewrite Hnone in Hsome.
    + by rewrite lookup_insert_ne.
  - intros k Hk. destruct (decide (k = d)) as [->|Hne].
    + rewrite lookup_insert_eq. by eexists.
    + rewrite lookup_insert_ne by done. by apply Hmono.
Qed.

Lemma grown_mkdir_missing (pending : list string) (fs s : FS) (d : string) :
  d ∈ output_dirs → d ∉ output_path <$> pending →
  grown pending fs s → grown pending fs (mkdir_missing s d).
Proof.
  intros Hd Hfree Hgrown. unfold mkdir_missing.
  destruct (s !! d) eqn:Hs; [done|]. by apply grown_insert.
Qed.

Lemma output_root_not_pending (pending : list string) :
  (∀ x, x ∈ pending → x ∈ folders) → OUTPUT_ROOT ∉ output_path <$> pending.
Proof.
  intros Hsub (x & Heq & Hx)%list_elem_of_fmap.
  by apply (output_path_not_root x (Hsub x Hx)).
Qed.

Lemma output_path_not_pending (pending : list string) (folder : string) :
  (∀ x, x ∈ pending → x ∈ folders) → folder ∈ folders → folder ∉ pending →
  output_path folder ∉ output_path <$> pending.
Proof.
  intros Hsub Hfolder Hout (x & Heq & Hx)%list_elem_of_fmap.
  apply Hout. by rewrite (output_path_inj folder x Hfolder (Hsub x Hx) Heq).
Qed.

Lemma grown_makedirs_root (os : system) (pending : list string) (fs : FS) :
  (∀ x, x ∈ pending → x ∈ folders) →
  maintains (grown pending fs) (makedirs os OUTPUT_ROOT).
Proof.
  intros Hsub. apply maintains_makedirs. rewrite parents_output_root.
  intros s d Hd%list_elem_of_singleton. subst d.
  apply grown_mkdir_missing; [left|by apply output_root_not_pending].
Qed.

Lemma grown_makedirs (os : system) (pending : list string) (fs : FS) (folder : string) :
  (∀ x, x ∈ pending → x ∈ folders) → folder ∈ folders → folder ∉ pending →
  maintains (grown pending fs) (makedirs os (output_path folder)).
Proof.
  intros Hsub Hfolder Hout. apply maintains_makedirs.
  rewrite (parents_output_path folder Hfolder).
  intros s d Hd. apply grown_mkdir_missing.
  - apply elem_of_cons in Hd as [->|Hd%list_elem_of_singleton]; [left|].
    subst d. by apply output_path_is_output.
  - apply elem_of_cons in Hd as [->|Hd%list_elem_of_singleton].
    + by apply output_root_not_pending.
    + subst d. by apply output_path_not_pending.
Qed.

Lemma grown_convert_folder (os : system) (pending : list string) (fs : FS)
    (folder : string) :
  (∀ x, x ∈ pending → x ∈ folders) → folder ∈ folders → folder ∉ pending →
  maintains (grown pending fs) (convert_folder os folder).
Proof.
  intros Hsub Hfolder Hout. apply maintains_convert_folder; [done|..].
  - intros s d Hd. apply grown_mkdir_missing.
    + apply elem_of_cons in Hd as [->|Hd%list_elem_of_singleton]; [left|].
      subst d. by apply output_path_is_output.
    + apply elem_of_cons in Hd as [->|Hd%list_elem_of_singleton].
      * by apply output_root_not_pending.
      * subst d. by apply output_path_not_pending.
  - intros s e _. apply grown_insert.
    + by apply output_path_is_output.
    + by apply output_path_not_pending.
    + intros Heq. by destruct (output_path_not_root folder Hfolder).
Qed.

Lemma grown_converter (os : system) (fs : FS) :
  grown [] fs (final (converter os fs)).
Proof.
  apply (maintains_converter (grown [] fs) os); [..|apply grown_refl].
  - intros s d Hd. apply grown_mkdir_missing; [done|apply not_elem_of_nil].
  - intros s folder e Hfolder _. apply grown_insert.
    + by apply output_path_is_output.
    + apply not_elem_of_nil.
    + intros Heq. by destruct (output_path_not_root folder Hfolder).
Qed.

(** A regular file stands in the way of an output directory during the run
    exactly when it did at the start. *)
Lemma is_file_grown (pending : list string) (fs s : FS) (d : string) :
  grown pending fs s → d ∈ output_dirs → is_file s d = is_file fs d.
Proof.
  intros Hgrown Hd. unfold is_file.
  assert (lookup_file s (split_path d) = lookup_file fs (split_path d)) as ->;
    [|done].
  apply elem_of_cons in Hd as [->|Hd].
  - rewrite split_output_root. unfold lookup_file. cbn [fst snd].
    by rewrite (grown_outside _ _ _ _ Hgrown working_directory_not_output).
  - apply list_elem_of_fmap in Hd as (folder & -> & Hfolder).
    rewrite (split_output_path folder Hfolder). unfold lookup_file. cbn [fst snd].
    destruct Hgrown as (_ & [->|[-> ->]] & _); [done|]. done.
Qed.

Lemma mkdir_error_grown (pending : list string) (fs s : FS) (d : string) :
  grown pending fs s → d ∈ output_dirs →
  mkdir_error s (parents d ++ [d]) = mkdir_error fs (parents d ++ [d]).
Proof.
  intros Hgrown Hd.
  assert (∀ l, (∀ x, x ∈ l → x ∈ output_dirs) → mkdir_error s l = mkdir_error fs l)
    as Hall.
  { induction l as [|p l IH]; intros Hl; [done|]. simpl.
    rewrite (is_file_grown pending fs s p Hgrown) by (apply Hl; left).
    rewrite IH; [done|]. intros x Hx. apply Hl. by right. }
  apply Hall. intros x Hx. apply elem_of_cons in Hd as [->|Hd].
  - rewrite parents_output_root in Hx. apply list_elem_of_singleton in Hx as ->. left.
  - apply list_elem_of_fmap in Hd as (folder & -> & Hfolder).
    rewrite (parents_output_path folder Hfolder) in Hx.
    apply elem_of_cons in Hx as [->|Hx%list_elem_of_singleton]; [left|].
    subst x. by apply output_path_is_output.
Qed.

Lemma makeable_grown (os : system) (pending : list string) (fs s : FS) (d : string) :
  grown pending fs s → d ∈ output_dirs → makeable os fs d → makeable os s d.
Proof.
  intros Hgrown Hd [Hthere|[Herr Hos]].
  - left. destruct Hgrown as (_ & _ & Hmono). by apply Hmono.
  - right. by rewrite (mkdir_error_grown pending fs s d).
Qed.

Lemma makeable_pending (os : system) (pending : list string) (fs s : FS)
    (folder : string) :
  grown pending fs s → folder ∈ folders → folder ∈ pending →
  makeable os s (output_path folder) → makeable os fs (output_path folder).
Proof.
  intros Hgrown Hfolder Hin [Hthere|[Herr Hos]].
  - left. by rewrite <- (grown_pending pending fs s folder).
  - right. rewrite <- (mkdir_error_grown pending fs s); [done..|].
    by apply output_path_is_output.
Qed.

(** *** Making a directory *)

Lemma mkdir_missing_there (fs : FS) (d : string) : is_Some (mkdir_missing fs d !! d).
Proof.
  unfold mkdir_missing, FS in *. destruct (fs !! d) eqn:H; [by rewrite H|].
  rewrite lookup_insert_eq. by eexists.
Qed.

Lemma makedirs_run (os : system) (dir : string) (fs : FS) :
  makeable os fs dir →
  ∃ fs', makedirs os dir fs = (inr tt, fs', [MakeDirs dir]) ∧ is_Some (fs' !! dir).
Proof.
  intros Hmk. unfold makedirs.
  destruct (decide (is_Some (fs !! dir))) as [Hthere|Hnot].
  { rewrite bool_decide_eq_true_2 by done. by exists fs. }
  rewrite bool_decide_eq_false_2 by done.
  destruct Hmk as [Hthere|[-> ->]]; [done|].
  eexists. split; [done|]. rewrite foldl_app. apply mkdir_missing_there.
Qed.

Lemma makedirs_completed (os : system) (dir : string) (fs : FS) :
  result (makedirs os dir fs) = inr tt → makeable os fs dir.
Proof.
  unfold makedirs, makeable, raise, result.
  destruct (decide (is_Some (fs !! dir))) as [Hthere|Hnot]; [by left|].
  rewrite bool_decide_eq_false_2 by done.
  destruct (mkdir_error fs (parents dir ++ [dir])); [done|].
  destruct (os (MakeDirs dir)); [done|]. by right.
Qed.

(** *** Converting a spreadsheet *)

Lemma convert_file_unreadable (os : system) (out : string) (f : path) (fs : FS)
    (e : string) :
  read_excel_at fs f = inl e →
  convert_file os out f fs = (inl e, fs, [Read (path_str f)]).
Proof.
  intros H. unfold convert_file, mbind, script_bind, read_excel. by rewrite H.
Qed.

Lemma convert_file_completed (os : system) (out : string) (f : path) (fs : FS) :
  result (convert_file os out f fs) = inr tt →
  (∃ df, read_excel_at fs f = inr df) ∧ is_Some (fs !! out) ∧
  writable os fs (csv_file_of out f) ∧
  os (Print ("Converted: " +:+ path_str f)) = None.
Proof.
  unfold convert_file, mbind, script_bind, read_excel, to_csv, print, emit, raise,
    result, writable.
  destruct (read_excel_at fs f) as [e|df]; [done|]. cbn [fst snd csv_file_of].
  destruct (fs !! out) as [entries|]; [|done].
  change (join out (splitext_root f.2 +:+ ".csv"))
    with (path_str (csv_file_of out f)).
  destruct (fs !! path_str (csv_file_of out f)) as [dir|] eqn:Hfree.
  { rewrite bool_decide_eq_true_2 by (by eexists). done. }
  rewrite bool_decide_eq_false_2 by (by intros [? ?]).
  destruct (os (Write (path_str (csv_file_of out f)))); [done|].
  destruct (os (Print ("Converted: " +:+ path_str f))); [done|].
  intros _. split; [by eexists|]. split; [by eexists|]. done.
Qed.

Lemma convert_file_failed (os : system) (out : string) (f : path) (fs : FS)
    (e : string) :
  is_Some (fs !! out) → writable os fs (csv_file_of out f) →
  os (Print ("Converted: " +:+ path_str f)) = None →
  result (convert_file os out f fs) = inl e → read_excel_at fs f = inl e.
Proof.
  intros [entries Hout] Hfree Hprint.
  destruct (read_excel_at fs f) as [e'|df] eqn:Hread.
  - rewrite (convert_file_unreadable os out f fs e' Hread). by intros [= ->].
  - by rewrite (convert_file_run os fs out f df entries Hread Hout Hfree Hprint).
Qed.
(** *** One step after the other *)

Lemma convert_files_run (os : system) (out : string) (files : list path) (fs : FS) :
  is_Some (fs !! out) →
  (∀ f, f ∈ files →
        f.1 ≠ out ∧ path_str (csv_file_of out f) ≠ out ∧
        (∃ df, read_excel_at fs f = inr df) ∧
        writable os fs (csv_file_of out f) ∧
        os (Print ("Converted: " +:+ path_str f)) = None) →
  ∃ fs', for_each files (convert_file os out) fs
         = (inr tt, fs', files ≫= events_of_file out) ∧
         is_Some (fs' !! out).
Proof.
  revert fs. induction files as [|f files IH]; intros fs Hout Hfiles.
  - by exists fs.
  - destruct Hout as [entries Hout].
    destruct (Hfiles f) as (Hf & _ & [df Hread] & Hfree & Hprint); [by left|].
    pose proof (convert_file_run os fs out f df entries Hread Hout Hfree Hprint)
      as Hstep.
    set (fs1 := <[out := _]> fs) in Hstep.
    assert (∀ k, k ≠ out → fs1 !! k = fs !! k) as Hoff.
    { intros k Hk. unfold fs1, FS in *. by rewrite lookup_insert_ne. }
    destruct (IH fs1) as (fs' & Hrest & Hout').
    { unfold fs1, FS in *. rewrite lookup_insert_eq. by eexists. }
    { intros f' Hf'.
      destruct (Hfiles f') as (Hdir & Hne & [df' Hread'] & [Hfree' Hwrite'] & Hprint');
        [by right|].
      split; [done|]. split; [done|]. split; [|split; [split|]]; try done.
      - exists df'. rewrite (read_excel_at_agree fs fs1); [done|]. by apply Hoff.
      - by rewrite Hoff. }
    exists fs'. split; [|done].
    change (for_each (f :: files) (convert_file os out))
      with (convert_file os out f ≫= λ _, for_each files (convert_file os out)).
    rewrite (bind_run _ _ _ _ _ _ Hstep), Hrest. by rewrite bind_cons.
Qed.

(** What a folder needs for its spreadsheets to go through, on the disk at
    the start of the run. *)
Lemma found_at_start (pending : list string) (fs0 s : FS) (folder : string) :
  folder ∈ folders → grown pending fs0 s →
  glob_match s (input_path folder) ".xlsx" = excel_files fs0 folder ∧
  ∀ f, f ∈ excel_files fs0 folder →
       f.1 ≠ output_path folder ∧
       path_str (csv_file_of (output_path folder) f) ≠ output_path folder ∧
       read_excel_at s f = read_excel_at fs0 f ∧
       s !! path_str (csv_file_of (output_path folder) f)
       = fs0 !! path_str (csv_file_of (output_path folder) f).
Proof.
  intros Hfolder Hgrown.
  pose proof (input_path_not_output folder Hfolder) as Hin.
  pose proof (output_path_is_output folder Hfolder) as Hout.
  split.
  { apply glob_match_agree. by apply (grown_outside pending). }
  intros f Hf. apply glob_match_dir in Hf as Hdir.
  split; [|split; [|split]].
  - rewrite Hdir. by intros Heq; rewrite Heq in Hin.
  - intros Heq. apply (csv_file_not_output (output_path folder) f).
    by rewrite Heq.
  - apply read_excel_at_agree. rewrite Hdir. by apply (grown_outside pending).
  - apply (grown_outside pending); [done|]. apply csv_file_not_output.
Qed.

Lemma convert_folder_run (os : system) (fs0 s : FS) (folder : string) :
  folder ∈ folders → grown [] fs0 s →
  makeable os fs0 (output_path folder) →
  (∀ f, f ∈ excel_files fs0 folder →
        (∃ df, read_excel_at fs0 f = inr df) ∧
        writable os fs0 (csv_file_of (output_path folder) f) ∧
        os (Print ("Converted: " +:+ path_str f)) = None) →
  ∃ s', convert_folder os folder s = (inr tt, s', events_of_folder fs0 folder) ∧
        grown [] fs0 s' ∧ is_Some (s' !! output_path folder).
Proof.
  intros Hfolder Hgrown Hmake Hfiles.
  pose proof (output_path_is_output folder Hfolder) as Hout.
  destruct (makedirs_run os (output_path folder) s) as (s1 & Hmk & Hthere).
  { by apply (makeable_grown os [] fs0). }
  assert (grown [] fs0 s1) as Hgrown1.
  { pose proof (grown_makedirs os [] fs0 folder) as Hm.
    specialize (Hm (λ x Hx, False_ind _ (proj1 (elem_of_nil x) Hx)) Hfolder
                   (proj1 (elem_of_nil folder)) s Hgrown).
    by rewrite Hmk in Hm. }
  destruct (found_at_start [] fs0 s1 folder Hfolder Hgrown1) as [Hglob Hfound].
  destruct (convert_files_run os (output_path folder) (excel_files fs0 folder) s1)
    as (s' & Hloop & Hthere'); [done|..].
  { intros f Hf. destruct (Hfound f Hf) as (Hdir & Hne & Hread & Hkey).
    destruct (Hfiles f Hf) as ([df Hdf] & [Hfree Hwrite] & Hprint).
    split; [done|]. split; [done|]. split; [|split; [split|]]; try done.
    - exists df. by rewrite Hread.
    - by rewrite Hkey. }
  assert (convert_folder os folder s = (inr tt, s', events_of_folder fs0 folder))
    as Hrun.
  { unfold convert_folder. fold (input_path folder) (output_path folder).
    rewrite (bind_run _ _ _ _ _ _ Hmk).
    unfold mbind at 1, script_bind, glob. rewrite Hglob, Hloop. done. }
  exists s'. split; [done|]. split; [|done].
  pose proof (grown_convert_folder os [] fs0 folder) as Hm.
  specialize (Hm (λ x Hx, False_ind _ (proj1 (elem_of_nil x) Hx)) Hfolder
                 (proj1 (elem_of_nil folder)) s Hgrown).
  by rewrite Hrun in Hm.
Qed.

Lemma directory_stays (os : system) (folder k : string) :
  folder ∈ folders → maintains (λ s, is_Some (s !! k)) (convert_folder os folder).
Proof.
  intros Hfolder. apply maintains_convert_folder; [done|..].
  - intros s d _ [v Hv]. destruct (decide (k = d)) as [<-|Hne].
    + apply mkdir_missing_there.
    + rewrite mkdir_missing_other by done. by eexists.
  - intros s e _ [v Hv]. unfold FS in *.
    destruct (decide (k = output_path folder)) as [->|Hne].
    + rewrite lookup_insert_eq. by eexists.
    + rewrite lookup_insert_ne by done. by eexists.
Qed.

Lemma convert_folders_run (os : system) (fs0 : FS) (fl : list string) (s : FS) :
  (∀ folder, folder ∈ fl → folder ∈ folders) →
  grown [] fs0 s → all_readable fs0 → unhindered os fs0 →
  ∃ s', for_each fl (convert_folder os) s
        = (inr tt, s', fl ≫= events_of_folder fs0) ∧
        grown [] fs0 s' ∧
        ∀ folder, folder ∈ fl → is_Some (s' !! output_path folder).
Proof.
  intros Hfl Hgrown Hreadable (Hmake & Hserved & _). revert s Hfl Hgrown.
  induction fl as [|folder fl IH]; intros s Hfl Hgrown.
  - exists s. split; [done|]. split; [done|]. by intros folder ?%elem_of_nil.
  - assert (folder ∈ folders) as Hfolder by (apply Hfl; left).
    destruct (convert_folder_run os fs0 s folder) as (s1 & Hstep & Hgrown1 & Hout1);
      [done..| | |].
    { by apply Hmake, output_path_is_output. }
    { intros f Hf. split; [by apply (Hreadable folder)|by apply Hserved]. }
    destruct (IH s1) as (s' & Hrest & Hgrown' & Hout');
      [by intros f Hf; apply Hfl; right|done|].
    exists s'. split; [|split; [done|]].
    + change (for_each (folder :: fl) (convert_folder os))
        with (convert_folder os folder ≫= λ _, for_each fl (convert_folder os)).
      rewrite (bind_run _ _ _ _ _ _ Hstep), Hrest. by rewrite bind_cons.
    + intros f [->|Hf]%elem_of_cons; [|by apply Hout'].
      assert (maintains (λ s2, is_Some (s2 !! output_path folder))
                (for_each fl (convert_folder os))) as Hkeep.
      { apply maintains_for_each. intros x Hx.
        apply directory_stays, Hfl. by right. }
      specialize (Hkeep s1 Hout1). by rewrite Hrest in Hkeep.
Qed.

(** When every spreadsheet found can be read and nothing hinders the run,
    the whole script ends normally, and its calls are those of the folders,
    one folder after the other, as found on the disk at the start. *)
Lemma converter_run (os : system) (fs : FS) :
  all_readable fs → unhindered os fs →
  ∃ fs', converter os fs = (inr tt, fs', calls fs) ∧
         ∀ folder, folder ∈ folders → is_Some (fs' !! output_path folder).
Proof.
  intros Hreadable Hfree. pose proof Hfree as (Hmake & _ & Hlast).
  destruct (makedirs_run os OUTPUT_ROOT fs) as (fs1 & Hmk & _);
    [apply Hmake; left|].
  assert (grown [] fs fs1) as Hgrown.
  { pose proof (grown_makedirs_root os [] fs
                  (λ x Hx, False_ind _ (proj1 (elem_of_nil x) Hx)) fs
                  (grown_refl [] fs)) as Hm.
    by rewrite Hmk in Hm. }
  destruct (convert_folders_run os fs folders fs1) as (fs' & Hloop & _ & Hout);
    [done..|].
  exists fs'. split; [|done].
  unfold converter. rewrite (bind_run _ _ _ _ _ _ Hmk).
  rewrite (bind_run _ _ _ _ _ _ Hloop).
  unfold print. fold all_converted. by rewrite Hlast.
Qed.

Lemma writes_of_app (t u : list event) :
  writes_of (t ++ u) = writes_of t ++ writes_of u.
Proof. apply omap_app. Qed.

Lemma writes_of_folder (fs : FS) (folder : string) :
  writes_of (events_of_folder fs folder) = written_for fs folder.
Proof.
  unfold events_of_folder, written_for.
  change (writes_of (MakeDirs ?a :: Glob ?b :: ?t)) with (writes_of t).
  induction (excel_files fs folder) as [|f files IH]; [done|].
  rewrite bind_cons, writes_of_app, IH. done.
Qed.

Lemma writes_of_folders (fs : FS) (fl : list string) :
  writes_of (fl ≫= events_of_folder fs) = fl ≫= written_for fs.
Proof.
  induction fl as [|folder fl IH]; [done|].
  by rewrite !bind_cons, writes_of_app, writes_of_folder, IH.
Qed.

(** Checking on a given disk that every spreadsheet found can be read, and
    that nothing stands in the way of a run on a system that refuses
    nothing. *)
Lemma all_readable_check (fs : FS) :
  forallb (λ folder,
             forallb (λ f, match read_excel_at fs f with
                           | inr _ => true
                           | inl _ => false
                           end) (excel_files fs folder)) folders = true →
  all_readable fs.
Proof.
  intros Hall folder f Hfolder Hf. rewrite forallb_forall in Hall.
  specialize (Hall folder (proj1 (list_elem_of_In _ _) Hfolder)).
  rewrite forallb_forall in Hall.
  specialize (Hall f (proj1 (list_elem_of_In _ _) Hf)).
  destruct (read_excel_at fs f) as [e|df]; [done|by exists df].
Qed.

Lemma unhindered_check (fs : FS) :
  forallb (λ d, bool_decide (is_Some (fs !! d))
                || bool_decide (mkdir_error fs (parents d ++ [d]) = None))
          output_dirs = true →
  forallb (λ folder,
             forallb (λ f, negb (bool_decide
                                   (is_Some (fs !! path_str
                                               (csv_file_of (output_path folder) f)))))
                     (excel_files fs folder)) folders = true →
  unhindered willing fs.
Proof.
  intros Hdirs Hfiles. split; [|split; [|done]].
  - intros d Hd. rewrite forallb_forall in Hdirs.
    specialize (Hdirs d (proj1 (list_elem_of_In _ _) Hd)).
    apply orb_true_iff in Hdirs as [Hthere|Herr].
    + left. by apply bool_decide_eq_true_1 in Hthere.
    + right. by apply bool_decide_eq_true_1 in Herr.
  - intros folder f Hfolder Hf. rewrite forallb_forall in Hfiles.
    specialize (Hfiles folder (proj1 (list_elem_of_In _ _) Hfolder)).
    rewrite forallb_forall in Hfiles.
    specialize (Hfiles f (proj1 (list_elem_of_In _ _) Hf)).
    apply negb_true_iff, bool_decide_eq_false_1 in Hfiles.
    split; [split|]; [|done..].
    destruct (fs !! path_str (csv_file_of (output_path folder) f)) eqn:Hk; [|done].
    destruct Hfiles. by eexists.
Qed.

(** C10, as stated, fails when another folder of the list holds a
    spreadsheet that cannot be read: the script stops there with the
    exception, before it gets to the folder without spreadsheets, whose
    output directory is then never made. *)
Lemma converter_stops_before_empty_folder :
  let folder := "api_data_aadhar_demographic" in
  let run := converter willing disk_damaged in
  folder ∈ folders ∧
  (∀ name, name ∈ listdir disk_damaged (input_path folder) →
           ends_with ".xlsx" name = false) ∧
  result run = inl "File is not a zip file" ∧
  final run !! output_path folder = None ∧
  MakeDirs (output_path folder) ∉ trace run.
Proof.
  intros folder run.
  split; [right; left|]. split; [|split; [|split]].
  - assert (listdir disk_damaged (input_path folder) = []) as ->
      by (vm_compute; reflexivity).
    by intros name Hname%elem_of_nil.
  - vm_compute. reflexivity.
  - vm_compute. reflexivity.
  - assert (trace run
            = [ MakeDirs "data_csv_converted";
                MakeDirs "data_csv_converted/api_data_aadhar_enrolment";
                Glob "api_data_aadhar_enrolment/*.xlsx";
                Read "api_data_aadhar_enrolment/bad.xlsx" ]) as ->
      by (vm_compute; reflexivity).
    intros H. apply list_elem_of_In in H. simpl in H.
    repeat (destruct H as [H|H]; [discriminate H|]). destruct H.
Qed.

(** With every spreadsheet readable, the run still stops when a regular
    file stands where the output root is to be, when a directory stands
    where a converted file is to go, when the system lets no directory be
    made, and when the console cannot show the last line. *)
Example converter_blocked_root :
  all_readable disk_blocked_root ∧
  converter willing disk_blocked_root
  = (inl "[Errno 17] File exists: 'data_csv_converted'", disk_blocked_root, []).
Proof.
  split; [apply all_readable_check|]; vm_compute; reflexivity.
Qed.

Example converter_blocked_file :
  all_readable disk_blocked_file ∧
  result (converter willing disk_blocked_file)
  = inl "[Errno 21] Is a directory: 'data_csv_converted/api_data_aadhar_enrolment/counts.csv'" ∧
  trace (converter willing disk_blocked_file)
  = [ MakeDirs "data_csv_converted";
      MakeDirs "data_csv_converted/api_data_aadhar_enrolment";
      Glob "api_data_aadhar_enrolment/*.xlsx";
      Read "api_data_aadhar_enrolment/counts.xlsx" ].
Proof.
  split; [apply all_readable_check|split]; vm_compute; reflexivity.
Qed.

Example converter_read_only :
  converter read_only disk_mixed
  = (inl "[Errno 13] Permission denied: 'data_csv_converted'", disk_mixed, []).
Proof. vm_compute. reflexivity. Qed.

Example converter_narrow_console :
  result (converter narrow_console disk_mixed)
  = inl "'charmap' codec can't encode character '\u2705' in position 0: character maps to <undefined>" ∧
  writes_of (trace (converter narrow_console disk_mixed))
  = ["data_csv_converted/api_data_aadhar_enrolment/counts.csv"].
Proof. split; vm_compute; reflexivity. Qed.

(** C10 (amended): for a folder of the list whose input directory does not
    exist or lists no name ending in ".xlsx", provided every spreadsheet
    found in the listed folders can be read and nothing hinders the run
    (no regular file stands where an output directory is to be, no
    directory where a converted file is to go, and the system refuses no
    call), the script ends normally, the output directory of the folder
    has been made, and no file has been written for it: the files written
    are, folder by folder, one per spreadsheet found, and none was found
    for this folder. *)
Theorem converter_folder_without_spreadsheets (os : system) (fs : FS)
    (folder : string) :
  folder ∈ folders →
  (∀ name, name ∈ listdir fs (input_path folder) → ends_with ".xlsx" name = false) →
  all_readable fs → unhindered os fs →
  let run := converter os fs in
  result run = inr tt ∧
  is_Some (final run !! output_path folder) ∧
  MakeDirs (output_path folder) ∈ trace run ∧
  writes_of (trace run) = folders ≫= written_for fs ∧
  written_for fs folder = [].
Proof.
  intros Hfolder Hnone Hreadable Hfree run. subst run.
  destruct (converter_run os fs Hreadable Hfree) as (fs' & -> & Hout).
  unfold result, final, trace, calls. cbn [fst snd].
  split; [done|]. split; [by apply Hout|]. split; [|split].
  - right. apply elem_of_app. left. apply list_elem_of_bind.
    exists folder. split; [left|done].
  - change (writes_of (MakeDirs ?a :: ?t)) with (writes_of t).
    rewrite writes_of_app, writes_of_folders. apply app_nil_r.
  - unfold written_for, excel_files. by rewrite glob_match_none.
Qed.

Lemma converter_folder_without_spreadsheets_witness :
  let folder := "api_data_aadhar_demographic" in
  let run := converter willing disk_mixed in
  folder ∈ folders ∧
  (∀ name, name ∈ listdir disk_mixed (input_path folder) →
           ends_with ".xlsx" name = false) ∧
  all_readable disk_mixed ∧ unhindered willing disk_mixed ∧
  result run = inr tt ∧
  is_Some (final run !! output_path folder) ∧
  MakeDirs (output_path folder) ∈ trace run ∧
  writes_of (trace run) = folders ≫= written_for disk_mixed ∧
  written_for disk_mixed folder = [].
Proof.
  intros folder run.
  assert (folder ∈ folders) as H1 by (right; left).
  assert (∀ name, name ∈ listdir disk_mixed (input_path folder) →
                  ends_with ".xlsx" name = false) as H2.
  { assert (listdir disk_mixed (input_path folder) = ["notes.XLSX"]) as ->
      by (vm_compute; reflexivity).
    intros name Hname. apply list_elem_of_In in Hname.
    destruct Hname as [<-|[]]. vm_compute. reflexivity. }
  assert (all_readable disk_mixed) as H3
    by (apply all_readable_check; vm_compute; reflexivity).
  assert (unhindered willing disk_mixed) as H4
    by (apply unhindered_check; vm_compute; reflexivity).
  split; [exact H1|]. split; [exact H2|]. split; [exact H3|]. split; [exact H4|].
  exact (converter_folder_without_spreadsheets willing disk_mixed folder H1 H2 H3 H4).
Defined.

(** * Further properties of the views *)

(** ** The order of group keys *)

Lemma value_le_num (x y : Z) : value_le (VNum x) (VNum y) ↔ (x ≤ y)%Z.
Proof. unfold value_le. simpl. by rewrite Is_true_true, Z.leb_le. Qed.

Lemma value_le_str (s u : string) : value_le (VStr s) (VStr u) ↔ String.le s u.
Proof. done. Qed.

#[global] Instance value_le_total : Total value_le.
Proof.
  intros [x|s] [y|u].
  - rewrite !value_le_num. lia.
  - by left.
  - by right.
  - rewrite !value_le_str. apply (total String.le).
Qed.

#[global] Instance value_le_trans : Transitive value_le.
Proof.
  intros [x|s] [y|u] [z|w]; try done.
  - rewrite !value_le_num. lia.
  - rewrite !value_le_str. apply (transitivity (R := String.le)).
Qed.

#[global] Instance value_le_antisym : AntiSymm (=) value_le.
Proof.
  intros [x|s] [y|u]; try done.
  - rewrite !value_le_num. intros. f_equal. lia.
  - rewrite !value_le_str. intros. f_equal. by apply (anti_symm String.le).
Qed.

#[global] Instance key_le_total : Total key_le.
Proof. intros x y. apply (total value_le). Qed.

#[global] Instance key_le_trans : Transitive key_le.
Proof. intros x y z. apply (transitivity (R := value_le)). Qed.

(** ** The grouped count: order, totals, independence of the row order *)

Lemma sum_list_tally (k : value) (acc : list (value * nat)) :
  sum_list (tally k acc).*2 = S (sum_list acc.*2).
Proof.
  induction acc as [|[k' n] acc IH]; [done|]. simpl.
  destruct (decide (k = k')); simpl; [done|].
  transitivity (n + S (sum_list acc.*2))%nat; [f_equal; exact IH|].
  apply Nat.add_succ_r.
Qed.

Lemma sum_list_tally_rows (g : string) (rs : list (gmap string value))
    (acc : list (value * nat)) :
  sum_list (foldl (tally_row g) acc rs).*2
  = (sum_list acc.*2 + length (with_value g rs))%nat.
Proof.
  revert acc. induction rs as [|r rs IH]; intros acc.
  - unfold with_value. simpl. lia.
  - change (foldl (tally_row g) acc (r :: rs))
      with (foldl (tally_row g) (tally_row g acc r) rs).
    rewrite IH. unfold with_value, tally_row. rewrite filter_cons.
    destruct (r !! g) as [k|] eqn:Hr.
    + rewrite decide_True by (by eexists). rewrite sum_list_tally. simpl. lia.
    + rewrite decide_False by (by intros [? [=]]). done.
Qed.

Lemma groupby_size_sum (g : string) (rs : list (gmap string value)) :
  sum_list (groupby_size g rs).*2 = length (with_value g rs).
Proof.
  unfold groupby_size. rewrite merge_sort_Permutation.
  by rewrite sum_list_tally_rows.
Qed.

Lemma groupby_size_StronglySorted (g : string) (rs : list (gmap string value)) :
  StronglySorted key_le (groupby_size g rs).
Proof. unfold groupby_size. apply StronglySorted_merge_sort; apply _. Qed.

(** X1: whenever the regional count returns a list, its counts add up to
    the number of rows chosen by the filter that hold a group value: every
    such row is counted once, and a row without a group value in none of
    the groups. *)
Theorem countByGroup_adds_up (df : DataFrame) (g f : string)
    (selected : option value) (r : list (value * nat)) :
  countByGroup df g f selected = Summary r →
  sum_list r.*2 = length (with_value g (select_rows f selected (rows df))).
Proof.
  unfold countByGroup. destruct (empty df || _ || _); [done|].
  intros [= <-]. apply groupby_size_sum.
Qed.

Lemma countByGroup_adds_up_witness :
  district_summary table_regions (Some (VStr "X"))
  = Summary [(VStr "A", 1%nat); (VStr "B", 2%nat)] ∧
  sum_list [(VStr "A", 1%nat); (VStr "B", 2%nat)].*2
  = length (with_value "district"
              (select_rows "state" (Some (VStr "X")) (rows table_regions))).
Proof.
  assert (district_summary table_regions (Some (VStr "X"))
          = Summary [(VStr "A", 1%nat); (VStr "B", 2%nat)]) as H
    by (vm_compute; reflexivity).
  split; [exact H|].
  exact (countByGroup_adds_up table_regions "district" "state" (Some (VStr "X"))
           [(VStr "A", 1%nat); (VStr "B", 2%nat)] H).
Defined.

(** X2: whenever the regional count returns a list, the groups are listed
    in ascending order of their values and no group comes twice. *)
Theorem countByGroup_sorted (df : DataFrame) (g f : string)
    (selected : option value) (r : list (value * nat)) :
  countByGroup df g f selected = Summary r →
  StronglySorted key_le r ∧ NoDup r.*1.
Proof.
  unfold countByGroup. destruct (empty df || _ || _); [done|].
  intros [= <-]. split; [apply groupby_size_StronglySorted|apply groupby_size_spec].
Qed.

Lemma countByGroup_sorted_witness :
  district_summary table_regions (Some (VStr "X"))
  = Summary [(VStr "A", 1%nat); (VStr "B", 2%nat)] ∧
  StronglySorted key_le [(VStr "A", 1%nat); (VStr "B", 2%nat)] ∧
  NoDup [(VStr "A", 1%nat); (VStr "B", 2%nat)].*1.
Proof.
  assert (district_summary table_regions (Some (VStr "X"))
          = Summary [(VStr "A", 1%nat); (VStr "B", 2%nat)]) as H
    by (vm_compute; reflexivity).
  split; [exact H|].
  exact (countByGroup_sorted table_regions "district" "state" (Some (VStr "X"))
           [(VStr "A", 1%nat); (VStr "B", 2%nat)] H).
Defined.

Lemma groupby_size_NoDup (g : string) (rs : list (gmap string value)) :
  NoDup (groupby_size g rs).
Proof. eapply NoDup_fmap_1, groupby_size_spec. Qed.

(** The grouped count does not depend on the order of the rows. *)
Lemma groupby_size_Permutation (g : string) (rs rs' : list (gmap string value)) :
  rs ≡ₚ rs' → groupby_size g rs = groupby_size g rs'.
Proof.
  intros Hperm.
  assert (∀ key, length (filter (λ r : gmap string value, r !! g = Some key) rs)
                 = length (filter (λ r : gmap string value, r !! g = Some key) rs'))
    as Hlen by (intros key; by rewrite Hperm).
  apply (StronglySorted_unique_strong key_le).
  - intros [k1 n1] [k2 n2] H1 H2 Hle Hge.
    apply groupby_size_spec in H1 as [_ ->].
    apply groupby_size_spec in H2 as [_ ->].
    assert (k1 = k2) as -> by (by apply (anti_symm value_le)).
    by rewrite Hlen.
  - apply groupby_size_StronglySorted.
  - apply groupby_size_StronglySorted.
  - apply NoDup_Permutation; [apply groupby_size_NoDup..|].
    intros [k n]. destruct (groupby_size_spec g rs) as [_ ->].
    destruct (groupby_size_spec g rs') as [_ ->]. by rewrite Hlen.
Qed.

Lemma empty_same_rows (df df' : DataFrame) :
  same_rows df df' → empty df = empty df'.
Proof.
  intros [Hcols Hrows]. unfold empty. rewrite Hcols.
  destruct (columns df'); [done|].
  destruct (rows df) as [|r rs], (rows df') as [|r' rs']; try done.
  - by apply Permutation_nil_cons in Hrows.
  - symmetry in Hrows. by apply Permutation_nil_cons in Hrows.
Qed.

(** X3: the regional count is the same for two listings of one table: it
    does not depend on the order in which the rows were loaded. *)
Theorem countByGroup_same_rows (df df' : DataFrame) (g f : string)
    (selected : option value) :
  same_rows df df' →
  countByGroup df g f selected = countByGroup df' g f selected.
Proof.
  intros Hsame. unfold countByGroup.
  rewrite (empty_same_rows df df' Hsame). destruct Hsame as [<- Hrows].
  destruct (empty df' || _ || _); [done|]. f_equal.
  apply groupby_size_Permutation. unfold select_rows. by rewrite Hrows.
Qed.

Lemma countByGroup_same_rows_witness :
  let df := mkFrame ["state"; "district"]
              [ mkrow [("state", VStr "X"); ("district", VStr "B")];
                mkrow [("state", VStr "X"); ("district", VStr "A")] ] in
  let df' := mkFrame ["state"; "district"]
               [ mkrow [("state", VStr "X"); ("district", VStr "A")];
                 mkrow [("state", VStr "X"); ("district", VStr "B")] ] in
  same_rows df df' ∧
  district_summary df (Some (VStr "X")) = district_summary df' (Some (VStr "X")).
Proof.
  intros df df'.
  assert (same_rows df df') as H by (split; [reflexivity|apply Permutation_swap]).
  split; [exact H|].
  exact (countByGroup_same_rows df df' "district" "state" (Some (VStr "X")) H).
Defined.

(** ** Column sums and the row order *)

Lemma numeric_total_Permutation (cells cells' : list (option value)) :
  cells ≡ₚ cells' → numeric_total cells = numeric_total cells'.
Proof.
  induction 1 as [|cell ?? _ IH|c1 c2 ?|??? _ IH1 _ IH2]; simpl.
  - done.
  - by rewrite IH.
  - destruct c1 as [[?|?]|], c2 as [[?|?]|]; lia.
  - congruence.
Qed.

Lemma magnitude_Permutation (cells cells' : list (option value)) :
  cells ≡ₚ cells' → magnitude cells = magnitude cells'.
Proof.
  induction 1 as [|cell ?? _ IH|c1 c2 ?|??? _ IH1 _ IH2]; simpl.
  - done.
  - by rewrite IH.
  - destruct c1 as [[?|?]|], c2 as [[?|?]|]; lia.
  - congruence.
Qed.

Lemma series_Permutation (df df' : DataFrame) (c : string) :
  rows df ≡ₚ rows df' → series df c ≡ₚ series df' c.
Proof. intros H. unfold series. by apply fmap_Permutation. Qed.

Lemma numeric_column_Permutation (df df' : DataFrame) (c : string) :
  rows df ≡ₚ rows df' → numeric_column df c → numeric_column df' c.
Proof. intros H Hnum r s Hr. apply Hnum. by rewrite H. Qed.

(** X4: the totals of columns of numbers whose absolute values add up to
    2^53 at most do not depend on the order of the rows, so they are the
    same whatever the order in which the files of the folder were found. *)
Theorem sumColumns_same_rows (df df' : DataFrame) (cols : list string) :
  same_rows df df' →
  (∀ c, c ∈ cols → numeric_column df c) →
  (∀ c, c ∈ cols → exact_column df c) →
  sumColumns df cols = sumColumns df' cols.
Proof.
  intros Hsame Hnum Hfit. unfold sumColumns.
  rewrite (empty_same_rows df df' Hsame). destruct Hsame as [Hcols Hrows].
  rewrite Hcols. destruct (empty df' || _); [done|].
  rewrite (sum_frame_numeric df cols Hnum Hfit).
  rewrite (sum_frame_numeric df' cols).
  - f_equal. apply map_ext_in. intros c _. do 2 f_equal.
    by apply numeric_total_Permutation, series_Permutation.
  - intros c Hc. eapply numeric_column_Permutation; [exact Hrows|]. by apply Hnum.
  - intros c Hc. unfold exact_column.
    rewrite <- (magnitude_Permutation (series df c)); [by apply Hfit|].
    by apply series_Permutation.
Qed.

Lemma sumColumns_same_rows_witness :
  let df' := mkFrame ["a"; "b"]
               [ mkrow [("a", VNum 2); ("b", VNum 5)];
                 mkrow [("a", VNum 1); ("b", VNum 4)];
                 mkrow [("a", VNum 3); ("b", VNum 6)] ] in
  same_rows table_ab df' ∧
  (∀ c, c ∈ ["a"; "b"] → numeric_column table_ab c) ∧
  (∀ c, c ∈ ["a"; "b"] → exact_column table_ab c) ∧
  sumColumns table_ab ["a"; "b"] = sumColumns df' ["a"; "b"].
Proof.
  intros df'.
  assert (same_rows table_ab df') as H1.
  { split; [reflexivity|]. apply Permutation_swap. }
  assert (∀ c, c ∈ ["a"; "b"] → numeric_column table_ab c) as H2.
  { intros c Hc. apply numeric_column_check.
    apply list_elem_of_In in Hc. simpl in Hc.
    destruct Hc as [<-|[<-|[]]]; vm_compute; reflexivity. }
  assert (∀ c, c ∈ ["a"; "b"] → exact_column table_ab c) as H3.
  { intros c Hc. apply exact_column_check.
    apply list_elem_of_In in Hc. simpl in Hc.
    destruct Hc as [<-|[<-|[]]]; vm_compute; reflexivity. }
  split; [exact H1|]. split; [exact H2|]. split; [exact H3|].
  exact (sumColumns_same_rows table_ab df' ["a"; "b"] H1 H2 H3).
Defined.

(** ** The states offered by the select box *)

Lemma unique_foldl (l acc : list value) :
  NoDup acc →
  NoDup (foldl (λ acc v, if decide (v ∈ acc) then acc else acc ++ [v]) acc l) ∧
  ∀ v, v ∈ foldl (λ acc v, if decide (v ∈ acc) then acc else acc ++ [v]) acc l
       ↔ v ∈ acc ∨ v ∈ l.
Proof.
  revert acc. induction l as [|x l IH]; intros acc Hnd.
  - split; [done|]. intros v. rewrite elem_of_nil. tauto.
  - cbn [foldl]. destruct (decide (x ∈ acc)) as [Hin|Hout].
    + destruct (IH acc Hnd) as [Hnd' Hel]. split; [done|].
      intros v. rewrite Hel, elem_of_cons. split; [tauto|].
      intros [?|[->|?]]; tauto.
    + destruct (IH (acc ++ [x])) as [Hnd' Hel].
      { apply NoDup_app. split; [done|]. split; [|apply NoDup_singleton].
        intros y Hy ->%list_elem_of_singleton. done. }
      split; [done|]. intros v.
      rewrite Hel, elem_of_app, list_elem_of_singleton, elem_of_cons. tauto.
Qed.

Lemma unique_spec (l : list value) :
  NoDup (unique l) ∧ ∀ v, v ∈ unique l ↔ v ∈ l.
Proof.
  destruct (unique_foldl l []) as [Hnd Hel]; [constructor|].
  split; [done|]. intros v. unfold unique. rewrite Hel, elem_of_nil. tauto.
Qed.

Lemma elem_of_state_cells (df : DataFrame) (c : string) (v : value) :
  v ∈ dropna (series df c) ↔ ∃ r, r ∈ rows df ∧ r !! c = Some v.
Proof.
  unfold dropna, series. rewrite list_elem_of_omap. split.
  - intros (cell & Hcell & Hv). simpl in Hv. subst cell.
    apply list_elem_of_fmap in Hcell as (r & Hr & Hin). by exists r.
  - intros (r & Hr & Hv). exists (Some v). split; [|done].
    apply list_elem_of_fmap. by exists r.
Qed.

Lemma py_sorted_Some (l sts : list value) :
  py_sorted l = Some sts → StronglySorted value_le sts ∧ sts ≡ₚ l.
Proof.
  unfold py_sorted. destruct (_ || _); [|done]. intros [= <-]. split.
  - apply StronglySorted_merge_sort; apply _.
  - apply merge_sort_Permutation.
Qed.

Lemma forallb_is_num_false (l : list value) :
  forallb is_num l = false ↔ ∃ s, VStr s ∈ l.
Proof.
  induction l as [|[z|s] l IH]; simpl.
  - split; [done|]. by intros [s ?%elem_of_nil].
  - rewrite IH. split; intros [s Hs]; exists s.
    + by right.
    + by apply elem_of_cons in Hs as [?|?].
  - split; [|done]. intros _. exists s. by left.
Qed.

Lemma forallb_is_text_false (l : list value) :
  forallb (λ v, negb (is_num v)) l = false ↔ ∃ z, VNum z ∈ l.
Proof.
  induction l as [|[z|s] l IH]; simpl.
  - split; [done|]. by intros [z ?%elem_of_nil].
  - split; [|done]. intros _. exists z. by left.
  - rewrite IH. split; intros [z Hz]; exists z.
    + by right.
    + by apply elem_of_cons in Hz as [?|?].
Qed.

Lemma py_sorted_None (l : list value) :
  py_sorted l = None ↔ (∃ z, VNum z ∈ l) ∧ (∃ s, VStr s ∈ l).
Proof.
  unfold py_sorted.
  rewrite <- forallb_is_num_false, <- forallb_is_text_false.
  destruct (forallb is_num l), (forallb (λ v, negb (is_num v)) l); simpl;
    split; try done; by intros [? ?].
Qed.

Lemma states_spec (bio_df : DataFrame) (sts : list value) :
  states bio_df = Some sts →
  StronglySorted value_le sts ∧ NoDup sts ∧
  ∀ v, v ∈ sts ↔ ∃ r, r ∈ rows bio_df ∧ r !! "state" = Some v.
Proof.
  intros [Hsorted Hperm]%py_sorted_Some.
  destruct (unique_spec (dropna (series bio_df "state"))) as [Hnd Hel].
  split; [done|]. split; [by rewrite Hperm|].
  intros v. by rewrite Hperm, Hel, elem_of_state_cells.
Qed.

(** X5: the states offered by the select box are exactly the values found
    in the state column, each once, in ascending order; a missing state is
    not offered. *)
Theorem states_offered (bio_df : DataFrame) (sts : list value) :
  states bio_df = Some sts →
  StronglySorted value_le sts ∧ NoDup sts ∧
  ∀ v, v ∈ sts ↔ ∃ r, r ∈ rows bio_df ∧ r !! "state" = Some v.
Proof. apply states_spec. Qed.

Lemma states_offered_witness :
  states table_regions = Some [VStr "X"; VStr "Y"] ∧
  StronglySorted value_le [VStr "X"; VStr "Y"] ∧ NoDup [VStr "X"; VStr "Y"] ∧
  ∀ v, v ∈ [VStr "X"; VStr "Y"] ↔
       ∃ r, r ∈ rows table_regions ∧ r !! "state" = Some v.
Proof.
  assert (states table_regions = Some [VStr "X"; VStr "Y"]) as H
    by (vm_compute; reflexivity).
  split; [exact H|].
  exact (states_offered table_regions [VStr "X"; VStr "Y"] H).
Defined.

(** X6: building the list of states stops with an exception exactly when
    the state column holds both a number and a text, which Python's
    [sorted] does not compare. *)
Theorem states_raises (bio_df : DataFrame) :
  states bio_df = None ↔
  (∃ r z, r ∈ rows bio_df ∧ r !! "state" = Some (VNum z)) ∧
  (∃ r s, r ∈ rows bio_df ∧ r !! "state" = Some (VStr s)).
Proof.
  unfold states. rewrite py_sorted_None.
  destruct (unique_spec (dropna (series bio_df "state"))) as [_ Hel].
  split.
  - intros [[z Hz] [s Hs]].
    apply Hel, elem_of_state_cells in Hz as (r & Hr & Hz).
    apply Hel, elem_of_state_cells in Hs as (r' & Hr' & Hs).
    split; [by exists r, z|by exists r', s].
  - intros [(r & z & Hr & Hz) (r' & s & Hr' & Hs)]. split.
    + exists z. apply Hel, elem_of_state_cells. by exists r.
    + exists s. apply Hel, elem_of_state_cells. by exists r'.
Qed.

(** X7: when the view is available and a state is picked in the select
    box, that state has at least one record, the view shows a chart (not
    an error), and the counts of the chart add up to the number of records
    of the state that name a district. *)
Theorem regional_insights_picked (bio_df : DataFrame) (sts : list value)
    (pick : nat) (v : value) :
  rows bio_df ≠ [] →
  "state" ∈ columns bio_df → "district" ∈ columns bio_df →
  states bio_df = Some sts → sts !! pick = Some v →
  ∃ r, regional_insights bio_df pick = Summary r ∧
       select_rows "state" (Some v) (rows bio_df) ≠ [] ∧
       sum_list r.*2
       = length (with_value "district" (select_rows "state" (Some v) (rows bio_df))).
Proof.
  intros Hrows Hstate Hdistrict Hsts Hpick.
  exists (groupby_size "district" (select_rows "state" (Some v) (rows bio_df))).
  split; [|split].
  - unfold regional_insights, district_summary, countByGroup.
    rewrite empty_false; [|..|done].
    + rewrite !bool_decide_eq_true_2 by done. simpl. by rewrite Hsts, Hpick.
    + intros Hc. rewrite Hc in Hstate. by apply elem_of_nil in Hstate.
  - destruct (states_spec bio_df sts Hsts) as (_ & _ & Hel).
    assert (v ∈ sts) as Hv by (by eapply list_elem_of_lookup_2).
    apply Hel in Hv as (r & Hr & Hv).
    intros Hnil.
    assert (r ∈ select_rows "state" (Some v) (rows bio_df)) as Hin.
    { apply select_rows_chosen. split; [done|]. split; [by eexists|done]. }
    rewrite Hnil in Hin. by apply elem_of_nil in Hin.
  - apply groupby_size_sum.
Qed.

Lemma regional_insights_picked_witness :
  rows table_regions ≠ [] ∧
  "state" ∈ columns table_regions ∧ "district" ∈ columns table_regions ∧
  states table_regions = Some [VStr "X"; VStr "Y"] ∧
  [VStr "X"; VStr "Y"] !! 0%nat = Some (VStr "X") ∧
  ∃ r, regional_insights table_regions 0 = Summary r ∧
       select_rows "state" (Some (VStr "X")) (rows table_regions) ≠ [] ∧
       sum_list r.*2
       = length (with_value "district"
                   (select_rows "state" (Some (VStr "X")) (rows table_regions))).
Proof.
  assert (rows table_regions ≠ []) as H1 by discriminate.
  assert ("state" ∈ columns table_regions) as H2 by left.
  assert ("district" ∈ columns table_regions) as H3 by (right; left).
  assert (states table_regions = Some [VStr "X"; VStr "Y"]) as H4
    by (vm_compute; reflexivity).
  assert ([VStr "X"; VStr "Y"] !! 0%nat = Some (VStr "X")) as H5 by reflexivity.
  split; [exact H1|]. split; [exact H2|]. split; [exact H3|].
  split; [exact H4|]. split; [exact H5|].
  exact (regional_insights_picked table_regions [VStr "X"; VStr "Y"] 0 (VStr "X")
           H1 H2 H3 H4 H5).
Defined.

(** X8: a folder that gives the loader nothing to parse (no such folder,
    no matching file, or only files that fail) makes every view of the
    dashboard report its columns as missing; none of them raises. *)
Theorem views_without_data (fs : FS) (folder_path : string) (df : DataFrame)
    (pick : nat) :
  (∀ f, f ∈ glob_match fs folder_path ".csv" → ∃ e, read_csv_at fs f = inl e) →
  result (load_folder_csvs folder_path fs) = inr df →
  len df = 0%nat ∧
  age_summary df = Signal MissingRequiredColumns ∧
  demo_summary df = Signal MissingRequiredColumns ∧
  bio_summary df = Signal NoMatchingColumns ∧
  regional_insights df pick = Signal MissingRequiredColumns.
Proof.
  intros Hfail Hres. rewrite load_folder_csvs_run in Hres.
  unfold result in Hres. cbn [fst] in Hres.
  rewrite (loaded_nothing_parsed fs folder_path Hfail) in Hres.
  injection Hres as <-. by repeat split.
Qed.

Lemma views_without_data_witness :
  (∀ f, f ∈ glob_match ∅ "data/api_data_aadhar_biometric" ".csv" →
        ∃ e, read_csv_at ∅ f = inl e) ∧
  result (load_folder_csvs "data/api_data_aadhar_biometric" ∅) = inr empty_frame ∧
  len empty_frame = 0%nat ∧
  age_summary empty_frame = Signal MissingRequiredColumns ∧
  demo_summary empty_frame = Signal MissingRequiredColumns ∧
  bio_summary empty_frame = Signal NoMatchingColumns ∧
  regional_insights empty_frame 0 = Signal MissingRequiredColumns.
Proof.
  assert (∀ f, f ∈ glob_match ∅ "data/api_data_aadhar_biometric" ".csv" →
               ∃ e, read_csv_at ∅ f = inl e) as H1.
  { assert (glob_match ∅ "data/api_data_aadhar_biometric" ".csv" = []) as ->
      by (vm_compute; reflexivity).
    intros f Hf. apply elem_of_nil in Hf. destruct Hf. }
  assert (result (load_folder_csvs "data/api_data_aadhar_biometric" ∅)
          = inr empty_frame) as H2 by (vm_compute; reflexivity).
  split; [exact H1|]. split; [exact H2|].
  exact (views_without_data ∅ "data/api_data_aadhar_biometric" empty_frame 0 H1 H2).
Defined.

(** * Further properties of the converter *)

(** ** What the converter leaves alone *)

Lemma load_folder_csvs_agree (fs fs' : FS) (folder_path : string) :
  fs' !! folder_path = fs !! folder_path →
  result (load_folder_csvs folder_path fs') = result (load_folder_csvs folder_path fs) ∧
  trace (load_folder_csvs folder_path fs') = trace (load_folder_csvs folder_path fs).
Proof.
  intros Hdir. rewrite !load_folder_csvs_run. unfold result, trace. cbn [fst snd].
  assert (glob_match fs' folder_path ".csv" = glob_match fs folder_path ".csv")
    as Hglob by (by apply glob_match_agree).
  assert (∀ f, f ∈ glob_match fs folder_path ".csv" →
               read_csv_at fs' f = read_csv_at fs f) as Hread.
  { intros f Hf%glob_match_dir. unfold read_csv_at, lookup_file.
    by rewrite Hf, Hdir. }
  unfold loaded. rewrite Hglob. clear Hglob.
  induction (glob_match fs folder_path ".csv") as [|f files IH]; [done|].
  rewrite !parsed_cons, !bind_cons. unfold events_of_read at 1 3.
  rewrite (Hread f) by left.
  destruct IH as [IHr IHt]; [intros f' Hf'; apply Hread; by right|].
  injection IHt as IHt. rewrite IHt.
  assert (parsed fs' files = parsed fs files) as ->; [|done].
  clear IHr IHt. induction files as [|f' files IH']; [done|].
  rewrite !parsed_cons, (Hread f') by (right; left).
  rewrite IH'; [done|]. intros f'' Hf''. apply Hread.
  apply elem_of_cons in Hf'' as [->|Hf'']; [left|right; by right].
Qed.

Lemma dashboard_folders_not_outputs (folder_path : string) :
  folder_path ∈ dashboard_folders → folder_path ∉ output_dirs.
Proof.
  revert folder_path. apply Forall_forall.
  apply (bool_decide_unpack _). vm_compute. exact I.
Qed.



(** X10: the converter writes under "data_csv_converted", the dashboard
    loads from "data": for each of the three folders of the dashboard, the
    loader returns the same frame and shows the same warnings after a run
    of the converter as before it, whatever the converter found. *)
Theorem converter_not_seen_by_loader (os : system) (fs : FS) (folder_path : string) :
  folder_path ∈ dashboard_folders →
  result (load_folder_csvs folder_path (final (converter os fs)))
  = result (load_folder_csvs folder_path fs) ∧
  trace (load_folder_csvs folder_path (final (converter os fs)))
  = trace (load_folder_csvs folder_path fs).
Proof.
  intros Hfolder. apply load_folder_csvs_agree, converter_outside.
  by apply dashboard_folders_not_outputs.
Qed.

Lemma converter_not_seen_by_loader_witness :
  "data/api_data_aadhar_enrolment" ∈ dashboard_folders ∧
  result (load_folder_csvs "data/api_data_aadhar_enrolment"
            (final (converter willing disk_mixed)))
  = result (load_folder_csvs "data/api_data_aadhar_enrolment" disk_mixed) ∧
  trace (load_folder_csvs "data/api_data_aadhar_enrolment"
           (final (converter willing disk_mixed)))
  = trace (load_folder_csvs "data/api_data_aadhar_enrolment" disk_mixed).
Proof.
  assert ("data/api_data_aadhar_enrolment" ∈ dashboard_folders) as H by left.
  split; [exact H|].
  exact (converter_not_seen_by_loader willing disk_mixed
           "data/api_data_aadhar_enrolment" H).
Defined.

(** ** The name of the converted file *)

Lemma length_append (s t : string) :
  String.length (s +:+ t) = (String.length s + String.length t)%nat.
Proof. induction s as [|a s IH]; [done|]. rewrite append_cons. simpl. by rewrite IH. Qed.

Lemma append_inj_r (s s' t : string) : s +:+ t = s' +:+ t → s = s'.
Proof.
  revert s'. induction s as [|a s IH]; intros [|a' s'] H.
  - done.
  - apply (f_equal String.length) in H.
    rewrite append_nil, append_cons in H. simpl in H.
    rewrite length_append in H. lia.
  - apply (f_equal String.length) in H.
    rewrite append_nil, append_cons in H. simpl in H.
    rewrite length_append in H. lia.
  - rewrite !append_cons in H. injection H as -> H. f_equal. by apply IH.
Qed.

Lemma rev_app_append (s t u : string) :
  String.rev_app (s +:+ t) u = String.rev_app t (String.rev_app s u).
Proof.
  revert u. induction s as [|a s IH]; intros u; [done|].
  rewrite append_cons. simpl. apply IH.
Qed.

Lemma rev_app_rev_app (s u v : string) :
  String.rev_app (String.rev_app s u) v = String.rev_app u (s +:+ v).
Proof.
  revert u v. induction s as [|a s IH]; intros u v; [done|].
  simpl. rewrite IH. simpl. by rewrite append_cons.
Qed.

Lemma rev_rev (s : string) : String.rev (String.rev s) = s.
Proof. unfold String.rev. rewrite rev_app_rev_app. simpl. apply append_nil_r. Qed.

Lemma only_dots_rev_app (s u : string) :
  only_dots (String.rev_app s u) = only_dots s && only_dots u.
Proof.
  revert u. induction s as [|a s IH]; intros u; [done|].
  simpl. rewrite IH. simpl. destruct (Ascii.eqb a "."), (only_dots s); done.
Qed.

(** For a name that ends in ".xlsx" and does not start with a dot, the
    root of the name is what comes before ".xlsx". *)
Lemma hidden_cons (a : ascii) (s : string) :
  String.prefix "." (String a s) = false → a ≠ "."%char.
Proof.
  intros H ->. by destruct s.
Qed.

Lemma splitext_root_xlsx (stem : string) :
  String.prefix "." (stem +:+ ".xlsx") = false →
  splitext_root (stem +:+ ".xlsx") = stem.
Proof.
  intros Hvisible. unfold splitext_root, String.rev.
  rewrite rev_app_append. simpl.
  destruct stem as [|a stem];
    [rewrite append_nil in Hvisible; vm_compute in Hvisible;
     discriminate Hvisible|].
  rewrite append_cons in Hvisible. apply hidden_cons in Hvisible.
  rewrite only_dots_rev_app.
  assert (only_dots (String a stem) = false) as ->.
  { simpl. assert (Ascii.eqb a "." = false) as ->; [|done].
    by apply Ascii.eqb_neq. }
  simpl. rewrite rev_app_rev_app. simpl. by rewrite append_nil_r.
Qed.

Lemma glob_match_names (fs : FS) (dir ext : string) (f : path) :
  f ∈ glob_match fs dir ext ↔
  f.1 = dir ∧ f.2 ∈ listdir fs dir ∧
  ends_with ext f.2 = true ∧ String.prefix "." f.2 = false.
Proof.
  unfold glob_match. rewrite list_elem_of_fmap. split.
  - intros (name & -> & [Hmatch Hin]%list_elem_of_filter). simpl.
    apply Is_true_true, andb_true_iff in Hmatch as [Hext Hdot].
    apply negb_true_iff in Hdot. done.
  - intros (Hdir & Hin & Hext & Hdot). exists f.2. split.
    + destruct f as [d n]. simpl in *. by subst.
    + apply list_elem_of_filter. split; [|done].
      apply Is_true_true. by rewrite Hext, Hdot.
Qed.

Lemma glob_match_NoDup (fs : FS) (dir ext : string) : NoDup (glob_match fs dir ext).
Proof.
  unfold glob_match. apply NoDup_fmap_2; [by intros ?? [=]|].
  apply NoDup_filter. unfold listdir. destruct (fs !! dir); [|constructor].
  apply NoDup_fst_map_to_list.
Qed.

Lemma csv_file_of_xlsx (out dir stem : string) :
  String.prefix "." (stem +:+ ".xlsx") = false →
  csv_file_of out (dir, stem +:+ ".xlsx") = (out, stem +:+ ".csv").
Proof. intros H. unfold csv_file_of. simpl. by rewrite splitext_root_xlsx. Qed.

(** X11: a spreadsheet the converter finds is named "stem.xlsx" for some
    stem, dots inside the stem included, and is written as "stem.csv" in
    the output directory. *)
Theorem csv_file_of_found (fs : FS) (folder : string) (f : path) :
  f ∈ excel_files fs folder →
  ∃ stem, f = (input_path folder, stem +:+ ".xlsx") ∧
          csv_file_of (output_path folder) f = (output_path folder, stem +:+ ".csv").
Proof.
  intros (Hdir & _ & Hext & Hdot)%glob_match_names.
  apply ends_with_app in Hext as [stem Hname]. exists stem.
  destruct f as [d n]. simpl in *. subst d n. split; [done|].
  by apply csv_file_of_xlsx.
Qed.

Lemma csv_file_of_found_witness :
  ("api_data_aadhar_enrolment", "counts.xlsx")
    ∈ excel_files disk_mixed "api_data_aadhar_enrolment" ∧
  ∃ stem, ("api_data_aadhar_enrolment", "counts.xlsx")
          = (input_path "api_data_aadhar_enrolment", stem +:+ ".xlsx") ∧
          csv_file_of (output_path "api_data_aadhar_enrolment")
            ("api_data_aadhar_enrolment", "counts.xlsx")
          = (output_path "api_data_aadhar_enrolment", stem +:+ ".csv").
Proof.
  assert (("api_data_aadhar_enrolment", "counts.xlsx")
            ∈ excel_files disk_mixed "api_data_aadhar_enrolment") as H.
  { assert (excel_files disk_mixed "api_data_aadhar_enrolment"
            = [("api_data_aadhar_enrolment", "counts.xlsx")]) as ->
      by (vm_compute; reflexivity).
    left. }
  split; [exact H|].
  exact (csv_file_of_found disk_mixed "api_data_aadhar_enrolment"
           ("api_data_aadhar_enrolment", "counts.xlsx") H).
Defined.

Lemma csv_file_of_inj (fs : FS) (folder : string) (f f' : path) :
  f ∈ excel_files fs folder → f' ∈ excel_files fs folder →
  csv_file_of (output_path folder) f = csv_file_of (output_path folder) f' →
  f = f'.
Proof.
  intros (Hdir & _ & Hext & Hdot)%glob_match_names
         (Hdir' & _ & Hext' & Hdot')%glob_match_names Heq.
  apply ends_with_app in Hext as [stem Hname].
  apply ends_with_app in Hext' as [stem' Hname'].
  destruct f as [d n], f' as [d' n']. simpl in *. subst d d' n n'.
  rewrite !csv_file_of_xlsx in Heq by done.
  injection Heq as Heq. apply append_inj_r in Heq. by subst.
Qed.

(** X12: two different spreadsheets of a folder are never written to the
    same file, so no converted file is overwritten within a run. *)
Theorem written_for_NoDup (fs : FS) (folder : string) :
  NoDup (csv_file_of (output_path folder) <$> excel_files fs folder).
Proof.
  apply NoDup_fmap_2_strong; [|apply glob_match_NoDup].
  intros f f' Hf Hf'. by apply (csv_file_of_inj fs folder).
Qed.

(** ** When the converter completes *)

Lemma result_glob_bind {A} (dir ext : string) (k : list path → script FS A) (fs : FS) :
  result ((glob dir ext ≫= k) fs) = result (k (glob_match fs dir ext) fs).
Proof.
  unfold mbind, script_bind, glob, result.
  by destruct (k (glob_match fs dir ext) fs) as [[r s2] t2].
Qed.

Lemma final_glob_bind {A} (dir ext : string) (k : list path → script FS A) (fs : FS) :
  final ((glob dir ext ≫= k) fs) = final (k (glob_match fs dir ext) fs).
Proof.
  unfold mbind, script_bind, glob, final.
  by destruct (k (glob_match fs dir ext) fs) as [[r s2] t2].
Qed.

Lemma convert_file_final (os : system) (out : string) (f : path) (fs : FS) :
  result (convert_file os out f fs) = inr tt →
  ∃ df entries, read_excel_at fs f = inr df ∧ fs !! out = Some entries ∧
                final (convert_file os out f fs)
                = <[out := <[(csv_file_of out f).2 := csv_of df]> entries]> fs.
Proof.
  intros Hres.
  destruct (convert_file_completed os out f fs Hres)
    as ([df Hread] & [entries Hout] & Hfree & Hprint).
  exists df, entries. split; [done|]. split; [done|].
  by rewrite (convert_file_run os fs out f df entries Hread Hout Hfree Hprint).
Qed.

Lemma convert_files_completed (os : system) (out : string) (files : list path)
    (fs : FS) :
  (∀ f, f ∈ files → f.1 ≠ out ∧ path_str (csv_file_of out f) ≠ out) →
  result (for_each files (convert_file os out) fs) = inr tt →
  ∀ f, f ∈ files →
       (∃ df, read_excel_at fs f = inr df) ∧
       writable os fs (csv_file_of out f) ∧
       os (Print ("Converted: " +:+ path_str f)) = None.
Proof.
  revert fs. induction files as [|f files IH]; intros fs Hdirs Hres f' Hf'.
  { by apply elem_of_nil in Hf'. }
  change (for_each (f :: files) (convert_file os out))
    with (convert_file os out f ≫= λ _, for_each files (convert_file os out)) in Hres.
  apply result_bind_inr in Hres as ([] & Hone & Hrest).
  apply elem_of_cons in Hf' as [->|Hf'].
  { destruct (convert_file_completed os out f fs Hone) as (Hread & _ & Hfree & Hprint).
    done. }
  destruct (convert_file_final os out f fs Hone) as (df & entries & _ & _ & Hfinal).
  rewrite Hfinal in Hrest.
  destruct (IH _ (λ x Hx, Hdirs x (list_elem_of_further _ _ _ Hx)) Hrest f' Hf')
    as ([df' Hread'] & [Hfree' Hwrite'] & Hprint').
  destruct (Hdirs f') as [Hdir Hkey]; [by right|].
  unfold FS in *. rewrite lookup_insert_ne in Hfree' by done.
  split; [|done]. exists df'. rewrite <- Hread'. symmetry.
  apply read_excel_at_agree. unfold FS in *. by rewrite lookup_insert_ne.
Qed.

Lemma no_folder_pending (x : string) : x ∈ @nil string → x ∈ folders.
Proof. by intros ?%elem_of_nil. Qed.

Lemma convert_folder_completed (os : system) (pending : list string) (fs0 s : FS)
    (folder : string) :
  (∀ x, x ∈ pending → x ∈ folders) → folder ∈ pending → grown pending fs0 s →
  result (convert_folder os folder s) = inr tt →
  makeable os fs0 (output_path folder) ∧
  ∀ f, f ∈ excel_files fs0 folder →
       (∃ df, read_excel_at fs0 f = inr df) ∧
       writable os fs0 (csv_file_of (output_path folder) f) ∧
       os (Print ("Converted: " +:+ path_str f)) = None.
Proof.
  intros Hsub Hin Hgrown Hres. pose proof (Hsub folder Hin) as Hfolder.
  unfold convert_folder in Hres. fold (input_path folder) (output_path folder) in Hres.
  apply result_bind_inr in Hres as ([] & Hmk & Hres).
  split.
  { apply (makeable_pending os pending fs0 s); [done..|].
    by apply makedirs_completed. }
  assert (grown [] fs0 (final (makedirs os (output_path folder) s))) as Hgrown1.
  { apply grown_makedirs; [apply no_folder_pending|done|apply not_elem_of_nil|].
    apply (grown_weaken pending); [by intros x ?%elem_of_nil|done]. }
  revert Hres Hgrown1. generalize (final (makedirs os (output_path folder) s)).
  intros s1 Hres Hgrown1.
  destruct (found_at_start [] fs0 s1 folder Hfolder Hgrown1) as [Hglob Hfound].
  rewrite result_glob_bind, Hglob in Hres.
  intros f Hf.
  destruct (convert_files_completed os (output_path folder)
              (excel_files fs0 folder) s1) with f
    as ([df Hdf] & [Hfree Hwrite] & Hprint); [|done..|].
  { intros x Hx. destruct (Hfound x Hx) as (? & ? & _). done. }
  destruct (Hfound f Hf) as (_ & _ & Hread & Hkey).
  split; [|split; [split|]]; try done.
  - exists df. by rewrite <- Hread.
  - by rewrite <- Hkey.
Qed.

Lemma convert_folders_completed (os : system) (fs0 : FS) (fl : list string) (s : FS) :
  NoDup fl → (∀ x, x ∈ fl → x ∈ folders) → grown fl fs0 s →
  result (for_each fl (convert_folder os) s) = inr tt →
  ∀ folder, folder ∈ fl →
    makeable os fs0 (output_path folder) ∧
    ∀ f, f ∈ excel_files fs0 folder →
         (∃ df, read_excel_at fs0 f = inr df) ∧
         writable os fs0 (csv_file_of (output_path folder) f) ∧
         os (Print ("Converted: " +:+ path_str f)) = None.
Proof.
  revert s. induction fl as [|folder fl IH]; intros s Hnd Hfl Hgrown Hres fd Hfd.
  { by apply elem_of_nil in Hfd. }
  apply NoDup_cons in Hnd as [Hfresh Hnd].
  change (for_each (folder :: fl) (convert_folder os))
    with (convert_folder os folder ≫= λ _, for_each fl (convert_folder os)) in Hres.
  apply result_bind_inr in Hres as ([] & Hone & Hrest).
  apply elem_of_cons in Hfd as [->|Hfd].
  - apply (convert_folder_completed os (folder :: fl) fs0 s); [done|left|done..].
  - apply (IH (final (convert_folder os folder s))); try done.
    + intros x Hx. apply Hfl. by right.
    + apply grown_convert_folder; [|apply Hfl; left|done|].
      * intros x Hx. apply Hfl. by right.
      * apply (grown_weaken (folder :: fl)); [by intros x Hx; right|done].
Qed.

Lemma converter_completed (os : system) (fs : FS) :
  result (converter os fs) = inr tt → all_readable fs ∧ unhindered os fs.
Proof.
  intros Hres. unfold converter in Hres.
  apply result_bind_inr in Hres as ([] & Hmk & Hres).
  apply result_bind_inr in Hres as ([] & Hloop & Hlast).
  pose proof (convert_folders_completed os fs folders
                (final (makedirs os OUTPUT_ROOT fs)) folders_NoDup (λ x Hx, Hx)
                (grown_makedirs_root os folders fs (λ x Hx, Hx) fs
                   (grown_refl folders fs))
                Hloop) as Hall.
  split; [|split; [|split]].
  - intros folder f Hfolder Hf. by apply (Hall folder Hfolder).
  - intros d [->|Hd]%elem_of_cons; [by apply makedirs_completed|].
    apply list_elem_of_fmap in Hd as (folder & -> & Hfolder).
    by apply (Hall folder Hfolder).
  - intros folder f Hfolder Hf. by apply (Hall folder Hfolder).
  - unfold print, result in Hlast. fold all_converted in Hlast.
    by destruct (os (Print all_converted)).
Qed.

Lemma converter_completes (os : system) (fs : FS) :
  all_readable fs → unhindered os fs → result (converter os fs) = inr tt.
Proof.
  intros Hreadable Hfree.
  by destruct (converter_run os fs Hreadable Hfree) as (fs' & -> & _).
Qed.

(** X13: the converter runs to its end exactly when every spreadsheet it
    finds in the three folders can be read and nothing hinders the run: no
    regular file stands where an output directory is to be, no directory
    where a converted file is to go, and the system refuses none of the
    calls that make a directory, write a file or print a line.  One
    spreadsheet that cannot be read makes the whole run end with an
    exception. *)
Theorem converter_completes_iff (os : system) (fs : FS) :
  result (converter os fs) = inr tt ↔ all_readable fs ∧ unhindered os fs.
Proof.
  split; [apply converter_completed|].
  intros [Hreadable Hfree]. by apply converter_completes.
Qed.

(** ** How a run of the converter fails *)

Lemma convert_files_failed (os : system) (out : string) (files : list path)
    (fs : FS) (e : string) :
  is_Some (fs !! out) →
  (∀ f, f ∈ files →
        f.1 ≠ out ∧ path_str (csv_file_of out f) ≠ out ∧
        writable os fs (csv_file_of out f) ∧
        os (Print ("Converted: " +:+ path_str f)) = None) →
  result (for_each files (convert_file os out) fs) = inl e →
  ∃ f, f ∈ files ∧ read_excel_at fs f = inl e.
Proof.
  revert fs. induction files as [|f files IH]; intros fs Hout Hfiles Hres.
  { done. }
  change (for_each (f :: files) (convert_file os out))
    with (convert_file os out f ≫= λ _, for_each files (convert_file os out)) in Hres.
  destruct (Hfiles f) as (Hdir & Hkey & Hfree & Hprint); [left|].
  apply result_bind_inl in Hres as [Hone|([] & Hone & Hrest)].
  { exists f. split; [left|]. by apply (convert_file_failed os out f fs e). }
  destruct (convert_file_final os out f fs Hone) as (df & entries & _ & _ & Hfinal).
  rewrite Hfinal in Hrest.
  destruct (IH (<[out := <[(csv_file_of out f).2 := csv_of df]> entries]> fs))
    as (f' & Hf' & Hread'); [| |exact Hrest|].
  { unfold FS in *. rewrite lookup_insert_eq. by eexists. }
  { intros x Hx. destruct (Hfiles x) as (Hd & Hk & [Hfr Hwr] & Hpr); [by right|].
    split; [done|]. split; [done|]. split; [split|]; try done.
    unfold FS in *. by rewrite lookup_insert_ne. }
  exists f'. split; [by right|]. rewrite <- Hread'. symmetry.
  apply read_excel_at_agree. unfold FS in *.
  rewrite lookup_insert_ne; [done|]. intros Heq.
  destruct (Hfiles f') as (Hd & _); [by right|]. by apply Hd.
Qed.

Lemma convert_folder_failed (os : system) (fs0 s : FS) (folder : string) (e : string) :
  folder ∈ folders → grown [] fs0 s →
  makeable os fs0 (output_path folder) →
  (∀ f, f ∈ excel_files fs0 folder →
        writable os fs0 (csv_file_of (output_path folder) f) ∧
        os (Print ("Converted: " +:+ path_str f)) = None) →
  result (convert_folder os folder s) = inl e →
  ∃ f, f ∈ excel_files fs0 folder ∧ read_excel_at fs0 f = inl e.
Proof.
  intros Hfolder Hgrown Hmake Hfiles Hres.
  pose proof (output_path_is_output folder Hfolder) as Hout.
  destruct (makedirs_run os (output_path folder) s) as (s1 & Hmk & Hthere).
  { by apply (makeable_grown os [] fs0). }
  assert (grown [] fs0 s1) as Hgrown1.
  { pose proof (grown_makedirs os [] fs0 folder no_folder_pending Hfolder
                  (not_elem_of_nil folder) s Hgrown) as Hm.
    by rewrite Hmk in Hm. }
  destruct (found_at_start [] fs0 s1 folder Hfolder Hgrown1) as [Hglob Hfound].
  unfold convert_folder in Hres. fold (input_path folder) (output_path folder) in Hres.
  apply result_bind_inl in Hres as [Hbad|([] & _ & Hres)].
  { by rewrite Hmk in Hbad. }
  rewrite Hmk in Hres. unfold final at 1 in Hres. cbn [fst snd] in Hres.
  rewrite result_glob_bind, Hglob in Hres.
  destruct (convert_files_failed os (output_path folder) (excel_files fs0 folder)
              s1 e) as (f & Hf & Hread); [done| |done|].
  { intros f Hf. destruct (Hfound f Hf) as (Hdir & Hne & _ & Hkey).
    destruct (Hfiles f Hf) as ([Hfree Hwrite] & Hprint).
    split; [done|]. split; [done|]. split; [split|]; try done.
    by rewrite Hkey. }
  exists f. split; [done|].
  destruct (Hfound f Hf) as (_ & _ & Hsame & _). by rewrite <- Hsame.
Qed.

Lemma convert_folders_failed (os : system) (fs0 : FS) (fl : list string) (s : FS)
    (e : string) :
  (∀ folder, folder ∈ fl → folder ∈ folders) → grown [] fs0 s →
  unhindered os fs0 →
  result (for_each fl (convert_folder os) s) = inl e →
  ∃ folder f, folder ∈ fl ∧ f ∈ excel_files fs0 folder ∧
              read_excel_at fs0 f = inl e.
Proof.
  intros Hfl Hgrown (Hmake & Hserved & _). revert s Hfl Hgrown.
  induction fl as [|folder fl IH]; intros s Hfl Hgrown Hres; [done|].
  change (for_each (folder :: fl) (convert_folder os))
    with (convert_folder os folder ≫= λ _, for_each fl (convert_folder os)) in Hres.
  assert (folder ∈ folders) as Hfolder by (apply Hfl; left).
  apply result_bind_inl in Hres as [Hone|([] & Hone & Hrest)].
  - destruct (convert_folder_failed os fs0 s folder e) as (f & Hf & Hread);
      [done..| | |done|].
    { by apply Hmake, output_path_is_output. }
    { intros f Hf. by apply Hserved. }
    exists folder, f. split; [left|done].
  - destruct (IH (final (convert_folder os folder s))) as (fd & f & Hfd & Hf & Hread);
      [| |done|].
    { intros x Hx. apply Hfl. by right. }
    { apply grown_convert_folder;
        [apply no_folder_pending|done|apply not_elem_of_nil|done]. }
    exists fd, f. split; [by right|done].
Qed.

(** X14: when nothing hinders the run (no regular file stands where an
    output directory is to be, no directory where a converted file is to
    go, and the system refuses none of the calls that make a directory,
    write a file or print a line), a run of the converter that ends with an
    exception ends with the one pandas raised for a spreadsheet found in
    one of the three folders. *)
Theorem converter_fails_on_read (os : system) (fs : FS) (e : string) :
  unhindered os fs →
  result (converter os fs) = inl e →
  ∃ folder f, folder ∈ folders ∧ f ∈ excel_files fs folder ∧
              read_excel_at fs f = inl e.
Proof.
  intros Hfree Hres. pose proof Hfree as (Hmake & _ & Hlast).
  destruct (makedirs_run os OUTPUT_ROOT fs) as (fs1 & Hmk & _);
    [apply Hmake; left|].
  assert (grown [] fs fs1) as Hgrown.
  { pose proof (grown_makedirs_root os [] fs no_folder_pending fs
                  (grown_refl [] fs)) as Hm.
    by rewrite Hmk in Hm. }
  unfold converter in Hres.
  apply result_bind_inl in Hres as [Hbad|([] & _ & Hres)].
  { by rewrite Hmk in Hbad. }
  rewrite Hmk in Hres. unfold final at 1 in Hres. cbn [fst snd] in Hres.
  apply result_bind_inl in Hres as [Hloop|([] & _ & Hprint)].
  - by apply (convert_folders_failed os fs folders fs1).
  - unfold print, result in Hprint. fold all_converted in Hprint.
    by rewrite Hlast in Hprint.
Qed.

Lemma converter_fails_on_read_witness :
  unhindered willing disk_damaged ∧
  ∃ folder f, folder ∈ folders ∧ f ∈ excel_files disk_damaged folder ∧
              read_excel_at disk_damaged f = inl "File is not a zip file".
Proof.
  assert (unhindered willing disk_damaged) as H
    by (apply unhindered_check; vm_compute; reflexivity).
  split; [exact H|].
  apply (converter_fails_on_read willing disk_damaged "File is not a zip file" H).
  vm_compute. reflexivity.
Defined.

(** ** The last line printed *)

Lemma emits_bind {S A B} (Q : event → Prop) (m : script S A) (k : A → script S B) :
  emits Q m → (∀ a, emits Q (k a)) → emits Q (m ≫= k).
Proof.
  intros Hm Hk s. specialize (Hm s).
  unfold mbind, script_bind, trace in *.
  destruct (m s) as [[[e|a] s1] t1]; simpl in *; [done|].
  specialize (Hk a s1). unfold trace in Hk.
  destruct (k a s1) as [[r s2] t2]; simpl in *. by apply Forall_app.
Qed.

Lemma emits_for_each {S A} (Q : event → Prop) (l : list A) (body : A → script S unit) :
  (∀ x, emits Q (body x)) → emits Q (for_each l body).
Proof.
  intros Hbody. induction l as [|x l IH].
  - intros s. apply Forall_nil_2.
  - apply emits_bind; [apply Hbody|]. intros _. exact IH.
Qed.

Lemma emits_makedirs (os : system) (dir : string) :
  emits (λ e, e ≠ Print all_converted) (makedirs os dir).
Proof.
  intros fs. unfold makedirs, raise, trace.
  destruct (bool_decide (is_Some (fs !! dir))); [by apply Forall_singleton|].
  destruct (mkdir_error fs (parents dir ++ [dir])); [apply Forall_nil_2|].
  destruct (os (MakeDirs dir)); [apply Forall_nil_2|by apply Forall_singleton].
Qed.

Lemma emits_to_csv (os : system) (df : DataFrame) (p : path) :
  emits (λ e, e ≠ Print all_converted) (to_csv os df p).
Proof.
  intros fs. unfold to_csv, raise, trace.
  destruct (fs !! p.1); [|apply Forall_nil_2].
  destruct (bool_decide (is_Some (fs !! path_str p))); [apply Forall_nil_2|].
  destruct (os (Write (path_str p))); [apply Forall_nil_2|by apply Forall_singleton].
Qed.

Lemma emits_convert_file (os : system) (out : string) (f : path) :
  emits (λ e, e ≠ Print all_converted) (convert_file os out f).
Proof.
  unfold convert_file. apply emits_bind.
  { intros fs. by apply Forall_singleton. }
  intros df. apply emits_bind; [apply emits_to_csv|]. intros _.
  intros fs. unfold print, raise, emit, trace.
  destruct (os (Print ("Converted: " +:+ path_str f))); [apply Forall_nil_2|].
  by apply Forall_singleton.
Qed.

Lemma emits_convert_folder (os : system) (folder : string) :
  emits (λ e, e ≠ Print all_converted) (convert_folder os folder).
Proof.
  unfold convert_folder. apply emits_bind; [apply emits_makedirs|].
  intros _. apply emits_bind.
  { intros fs. by apply Forall_singleton. }
  intros files. apply emits_for_each. intros f. apply emits_convert_file.
Qed.

(** X15: the line "✅ All Excel files converted to CSV" is among what the
    converter prints exactly when the run came to its end: a run that
    stopped on a spreadsheet does not print it. *)
Theorem converter_success_line (os : system) (fs : FS) :
  Print all_converted ∈ trace (converter os fs) ↔ result (converter os fs) = inr tt.
Proof.
  assert (emits (λ e, e ≠ Print all_converted)
            (makedirs os OUTPUT_ROOT ;; for_each folders (convert_folder os)))
    as Hbefore.
  { apply emits_bind; [apply emits_makedirs|]. intros _.
    apply emits_for_each. apply emits_convert_folder. }
  specialize (Hbefore fs). rewrite Forall_forall in Hbefore.
  unfold converter.
  change (makedirs os OUTPUT_ROOT ;; for_each folders (convert_folder os) ;;
          print os "✅ All Excel files converted to CSV")
    with (makedirs os OUTPUT_ROOT ≫= λ _,
          (for_each folders (convert_folder os) ≫= λ _, print os all_converted)).
  revert Hbefore.
  change (makedirs os OUTPUT_ROOT ;; for_each folders (convert_folder os))
    with (makedirs os OUTPUT_ROOT ≫= λ _, for_each folders (convert_folder os)).
  unfold mbind, script_bind, trace, result, print, raise, emit.
  destruct (makedirs os OUTPUT_ROOT fs) as [[[e|[]] s1] t1]; cbn [fst snd].
  { intros Hbefore. split; [|done]. intros Hin. by destruct (Hbefore _ Hin). }
  destruct (for_each folders (convert_folder os) s1) as [[[e|[]] s2] t2];
    cbn [fst snd].
  { intros Hbefore. split; [|done]. intros Hin. by destruct (Hbefore _ Hin). }
  destruct (os (Print all_converted)); cbn [fst snd]; intros Hbefore.
  - split; [|done]. rewrite app_nil_r. intros Hin. by destruct (Hbefore _ Hin).
  - split; [done|]. intros _. apply elem_of_app. right.
    apply elem_of_app. right. left.
Qed.

(** * Further properties of the loader *)

(** ** The labels of the combined frame *)

Lemma union_columns_foldl (dfs : list DataFrame) (acc : list string) (c : string) :
  c ∈ foldl (λ acc df, acc ++ list_difference (columns df) acc) acc dfs ↔
  c ∈ acc ∨ ∃ df, df ∈ dfs ∧ c ∈ columns df.
Proof.
  revert acc. induction dfs as [|df dfs IH]; intros acc; simpl.
  - split; [by left|]. intros [H|(df & H%elem_of_nil & _)]; [done|destruct H].
  - rewrite IH, elem_of_app, list_elem_of_difference. split.
    + intros [[H|[H _]]|(df' & Hdf' & H)].
      * by left.
      * right. exists df. split; [left|done].
      * right. exists df'. split; [by right|done].
    + intros [H|(df' & Hdf' & H)]; [by left; left|].
      apply elem_of_cons in Hdf' as [->|Hdf'].
      * destruct (decide (c ∈ acc)); [by left; left|by left; right].
      * right. by exists df'.
Qed.

Lemma union_columns_spec (dfs : list DataFrame) (c : string) :
  c ∈ union_columns dfs ↔ ∃ df, df ∈ dfs ∧ c ∈ columns df.
Proof.
  unfold union_columns. rewrite union_columns_foldl. split; [|by right].
  intros [H%elem_of_nil|H]; [destruct H|done].
Qed.

Lemma union_columns_foldl_NoDup (dfs : list DataFrame) (acc : list string) :
  NoDup acc → (∀ df, df ∈ dfs → NoDup (columns df)) →
  NoDup (foldl (λ acc df, acc ++ list_difference (columns df) acc) acc dfs).
Proof.
  revert acc. induction dfs as [|df dfs IH]; intros acc Hacc Hdfs; [done|].
  simpl. apply IH.
  - apply NoDup_app. split; [done|]. split.
    + intros c Hc [_ Hout]%list_elem_of_difference. by apply Hout.
    + apply NoDup_list_difference, Hdfs. left.
  - intros df' Hdf'. apply Hdfs. by right.
Qed.

Lemma parsed_spec (fs : FS) (files : list path) (df : DataFrame) :
  df ∈ parsed fs files ↔ ∃ f, f ∈ files ∧ read_csv_at fs f = inr df.
Proof.
  unfold parsed. rewrite list_elem_of_omap. split.
  - intros (f & Hf & H). exists f. split; [done|].
    destruct (read_csv_at fs f); by simplify_eq.
  - intros (f & Hf & H). exists f. split; [done|]. by rewrite H.
Qed.

Lemma loaded_columns (fs : FS) (folder_path : string) :
  columns (loaded fs folder_path)
  = union_columns (parsed fs (glob_match fs folder_path ".csv")).
Proof. unfold loaded. by destruct (parsed fs (glob_match fs folder_path ".csv")). Qed.

Lemma loaded_rows (fs : FS) (folder_path : string) :
  rows (loaded fs folder_path)
  = mjoin (rows <$> parsed fs (glob_match fs folder_path ".csv")).
Proof. unfold loaded. by destruct (parsed fs (glob_match fs folder_path ".csv")). Qed.

(** X16: the labels of the frame the loader returns are those of the files
    that parse, and no other: a label is in the combined frame exactly when
    some file of the folder parses to a frame that has it. *)
Theorem load_folder_csvs_columns (fs : FS) (folder_path : string) :
  ∃ df, result (load_folder_csvs folder_path fs) = inr df ∧
        ∀ c, c ∈ columns df ↔
             ∃ f part, f ∈ glob_match fs folder_path ".csv" ∧
                       read_csv_at fs f = inr part ∧ c ∈ columns part.
Proof.
  exists (loaded fs folder_path). rewrite load_folder_csvs_run. split; [done|].
  intros c. rewrite loaded_columns, union_columns_spec. split.
  - intros (part & (f & Hf & Hread)%parsed_spec & Hc). by exists f, part.
  - intros (f & part & Hf & Hread & Hc). exists part. split; [|done].
    apply parsed_spec. by exists f.
Qed.

Lemma pd_concat_well_formed (dfs : list DataFrame) :
  (∀ df, df ∈ dfs → well_formed df) → well_formed (pd_concat dfs).
Proof.
  intros Hdfs. split; [|split]; simpl.
  - apply union_columns_foldl_NoDup; [constructor|].
    intros df Hdf. apply (Hdfs df Hdf).
  - intros (df & Hdf & Hc)%union_columns_spec.
    by apply (proj1 (proj2 (Hdfs df Hdf))).
  - intros r c (l & Hr & (df & -> & Hdf)%list_elem_of_fmap)%list_elem_of_join Hc.
    apply union_columns_spec. exists df. split; [done|].
    by apply (proj2 (proj2 (Hdfs df Hdf)) r c).
Qed.

(** X17: when every file of the folder that parses gives a frame with
    distinct, non-empty labels and no value outside them, so is the frame
    the loader returns: putting the files together repeats no label and
    leaves no value under a label the combined frame lacks. *)
Theorem load_folder_csvs_well_formed (fs : FS) (folder_path : string) :
  (∀ f part, f ∈ glob_match fs folder_path ".csv" →
             read_csv_at fs f = inr part → well_formed part) →
  ∃ df, result (load_folder_csvs folder_path fs) = inr df ∧ well_formed df.
Proof.
  intros Hparts. exists (loaded fs folder_path).
  rewrite load_folder_csvs_run. split; [done|].
  unfold loaded.
  destruct (parsed fs (glob_match fs folder_path ".csv")) as [|df dfs] eqn:Hparsed.
  - split; [constructor|]. split; [by intros ?%elem_of_nil|].
    by intros r c ?%elem_of_nil.
  - apply pd_concat_well_formed. intros part Hpart. rewrite <- Hparsed in Hpart.
    apply parsed_spec in Hpart as (f & Hf & Hread). by apply (Hparts f part).
Qed.

Lemma well_formed_check (df : DataFrame) :
  NoDup (columns df) → ("" ∉ columns df) →
  forallb (λ r, forallb (λ c, bool_decide (c ∈ columns df)) (map_to_list r).*1)
          (rows df) = true →
  well_formed df.
Proof.
  intros Hnd Hne Hrows. split; [done|]. split; [done|].
  intros r c Hr [v Hc]. rewrite forallb_forall in Hrows.
  apply list_elem_of_In, Hrows in Hr. rewrite forallb_forall in Hr.
  assert (c ∈ (map_to_list r).*1) as Hin.
  { apply list_elem_of_fmap. exists (c, v). split; [done|].
    by apply elem_of_map_to_list. }
  apply list_elem_of_In, Hr in Hin. by apply bool_decide_eq_true in Hin.
Qed.

Lemma table_ab_well_formed : well_formed table_ab.
Proof.
  apply well_formed_check.
  - apply (bool_decide_unpack _). vm_compute. exact I.
  - apply (bool_decide_unpack _). vm_compute. exact I.
  - vm_compute. reflexivity.
Qed.

Lemma table_age_well_formed : well_formed table_age.
Proof.
  apply well_formed_check.
  - apply (bool_decide_unpack _). vm_compute. exact I.
  - apply (bool_decide_unpack _). vm_compute. exact I.
  - vm_compute. reflexivity.
Qed.

Lemma load_folder_csvs_well_formed_witness :
  (∀ f part, f ∈ glob_match disk_enrolment "data/api_data_aadhar_enrolment" ".csv" →
             read_csv_at disk_enrolment f = inr part → well_formed part) ∧
  ∃ df, result (load_folder_csvs "data/api_data_aadhar_enrolment" disk_enrolment)
        = inr df ∧ well_formed df.
Proof.
  assert (∀ f part,
            f ∈ glob_match disk_enrolment "data/api_data_aadhar_enrolment" ".csv" →
            read_csv_at disk_enrolment f = inr part → well_formed part) as H.
  { assert (glob_match disk_enrolment "data/api_data_aadhar_enrolment" ".csv"
            = [("data/api_data_aadhar_enrolment", "part3.csv");
               ("data/api_data_aadhar_enrolment", "part1.csv");
               ("data/api_data_aadhar_enrolment", "part2.csv")]) as ->
      by (vm_compute; reflexivity).
    assert (read_csv_at disk_enrolment ("data/api_data_aadhar_enrolment", "part1.csv")
            = inr table_ab) as H1 by (vm_compute; reflexivity).
    assert (read_csv_at disk_enrolment ("data/api_data_aadhar_enrolment", "part2.csv")
            = inr table_age) as H2 by (vm_compute; reflexivity).
    assert (read_csv_at disk_enrolment ("data/api_data_aadhar_enrolment", "part3.csv")
            = inl "Error tokenizing data. C error: EOF inside string starting at row 1")
      as H3 by (vm_compute; reflexivity).
    intros f part Hf Hread. apply list_elem_of_In in Hf. simpl in Hf.
    destruct Hf as [<-|[<-|[<-|[]]]].
    - rewrite H3 in Hread. discriminate.
    - rewrite H1 in Hread. injection Hread as <-. exact table_ab_well_formed.
    - rewrite H2 in Hread. injection Hread as <-. exact table_age_well_formed. }
  split; [exact H|].
  exact (load_folder_csvs_well_formed disk_enrolment "data/api_data_aadhar_enrolment" H).
Defined.

(** ** Totals over the files of a folder *)

Lemma numeric_total_app (cells cells' : list (option value)) :
  numeric_total (cells ++ cells') = numeric_total cells + numeric_total cells'.
Proof.
  induction cells as [|[[z|s]|] cells IH]; simpl; [done|..]; rewrite ?IH; lia.
Qed.

Lemma series_pd_concat (dfs : list DataFrame) (c : string) :
  series (pd_concat dfs) c = mjoin ((λ df, series df c) <$> dfs).
Proof.
  unfold series, pd_concat. simpl.
  induction dfs as [|df dfs IH]; [done|].
  simpl. rewrite map_app. f_equal. exact IH.
Qed.

Lemma numeric_total_pd_concat (dfs : list DataFrame) (c : string) :
  numeric_total (series (pd_concat dfs) c) = total_over dfs c.
Proof.
  rewrite series_pd_concat. induction dfs as [|df dfs IH]; [done|].
  simpl. rewrite numeric_total_app. f_equal. exact IH.
Qed.

Lemma numeric_column_pd_concat (dfs : list DataFrame) (c : string) :
  (∀ df, df ∈ dfs → numeric_column df c) → numeric_column (pd_concat dfs) c.
Proof.
  intros Hdfs r s Hr. simpl in Hr.
  apply list_elem_of_join in Hr as (l & Hr & (df & -> & Hdf)%list_elem_of_fmap).
  by apply (Hdfs df Hdf).
Qed.

Lemma magnitude_app (cells cells' : list (option value)) :
  magnitude (cells ++ cells') = magnitude cells + magnitude cells'.
Proof.
  induction cells as [|[[z|s]|] cells IH]; simpl; [done|..]; rewrite ?IH; lia.
Qed.

Lemma magnitude_pd_concat (dfs : list DataFrame) (c : string) :
  magnitude (series (pd_concat dfs) c) = magnitude_over dfs c.
Proof.
  rewrite series_pd_concat. induction dfs as [|df dfs IH]; [done|].
  simpl. rewrite magnitude_app. f_equal. exact IH.
Qed.

(** X18: the column sums of a view over the frames of several files put
    together are the sums of the files' own totals: when the requested
    labels (at least one) each occur in some file, some file has a row, no
    file holds a text under a requested label, and the absolute values of
    the numbers under each requested label add up, over all the files, to
    2^53 at most, the view shows, for each label, the numbers under it added
    up over all the files; a file that lacks the label adds nothing. *)
Theorem sumColumns_pd_concat (dfs : list DataFrame) (cols : list string) :
  cols ≠ [] →
  (∀ c, c ∈ cols → ∃ df, df ∈ dfs ∧ c ∈ columns df) →
  (∃ df, df ∈ dfs ∧ rows df ≠ []) →
  (∀ df c, df ∈ dfs → c ∈ cols → numeric_column df c) →
  (∀ c, c ∈ cols → magnitude_over dfs c ≤ 2 ^ 53) →
  sumColumns (pd_concat dfs) cols
  = Summary (map (λ c, (c, VNum (total_over dfs c))) cols).
Proof.
  intros Hcols Hpresent (df & Hdf & Hrows) Hnum Hfit. unfold sumColumns.
  assert (∀ c, c ∈ cols → c ∈ columns (pd_concat dfs)) as Hall.
  { intros c Hc. simpl. by apply union_columns_spec, Hpresent. }
  rewrite empty_false; first last.
  { simpl. intros Hnil. apply Hrows. apply elem_of_nil_inv. intros r Hr.
    assert (r ∈ mjoin (rows <$> dfs)) as Hin.
    { apply list_elem_of_join. exists (rows df). split; [done|].
      apply list_elem_of_fmap. by exists df. }
    rewrite Hnil in Hin. by apply elem_of_nil in Hin. }
  { destruct cols as [|c cols']; [done|]. intros Hnil.
    assert (c ∈ columns (pd_concat dfs)) as Hc by (apply Hall; left).
    rewrite Hnil in Hc. by apply elem_of_nil in Hc. }
  rewrite (proj2 (all_columns_present _ _) Hall). simpl.
  rewrite sum_frame_numeric.
  - f_equal. apply map_ext. intros c. by rewrite numeric_total_pd_concat.
  - intros c Hc. apply numeric_column_pd_concat. intros df' Hdf'. by apply Hnum.
  - intros c Hc. unfold exact_column. rewrite magnitude_pd_concat. by apply Hfit.
Qed.

Lemma sumColumns_pd_concat_witness :
  let dfs := [table_ab; table_counts] in
  let cols := ["a"; "age_0_5"] in
  cols ≠ [] ∧
  (∀ c, c ∈ cols → ∃ df, df ∈ dfs ∧ c ∈ columns df) ∧
  (∃ df, df ∈ dfs ∧ rows df ≠ []) ∧
  (∀ df c, df ∈ dfs → c ∈ cols → numeric_column df c) ∧
  (∀ c, c ∈ cols → magnitude_over dfs c ≤ 2 ^ 53) ∧
  sumColumns (pd_concat dfs) cols = Summary [("a", VNum 6); ("age_0_5", VNum 12)].
Proof.
  intros dfs cols.
  assert (cols ≠ []) as H1 by discriminate.
  assert (∀ c, c ∈ cols → ∃ df, df ∈ dfs ∧ c ∈ columns df) as H2.
  { intros c Hc. apply list_elem_of_In in Hc. simpl in Hc.
    destruct Hc as [<-|[<-|[]]].
    - exists table_ab. split; [left|left].
    - exists table_counts. split; [right; left|left]. }
  assert (∃ df, df ∈ dfs ∧ rows df ≠ []) as H3.
  { exists table_ab. split; [left|discriminate]. }
  assert (∀ df c, df ∈ dfs → c ∈ cols → numeric_column df c) as H4.
  { intros df c Hdf Hc. apply numeric_column_check.
    apply list_elem_of_In in Hdf. apply list_elem_of_In in Hc. simpl in Hdf, Hc.
    destruct Hdf as [<-|[<-|[]]]; destruct Hc as [<-|[<-|[]]];
      vm_compute; reflexivity. }
  assert (∀ c, c ∈ cols → magnitude_over dfs c ≤ 2 ^ 53) as H5.
  { intros c Hc. apply Z.leb_le.
    apply list_elem_of_In in Hc. simpl in Hc.
    destruct Hc as [<-|[<-|[]]]; vm_compute; reflexivity. }
  split; [exact H1|]. split; [exact H2|]. split; [exact H3|]. split; [exact H4|].
  split; [exact H5|].
  exact (sumColumns_pd_concat dfs cols H1 H2 H3 H4 H5).
Defined.

(** ** The loader and the disk *)

Lemma disk_io_app (t u : list event) : disk_io (t ++ u) = disk_io t ++ disk_io u.
Proof. apply filter_app. Qed.

Lemma disk_io_reads (fs : FS) (files : list path) :
  disk_io (files ≫= events_of_read fs) = (λ f, Read (path_str f)) <$> files.
Proof.
  induction files as [|f files IH]; [done|].
  rewrite bind_cons, disk_io_app, IH, fmap_cons. unfold events_of_read.
  by destruct (read_csv_at fs f).
Qed.

(** X19: the loader only looks: whatever the folder holds, it leaves the
    disk as it found it, and it touches the disk by one listing of the
    folder followed by one read of each file found, in the order found and
    none of them twice. *)
Theorem load_folder_csvs_read_only (fs : FS) (folder_path : string) :
  let run := load_folder_csvs folder_path fs in
  let files := glob_match fs folder_path ".csv" in
  final run = fs ∧
  disk_io (trace run)
  = Glob (join folder_path "*.csv") :: ((λ f, Read (path_str f)) <$> files) ∧
  NoDup files.
Proof.
  intros run files. subst run files. rewrite load_folder_csvs_run.
  split; [done|]. split; [|apply glob_match_NoDup].
  unfold trace. cbn [snd].
  change (disk_io (Glob ?p :: ?t)) with (Glob p :: disk_io t).
  by rewrite disk_io_reads.
Qed.

(** ** Running the dashboard script again *)

Lemma warnings_of_warnings (msgs : list string) :
  warnings_of (Warning <$> msgs) = msgs.
Proof. induction msgs as [|m msgs IH]; [done|]. rewrite fmap_cons. simpl. by f_equal. Qed.

Lemma load_run (s : session) (arg : string) :
  ∃ df s1 t, load arg s = (inr df, s1, t) ∧
             memo s1 !! arg = Some (df, warnings_of t) ∧
             ∀ key entry, memo s !! key = Some entry → memo s1 !! key = Some entry.
Proof.
  destruct (memo s !! arg) as [[df msgs]|] eqn:Hmemo.
  - exists df, s, (Warning <$> msgs). rewrite (load_hit _ _ _ _ Hmemo).
    split; [done|]. split; [|done]. by rewrite warnings_of_warnings.
  - eexists _, _, _. rewrite (load_miss _ _ Hmemo). split; [done|]. split.
    + cbn [memo]. rewrite lookup_insert_eq. do 2 f_equal.
      change (warnings_of (Glob ?p :: ?t)) with (warnings_of t).
      by rewrite warnings_of_reads.
    + intros key entry Hkey. cbn [memo]. rewrite lookup_insert_ne; [done|]. congruence.
Qed.

Lemma load_data_run (s : session) :
  ∃ a b c s3 ta tb tc,
    load_data s = (inr (a, b, c), s3, ta ++ tb ++ tc ++ []) ∧
    memo s3 !! "data/api_data_aadhar_enrolment" = Some (a, warnings_of ta) ∧
    memo s3 !! "data/api_data_aadhar_demographic" = Some (b, warnings_of tb) ∧
    memo s3 !! "data/api_data_aadhar_biometric" = Some (c, warnings_of tc).
Proof.
  destruct (load_run s "data/api_data_aadhar_enrolment")
    as (a & s1 & ta & Ha & Hma & _).
  destruct (load_run s1 "data/api_data_aadhar_demographic")
    as (b & s2 & tb & Hb & Hmb & Hk2).
  destruct (load_run s2 "data/api_data_aadhar_biometric")
    as (c & s3 & tc & Hc & Hmc & Hk3).
  exists a, b, c, s3, ta, tb, tc. split; [|split; [|split]].
  - unfold load_data.
    rewrite (bind_run _ _ _ _ _ _ Ha), (bind_run _ _ _ _ _ _ Hb),
      (bind_run _ _ _ _ _ _ Hc). done.
  - by apply Hk3, Hk2.
  - by apply Hk3.
  - done.
Qed.

Lemma load_data_cached (s : session) a b c ma mb mc :
  memo s !! "data/api_data_aadhar_enrolment" = Some (a, ma) →
  memo s !! "data/api_data_aadhar_demographic" = Some (b, mb) →
  memo s !! "data/api_data_aadhar_biometric" = Some (c, mc) →
  load_data s
  = (inr (a, b, c), s, (Warning <$> ma) ++ (Warning <$> mb) ++ (Warning <$> mc) ++ []).
Proof.
  intros Ha Hb Hc. unfold load_data.
  rewrite (bind_run _ _ _ _ _ _ (load_hit _ _ _ _ Ha)),
    (bind_run _ _ _ _ _ _ (load_hit _ _ _ _ Hb)),
    (bind_run _ _ _ _ _ _ (load_hit _ _ _ _ Hc)). done.
Qed.

(** X20: Streamlit runs the script again on every interaction.  The three
    loads at its start never stop it, and every later run of them in the
    same process, whatever has become of the files, returns the same three
    frames as the first run, does not touch the disk, and shows the
    warnings of the first run again. *)
Theorem load_data_rerun (s : session) (d : FS) :
  let first := load_data s in
  let again := load_data (with_disk d (final first)) in
  (∃ frames, result first = inr frames) ∧
  result again = result first ∧
  disk_io (trace again) = [] ∧
  warnings_of (trace again) = warnings_of (trace first).
Proof.
  intros first again. subst first again.
  destruct (load_data_run s) as (a & b & c & s3 & ta & tb & tc & -> & Ha & Hb & Hc).
  unfold final. cbn [fst snd].
  rewrite (load_data_cached (with_disk d s3) a b c _ _ _ Ha Hb Hc).
  unfold result, trace. cbn [fst snd].
  split; [by eexists|]. split; [done|]. split.
  - by rewrite !disk_io_app, !disk_io_warnings.
  - by rewrite !warnings_of_app, !warnings_of_warnings.
Qed.

(** ** What a complete run leaves in the output directories *)

Lemma lookup_file_agree (fs fs' : FS) (p : path) :
  fs' !! p.1 = fs !! p.1 → lookup_file fs' p = lookup_file fs p.
Proof. intros H. unfold lookup_file. by rewrite H. Qed.

(** A step of the inner loop leaves the disk as it is, or with the
    converted file of its spreadsheet. *)
Lemma convert_file_state (os : system) (out : string) (f : path) (fs : FS) :
  final (convert_file os out f fs) = fs ∨
  ∃ df entries, fs !! out = Some entries ∧
                final (convert_file os out f fs)
                = <[out := <[(csv_file_of out f).2 := csv_of df]> entries]> fs.
Proof.
  unfold convert_file, mbind, script_bind, read_excel, to_csv, print, emit, raise,
    final.
  destruct (read_excel_at fs f) as [e|df]; [by left|]. cbn [fst snd csv_file_of].
  destruct (fs !! out) as [entries|]; [|by left].
  destruct (bool_decide (is_Some (fs !! path_str (csv_file_of out f))));
    [by left|].
  destruct (os (Write (path_str (csv_file_of out f)))); [by left|].
  right. exists df, entries. split; [done|].
  by destruct (os (Print ("Converted: " +:+ path_str f))).
Qed.

Lemma convert_file_other (os : system) (out : string) (f : path) (fs : FS) (p : path) :
  p ≠ csv_file_of out f →
  lookup_file (final (convert_file os out f fs)) p = lookup_file fs p.
Proof.
  intros Hne.
  destruct (convert_file_state os out f fs) as [->|(df & entries & Hout & ->)];
    [done|].
  unfold lookup_file, FS in *.
  destruct (decide (p.1 = out)) as [Hdir|Hdir].
  - rewrite Hdir, lookup_insert_eq, Hout. simpl.
    rewrite lookup_insert_ne; [done|]. intros Hname. apply Hne.
    destruct p as [d n]. unfold csv_file_of in *. simpl in *. by subst.
  - by rewrite lookup_insert_ne.
Qed.

Lemma convert_files_other (os : system) (out : string) (files : list path) (fs : FS)
    (p : path) :
  (∀ f, f ∈ files → p ≠ csv_file_of out f) →
  lookup_file (final (for_each files (convert_file os out) fs)) p = lookup_file fs p.
Proof.
  revert fs. induction files as [|f files IH]; intros fs Hne; [done|].
  change (for_each (f :: files) (convert_file os out))
    with (convert_file os out f ≫= λ _, for_each files (convert_file os out)).
  destruct (result (convert_file os out f fs)) as [e|[]] eqn:Hres.
  - assert (final ((convert_file os out f
                    ≫= λ _, for_each files (convert_file os out)) fs)
            = final (convert_file os out f fs)) as ->.
    { unfold mbind, script_bind, result, final in *.
      by destruct (convert_file os out f fs) as [[[e'|a] s1] t1]. }
    apply convert_file_other, Hne. left.
  - rewrite (result_final_bind _ _ _ _ Hres), IH.
    + apply convert_file_other, Hne. left.
    + intros f' Hf'. apply Hne. by right.
Qed.

Lemma convert_files_written (os : system) (out : string) (files : list path)
    (fs : FS) (f : path) (df : DataFrame) :
  NoDup files →
  (∀ x y, x ∈ files → y ∈ files → csv_file_of out x = csv_file_of out y → x = y) →
  (∀ x, x ∈ files → x.1 ≠ out) →
  result (for_each files (convert_file os out) fs) = inr tt →
  f ∈ files → read_excel_at fs f = inr df →
  lookup_file (final (for_each files (convert_file os out) fs)) (csv_file_of out f)
  = Some (csv_of df).
Proof.
  revert fs. induction files as [|f0 files IH];
    intros fs Hnd Hinj Hdirs Hres Hf Hread.
  { by apply elem_of_nil in Hf. }
  apply NoDup_cons in Hnd as [Hf0 Hnd].
  change (for_each (f0 :: files) (convert_file os out))
    with (convert_file os out f0 ≫= λ _, for_each files (convert_file os out)) in *.
  pose proof Hres as Hres'.
  apply result_bind_inr in Hres' as ([] & Hone & Hrest).
  rewrite (result_final_bind _ _ _ _ Hone).
  destruct (convert_file_final os out f0 fs Hone)
    as (df0 & entries & Hread0 & Hout & Hfinal).
  rewrite Hfinal in *.
  apply elem_of_cons in Hf as [->|Hf].
  - rewrite convert_files_other.
    + rewrite Hread0 in Hread. injection Hread as ->.
      unfold lookup_file, FS in *. cbn [fst snd csv_file_of].
      rewrite lookup_insert_eq. simpl. by rewrite lookup_insert_eq.
    + intros f' Hf' Heq. apply Hf0.
      rewrite (Hinj f0 f'); [done|by left|by right|done].
  - apply IH; try done.
    + intros x y Hx Hy. apply Hinj; by right.
    + intros x Hx. apply Hdirs. by right.
    + rewrite <- Hread. apply read_excel_at_agree. unfold FS in *.
      rewrite lookup_insert_ne; [done|]. intros Heq.
      apply (Hdirs f); [by right|done].
Qed.

Lemma convert_folder_written (os : system) (fs0 s : FS) (folder : string)
    (f : path) (df : DataFrame) :
  folder ∈ folders → grown [] fs0 s →
  result (convert_folder os folder s) = inr tt →
  f ∈ excel_files fs0 folder → read_excel_at fs0 f = inr df →
  lookup_file (final (convert_folder os folder s)) (csv_file_of (output_path folder) f)
  = Some (csv_of df).
Proof.
  intros Hfolder Hgrown Hres Hf Hread.
  unfold convert_folder in *. fold (input_path folder) (output_path folder) in *.
  pose proof Hres as Hres'.
  apply result_bind_inr in Hres' as ([] & Hmk & Hloop).
  rewrite (result_final_bind _ _ _ _ Hmk).
  assert (grown [] fs0 (final (makedirs os (output_path folder) s))) as Hgrown1.
  { by apply grown_makedirs;
      [apply no_folder_pending|done|apply not_elem_of_nil|]. }
  revert Hloop Hgrown1. generalize (final (makedirs os (output_path folder) s)).
  intros s1 Hloop Hgrown1.
  destruct (found_at_start [] fs0 s1 folder Hfolder Hgrown1) as [Hglob Hfound].
  rewrite result_glob_bind, Hglob in Hloop. rewrite final_glob_bind, Hglob.
  apply convert_files_written; try done.
  - apply glob_match_NoDup.
  - intros x y Hx Hy. by apply (csv_file_of_inj fs0 folder).
  - intros x Hx. by destruct (Hfound x Hx) as (? & _).
  - destruct (Hfound f Hf) as (_ & _ & -> & _). done.
Qed.

Lemma convert_folder_leaves (os : system) (folder k : string)
    (v : option (gmap string stored)) :
  folder ∈ folders → k ≠ OUTPUT_ROOT → k ≠ output_path folder →
  maintains (λ s, s !! k = v) (convert_folder os folder).
Proof.
  intros Hfolder Hroot Hne. apply maintains_convert_folder; [done|..].
  - intros s d Hd Hs. rewrite mkdir_missing_other; [done|].
    apply elem_of_cons in Hd as [->|Hd%list_elem_of_singleton]; [done|].
    by subst d.
  - intros s e _ Hs. unfold FS in *. by rewrite lookup_insert_ne.
Qed.

Lemma convert_folders_written (os : system) (fs0 : FS) (fl : list string) (s : FS)
    (folder : string) (f : path) (df : DataFrame) :
  NoDup fl → (∀ x, x ∈ fl → x ∈ folders) → grown [] fs0 s →
  result (for_each fl (convert_folder os) s) = inr tt →
  folder ∈ fl → f ∈ excel_files fs0 folder → read_excel_at fs0 f = inr df →
  lookup_file (final (for_each fl (convert_folder os) s))
              (csv_file_of (output_path folder) f)
  = Some (csv_of df).
Proof.
  revert s. induction fl as [|folder0 fl IH];
    intros s Hnd Hfl Hgrown Hres Hfolder Hf Hread.
  { by apply elem_of_nil in Hfolder. }
  apply NoDup_cons in Hnd as [Hfolder0 Hnd].
  change (for_each (folder0 :: fl) (convert_folder os))
    with (convert_folder os folder0 ≫= λ _, for_each fl (convert_folder os)) in *.
  pose proof Hres as Hres'.
  apply result_bind_inr in Hres' as ([] & Hone & Hrest).
  rewrite (result_final_bind _ _ _ _ Hone).
  assert (folder0 ∈ folders) as Hin0 by (apply Hfl; left).
  apply elem_of_cons in Hfolder as [->|Hfolder].
  - rewrite <- (convert_folder_written os fs0 s folder0 f df Hin0 Hgrown Hone Hf Hread).
    apply lookup_file_agree. cbn [csv_file_of fst].
    apply (maintains_for_each (λ s2, s2 !! output_path folder0 = _)); [|done].
    intros x Hx. apply convert_folder_leaves.
    + apply Hfl. by right.
    + by apply output_path_not_root.
    + intros Heq. apply Hfolder0.
      rewrite (output_path_inj folder0 x); [done|done| |done].
      apply Hfl. by right.
  - apply IH; try done.
    + intros x Hx. apply Hfl. by right.
    + by apply grown_convert_folder;
        [apply no_folder_pending|done|apply not_elem_of_nil|].
Qed.

(** X21: after a run of the converter that came to its end, every
    spreadsheet found in one of the three folders has its converted file in
    place: the file named after it in the folder's output directory holds
    the delimited text of the frame read from that spreadsheet, and no
    later step of the run has replaced it. *)
Theorem converter_output (os : system) (fs : FS) (folder : string) (f : path) :
  result (converter os fs) = inr tt →
  folder ∈ folders → f ∈ excel_files fs folder →
  ∃ df, read_excel_at fs f = inr df ∧
        lookup_file (final (converter os fs)) (csv_file_of (output_path folder) f)
        = Some (csv_of df).
Proof.
  intros Hres Hfolder Hf.
  destruct (converter_completed os fs Hres) as [Hreadable _].
  destruct (Hreadable folder f Hfolder Hf) as [df Hread].
  exists df. split; [done|].
  unfold converter in *.
  apply result_bind_inr in Hres as ([] & Hmk & Hres).
  rewrite (result_final_bind _ _ _ _ Hmk).
  apply result_bind_inr in Hres as ([] & Hloop & _).
  rewrite (result_final_bind _ _ _ _ Hloop), final_print.
  apply (convert_folders_written os fs); try done.
  - apply folders_NoDup.
  - apply grown_makedirs_root; [apply no_folder_pending|apply grown_refl].
Qed.

Lemma converter_output_witness :
  let f := ("api_data_aadhar_enrolment", "counts.xlsx") in
  result (converter willing disk_mixed) = inr tt ∧
  "api_data_aadhar_enrolment" ∈ folders ∧
  f ∈ excel_files disk_mixed "api_data_aadhar_enrolment" ∧
  ∃ df, read_excel_at disk_mixed f = inr df ∧
        lookup_file (final (converter willing disk_mixed))
          (csv_file_of (output_path "api_data_aadhar_enrolment") f)
        = Some (csv_of df).
Proof.
  intros f.
  assert (result (converter willing disk_mixed) = inr tt) as H1
    by (vm_compute; reflexivity).
  assert ("api_data_aadhar_enrolment" ∈ folders) as H2 by left.
  assert (f ∈ excel_files disk_mixed "api_data_aadhar_enrolment") as H3.
  { assert (excel_files disk_mixed "api_data_aadhar_enrolment" = [f]) as ->
      by (vm_compute; reflexivity).
    left. }
  split; [exact H1|]. split; [exact H2|]. split; [exact H3|].
  exact (converter_output willing disk_mixed "api_data_aadhar_enrolment" f H1 H2 H3).
Defined.

(** ** Running the converter again *)

Lemma excel_files_agree (fs fs' : FS) (folder : string) :
  folder ∈ folders → same_inputs fs fs' →
  excel_files fs' folder = excel_files fs folder.
Proof.
  intros Hfolder Hsame. apply glob_match_agree, Hsame.
  by apply input_path_is_input.
Qed.

Lemma all_readable_agree (fs fs' : FS) :
  same_inputs fs fs' → all_readable fs → all_readable fs'.
Proof.
  intros Hsame Hreadable folder f Hfolder Hf.
  rewrite (excel_files_agree fs fs' folder Hfolder Hsame) in Hf.
  destruct (Hreadable folder f Hfolder Hf) as [df Hread]. exists df.
  rewrite <- Hread. apply read_excel_at_agree.
  apply glob_match_dir in Hf. rewrite Hf. apply Hsame.
  by apply input_path_is_input.
Qed.

Lemma events_of_folders_agree (fs fs' : FS) (fl : list string) :
  (∀ x, x ∈ fl → x ∈ folders) → same_inputs fs fs' →
  fl ≫= events_of_folder fs' = fl ≫= events_of_folder fs.
Proof.
  intros Hfl Hsame. induction fl as [|folder fl IH]; [done|].
  rewrite !bind_cons, IH by (intros x Hx; apply Hfl; by right).
  unfold events_of_folder.
  by rewrite (excel_files_agree fs fs' folder (Hfl folder (list_elem_of_here _ _)) Hsame).
Qed.

(** What hinders a run does not come from the run before. *)
Lemma unhindered_grown (os : system) (fs fs' : FS) :
  grown [] fs fs' → unhindered os fs → unhindered os fs'.
Proof.
  intros Hgrown (Hmake & Hserved & Hlast).
  assert (same_inputs fs fs') as Hsame.
  { intros dir Hdir. by apply (grown_outside []), input_dirs_not_outputs. }
  split; [|split; [|done]].
  - intros d Hd. by apply (makeable_grown os [] fs), Hmake.
  - intros folder f Hfolder Hf.
    rewrite (excel_files_agree fs fs' folder Hfolder Hsame) in Hf.
    destruct (Hserved folder f Hfolder Hf) as [[Hkey Hwrite] Hprint].
    split; [split|]; [|done..].
    rewrite (grown_outside [] fs fs'); [done..|]. apply csv_file_not_output.
Qed.

(** X22: the converter does not look at what it wrote before: run again
    after a run that came to its end, it comes to its end again and does
    the same things in the same order, reading and writing every
    spreadsheet once more. *)
Theorem converter_rerun (os : system) (fs : FS) :
  result (converter os fs) = inr tt →
  result (converter os (final (converter os fs))) = inr tt ∧
  trace (converter os (final (converter os fs))) = trace (converter os fs).
Proof.
  intros Hres. destruct (converter_completed os fs Hres) as [Hreadable Hfree].
  pose proof (grown_converter os fs) as Hgrown.
  assert (same_inputs fs (final (converter os fs))) as Hsame.
  { intros dir Hdir. by apply converter_outside, input_dirs_not_outputs. }
  pose proof (all_readable_agree _ _ Hsame Hreadable) as Hreadable'.
  pose proof (unhindered_grown os _ _ Hgrown Hfree) as Hfree'.
  revert Hsame Hreadable' Hfree'. clear Hgrown.
  generalize (final (converter os fs)). intros fs1 Hsame Hreadable' Hfree'.
  destruct (converter_run _ _ Hreadable' Hfree') as (fs'' & -> & _).
  destruct (converter_run _ _ Hreadable Hfree) as (fs' & -> & _).
  unfold result, trace, calls. cbn [fst snd].
  split; [done|]. by rewrite (events_of_folders_agree fs fs1 folders).
Qed.

Lemma converter_rerun_witness :
  result (converter willing disk_mixed) = inr tt ∧
  result (converter willing (final (converter willing disk_mixed))) = inr tt ∧
  trace (converter willing (final (converter willing disk_mixed)))
  = trace (converter willing disk_mixed).
Proof.
  assert (result (converter willing disk_mixed) = inr tt) as H
    by (vm_compute; reflexivity).
  split; [exact H|]. exact (converter_rerun willing disk_mixed H).
Defined.
